(** * 8ball autotrader: indicators, position stores, entries and exit rules

    A shallow embedding of the TypeScript sources of the trading bots, and the
    properties of the specification proved (or refuted) on it.

    Conventions of the embedding.
    - A JavaScript [number] is an exact rational ([Q]): the rounding of IEEE
      doubles is not represented.  Where the source can produce [NaN] or an
      infinity that a claim depends on ([parseFloat], the division by a
      recorded entry price) the value is a [JsNumber.number].  The indicator
      functions divide by their period, which the statements take to be at
      least 1 wherever a division is reached, so that [Qdiv] agrees with the
      source there.  [===] on numbers is [Qeq_bool].
    - Arrays are lists; [a[i]] is [nth i a 0] and is only used in range.
    - Module-level [let] variables, the JSON file and the console are fields
      of an explicit world that every [async] function threads.
    - Answers of the external services (price lookups, trade execution, file
      writes) are inputs of the model. *)

From Stdlib Require Import QArith Qminmax Qabs Lqa Lia ZArith List String Ascii Bool.
From stdpp Require Import base gmap strings list.

Close Scope Q_scope.

(* ===================================================================== *)
(** * Part I: the embedding                                               *)
(* ===================================================================== *)

(** ** Numbers *)

Module Num.

(** [a < b] as the boolean test of a JavaScript conditional. *)
Definition ltb (a b : Q) : bool := negb (Qle_bool b a).

(** [a <= b] and [a >= b]. *)
Definition leb (a b : Q) : bool := Qle_bool a b.
Definition geb (a b : Q) : bool := Qle_bool b a.

(** A period, a length or a loop index used as a number. *)
Definition ofNat (n : nat) : Q := inject_Z (Z.of_nat n).

(** [arr.reduce((a, b) => a + b, 0)] *)
Definition sum (l : list Q) : Q := fold_left Qplus l 0%Q.

(** [Math.max(a, b, c)] *)
Definition max3 (a b c : Q) : Q := Qmax (Qmax a b) c.

End Num.

(** ** Numbers that may not be finite *)

Module JsNumber.

(** A number where the source can produce [NaN] or an infinity: the result
    of [parseFloat], and [pnl] when the recorded entry price is 0. *)
Inductive number : Type :=
| Finite (q : Q)
| PlusInfinity
| MinusInfinity
| NaN.

(** [a / b] *)
Definition div (a b : Q) : number :=
  if Qeq_bool b 0 then
    if Num.ltb 0 a then PlusInfinity
    else if Num.ltb a 0 then MinusInfinity
    else NaN
  else Finite (a / b).

(** [x <= q] and [x >= q] *)
Definition le_num (x : number) (q : Q) : bool :=
  match x with
  | Finite p => Num.leb p q
  | MinusInfinity => true
  | PlusInfinity | NaN => false
  end.

Definition ge_num (x : number) (q : Q) : bool :=
  match x with
  | Finite p => Num.geb p q
  | PlusInfinity => true
  | MinusInfinity | NaN => false
  end.

End JsNumber.

(** ** Technical indicators

    [calculateEMA] and [calculateRSI] of the momentum bot (unnamed/part_002;
    the pullback and combined bots have the same functions), the two
    [calculateATR] and the single-number [calculateRSI]; then [calculateSMA],
    [calculateMACD] and [calculateBollingerBands] of the momentum bot. *)

Module Indicators.

Local Open Scope Q_scope.

(** [prices[i]] *)
Definition at_ (prices : list Q) (i : nat) : Q := nth i prices 0.

(** The [for] loop of [calculateEMA]: [prev] is [emaArray[i - 1]] and [rest]
    the prices from index [i] on. *)
Fixpoint ema_loop (k prev : Q) (rest : list Q) : list Q :=
  match rest with
  | [] => []
  | p :: rest' =>
      let e := p * k + prev * (1 - k) in
      e :: ema_loop k e rest'
  end.

(** The smoothing factor [2 / (period + 1)]. *)
Definition ema_k (period : nat) : Q := 2 / (Num.ofNat period + 1).

(** [calculateEMA(prices, period)].  With an empty [prices] (which passes the
    guard only for [period = 0]) the source seeds the array with
    [prices[0] = undefined]; the embedding has no such value and the
    statements below take [1 <= period]. *)
Definition calculateEMA (prices : list Q) (period : nat) : list Q :=
  if (length prices <? period)%nat then []
  else
    let k := ema_k period in
    match prices with
    | [] => []
    | p0 :: rest => p0 :: ema_loop k p0 rest
    end.

(** [100 - (100 / (1 + rs))] with [rs = avgLoss === 0 ? 100 : avgGain / avgLoss]. *)
Definition rsi_value (avgGain avgLoss : Q) : Q :=
  let rs := if Qeq_bool avgLoss 0 then 100 else avgGain / avgLoss in
  100 - (100 / (1 + rs)).

(** First loop of [calculateRSI]: [n] iterations starting at index [i],
    accumulating the gains and the losses. *)
Fixpoint rsi_seed (prices : list Q) (i n : nat) (avgGain avgLoss : Q) : Q * Q :=
  match n with
  | O => (avgGain, avgLoss)
  | S n' =>
      let change := at_ prices i - at_ prices (i - 1) in
      if Num.ltb 0 change
      then rsi_seed prices (S i) n' (avgGain + change) avgLoss
      else rsi_seed prices (S i) n' avgGain (avgLoss - change)
  end.

(** Second loop of [calculateRSI]: Wilder smoothing, one value pushed per
    iteration; [n] iterations starting at index [i]. *)
Fixpoint rsi_smooth (prices : list Q) (period : Q) (i n : nat)
  (avgGain avgLoss : Q) : list Q :=
  match n with
  | O => []
  | S n' =>
      let change := at_ prices i - at_ prices (i - 1) in
      let gain := if Num.ltb 0 change then change else 0 in
      let loss := if Num.ltb change 0 then - change else 0 in
      let avgGain' := (avgGain * (period - 1) + gain) / period in
      let avgLoss' := (avgLoss * (period - 1) + loss) / period in
      rsi_value avgGain' avgLoss'
        :: rsi_smooth prices period (S i) n' avgGain' avgLoss'
  end.

(** [calculateRSI(prices, period)] *)
Definition calculateRSI (prices : list Q) (period : nat) : list Q :=
  if (length prices <=? period)%nat then []
  else
    let '(g, l) := rsi_seed prices 1 period 0 0 in
    let avgGain := g / Num.ofNat period in
    let avgLoss := l / Num.ofNat period in
    rsi_value avgGain avgLoss
      :: rsi_smooth prices (Num.ofNat period) (period + 1)
           (length prices - (period + 1)) avgGain avgLoss.

(** The simplified [calculateRSI] at the end of combined_strategy_bot.ts,
    which returns a single number. *)
Definition rsi_simple_loop (prices : list Q) : Q * Q :=
  (fix go (prev : Q) (rest : list Q) (gains losses : Q) : Q * Q :=
     match rest with
     | [] => (gains, losses)
     | p :: rest' =>
         let diff := p - prev in
         if Num.geb diff 0 then go p rest' (gains + diff) losses
         else go p rest' gains (losses - diff)
     end)
    (at_ prices 0) (tl prices) 0 0.

Definition calculateRSI_simple (prices : list Q) (period : nat) : Q :=
  let '(gains, losses) := rsi_simple_loop prices in
  let avgGain := gains / Num.ofNat period in
  let avgLoss := losses / Num.ofNat period in
  if Qeq_bool avgLoss 0 then 100
  else let rs := avgGain / avgLoss in 100 - (100 / (1 + rs)).

(** One bar of the price history kept by the combined bot:
    [{ high, low, price }]. *)
Record Bar : Type := mkBar { high : Q; low : Q; price : Q }.

Definition bar0 : Bar := mkBar 0 0 0.

(** [Math.max(high - low, Math.abs(high - prevClose), Math.abs(low - prevClose))] *)
Definition true_range (hi lo prevClose : Q) : Q :=
  Num.max3 (hi - lo) (Qabs (hi - prevClose)) (Qabs (lo - prevClose)).

(** [trValues] of the array variant: one true range per index [1 .. length - 1]. *)
Definition trValues (data : list Bar) : list Q :=
  map (fun i => true_range (high (nth i data bar0)) (low (nth i data bar0))
                           (price (nth (i - 1) data bar0)))
      (seq 1 (length data - 1)).

(** Wilder smoothing of the array variant: [last] is
    [atrValues[atrValues.length - 1]]. *)
Fixpoint atr_loop (period last : Q) (rest : list Q) : list Q :=
  match rest with
  | [] => []
  | tr :: rest' =>
      let newAtr := (last * (period - 1) + tr) / period in
      newAtr :: atr_loop period newAtr rest'
  end.

(** [calculateATR(data, period): number[]] of combined_strategy_bot.ts (the
    intraday bot has the same function). *)
Definition calculateATR (data : list Bar) (period : nat) : list Q :=
  if (length data <=? period)%nat then []
  else
    let tr := trValues data in
    let sum := Num.sum (firstn period tr) in
    let first := sum / Num.ofNat period in
    first :: atr_loop (Num.ofNat period) first (skipn period tr).

(** [ohlcData[i][j]] for the rows [[timestamp, open, high, low, close]] of the
    pullback bot. *)
Definition cell (ohlcData : list (list Q)) (i j : nat) : Q :=
  nth j (nth i ohlcData []) 0.

(** [trueRanges] of the scalar variant. *)
Definition trueRanges (ohlcData : list (list Q)) : list Q :=
  map (fun i =>
         let hi := cell ohlcData i 2 in
         let lo := cell ohlcData i 3 in
         let prevClose := cell ohlcData (i - 1) 4 in
         let tr1 := hi - lo in
         let tr2 := Qabs (hi - prevClose) in
         let tr3 := Qabs (lo - prevClose) in
         Num.max3 tr1 tr2 tr3)
      (seq 1 (length ohlcData - 1)).

(** [calculateATR(ohlcData, period): number] of trend_pullback_bot.ts. *)
Definition calculateATR_scalar (ohlcData : list (list Q)) (period : nat) : Q :=
  if (length ohlcData <? period)%nat then 0
  else
    let tr := trueRanges ohlcData in
    let atr0 := Num.sum (firstn period tr) / Num.ofNat period in
    fold_left (fun atr t => (atr * (Num.ofNat period - 1) + t) / Num.ofNat period)
              (skipn period tr) atr0.

(** A strictly increasing series: every price is above the one before it. *)
Definition strictly_increasing (prices : list Q) : Prop :=
  forall i, (S i < length prices)%nat -> at_ prices i < at_ prices (S i).

(** The prices [1, 2, ..., 15]. *)
Definition ramp15 : list Q := map Num.ofNat (seq 1 15).

(** Fourteen candles [[timestamp, open, high, low, close]], every one with
    high 2, low 1 and close 1. *)
Definition flat14 : list (list Q) := repeat [0; 1; 2; 1; 1] 14.

(** *** The other indicators of the momentum bot *)

(** [data.slice(start, stop)] for [0 <= start <= stop]. *)
Definition slice (data : list Q) (start stop : nat) : list Q :=
  firstn (stop - start) (skipn start data).

(** [data.slice(start)], with a negative [start] counting from the end. *)
Definition slice_from (start : Z) (data : list Q) : list Q :=
  let n := Z.of_nat (length data) in
  let k := if (start <? 0)%Z then Z.max (n + start) 0 else Z.min start n in
  skipn (Z.to_nat k) data.

(** [calculateSMA(data, period)].  For [period = 0] the loop of the source
    starts at index -1 and pushes [NaN]s; the statements take [1 <= period]. *)
Definition calculateSMA (data : list Q) (period : nat) : list Q :=
  if (length data <? period)%nat then []
  else
    map (fun i =>
           let window := slice data (i - (period - 1)) (i + 1) in
           let sum := Num.sum window in
           sum / Num.ofNat period)
        (seq (period - 1) (length data - (period - 1))).

(** The result of [calculateMACD]: [{ macdLine, signalLine, histogram }]. *)
Record Macd : Type := mkMacd {
  macdLine : list Q;
  signalLine : list Q;
  histogram : list Q
}.

(** [calculateMACD(prices, shortPeriod, longPeriod, signalPeriod)]; [None] is
    [null].  [emaLong[i]] and [signalLine[i]] are read inside their arrays:
    the aligned array is never longer than the one it is aligned to. *)
Definition calculateMACD (prices : list Q) (shortPeriod longPeriod signalPeriod : nat)
  : option Macd :=
  if (length prices <? longPeriod)%nat then None
  else
    let emaShort := calculateEMA prices shortPeriod in
    let emaLong := calculateEMA prices longPeriod in
    let alignedEmaShort :=
      slice_from (Z.of_nat (length emaShort) - Z.of_nat (length emaLong)) emaShort in
    let macdLine := imap (fun i short => short - at_ emaLong i) alignedEmaShort in
    if (length macdLine <? signalPeriod)%nat then None
    else
      let signalLine := calculateEMA macdLine signalPeriod in
      let alignedMacdLine :=
        slice_from (Z.of_nat (length macdLine) - Z.of_nat (length signalLine)) macdLine in
      let histogram := imap (fun i macd => macd - at_ signalLine i) alignedMacdLine in
      Some (mkMacd alignedMacdLine signalLine histogram).



(** A row [[timestamp, open, high, low, close]] as a bar [{ high, low, price }]. *)
Definition barOfRow (row : list Q) : Bar :=
  mkBar (nth 2 row 0) (nth 3 row 0) (nth 4 row 0).


End Indicators.

(** ** Asynchronous functions

    An [async] function is a function of the world that either resolves with
    a value or rejects with an error; [await] is [bind], [try]/[catch] is
    [try_catch]. *)

Module Async.

Inductive Error : Type :=
| IoError        (* a rejected [fs.writeFile] *)
| TypeError      (* a property read on [undefined] *)
| TradeRejected  (* a rejected [recall.executeTrade] *)
| RequestFailed. (* a rejected [recall.getPrice] *)

Inductive outcome (A : Type) : Type :=
| Resolved (a : A)
| Rejected (e : Error).
Arguments Resolved {A} a.
Arguments Rejected {A} e.

Definition M (W A : Type) : Type := W -> outcome A * W.

Definition ret {W A} (a : A) : M W A := fun w => (Resolved a, w).

Definition bind {W A B} (m : M W A) (k : A -> M W B) : M W B :=
  fun w =>
    match m w with
    | (Resolved a, w') => k a w'
    | (Rejected e, w') => (Rejected e, w')
    end.

Definition throw {W A} (e : Error) : M W A := fun w => (Rejected e, w).

Definition try_catch {W A} (m : M W A) (handler : Error -> M W A) : M W A :=
  fun w =>
    match m w with
    | (Resolved a, w') => (Resolved a, w')
    | (Rejected e, w') => handler e w'
    end.

Definition gets {W A} (f : W -> A) : M W A := fun w => (Resolved (f w), w).

Definition modify {W} (f : W -> W) : M W unit := fun w => (Resolved tt, f w).

Declare Scope async_scope.
Delimit Scope async_scope with async.
Notation "x <- m ;; k" := (bind m (fun x => k))
  (at level 100, m at next level, right associativity) : async_scope.
Notation "m ;; k" := (bind m (fun _ => k))
  (at level 100, right associativity) : async_scope.

(** [for (const x of xs) { body }] over the elements the array holds when the
    loop starts; a rejected body ends the loop. *)
Fixpoint for_of {W A} (xs : list A) (body : A -> M W unit) : M W unit :=
  match xs with
  | [] => ret tt
  | x :: xs' => bind (body x) (fun _ => for_of xs' body)
  end.

End Async.

(** ** The open-trade store

    The module the momentum bot imports as [./trade_manager]
    (unnamed/part_001); intraday_trade_manager.ts has the same
    [getOpenTrades], [addOpenTrade], [removeOpenTrade] and
    [saveOpenTrades]. *)

Module TradeManager.

Import Async.
Local Open Scope async_scope.

(** [interface OpenTrade].  The last two properties are not part of the
    interface: the momentum bot reads them ([token.token], [token.amount]) on
    the objects of the store, where they are [undefined] unless the JSON file
    carried them. *)
Record OpenTrade : Type := mkOpenTrade {
  id : string;
  fromToken : string;
  fromTokenSymbol : string;
  fromChain : string;
  fromSpecificChain : string;
  fromAmount : Q;
  toToken : string;
  toTokenSymbol : string;
  toChain : string;
  toSpecificChain : string;
  toAmount : string;
  price : Q;
  tradeAmountUsd : Q;
  timestamp : string;
  competitionId : string;
  agentId : string;
  reason : string;
  error : option string;
  token : option string;
  amount : option Q
}.

(** What [fs.writeFile] does on its next call: it succeeds, or it rejects and
    leaves the file as it was or damaged. *)
Inductive WriteFault : Type :=
| WriteOk
| WriteFails (damaged : bool).

(** The state of [OPEN_TRADES_FILE]: the array last written, as an array. *)
Inductive FileState : Type :=
| Absent
| Holds (data : list OpenTrade)
| Damaged.

Inductive Level : Type := Log | Warn | Err.

(** The console messages of the store. *)
Inductive Message : Type :=
| Added (symbol : string) (total : nat)
| Removed (tradeId : string) (remaining : nat)
| NotFound (tradeId : string)
| SaveFailed.

(** What the process does to the outside: file writes, console lines, and
    the closing orders a bot sends through [recall.executeTrade]. *)
Inductive Event : Type :=
| FsWrite (data : list OpenTrade) (result : WriteFault)
| Console (level : Level) (msg : Message)
| ExecuteTrade (fromToken toToken : string) (amount : Q) (reason : string).

Record World : Type := mkWorld {
  openTrades : list OpenTrade;   (* [let openTrades: OpenTrade[]] *)
  file : FileState;
  faults : list WriteFault;      (* outcomes of the coming writes; none left: success *)
  trace : list Event             (* writes, console lines and orders so far *)
}.

Definition set_openTrades (f : list OpenTrade -> list OpenTrade) (w : World) : World :=
  mkWorld (f (openTrades w)) (file w) (faults w) (trace w).

Definition emit (e : Event) (w : World) : World :=
  mkWorld (openTrades w) (file w) (faults w) (trace w ++ [e]).

Definition console (level : Level) (msg : Message) : M World unit :=
  modify (emit (Console level msg)).

(** The outcome of the next [fs.writeFile]. *)
Definition next_fault (w : World) : WriteFault :=
  match faults w with [] => WriteOk | f :: _ => f end.

(** [fs.writeFile(OPEN_TRADES_FILE, JSON.stringify(data, null, 2), 'utf8')] *)
Definition fs_writeFile (data : list OpenTrade) : M World unit :=
  fun w =>
    let fault := next_fault w in
    let tr := trace w ++ [FsWrite data fault] in
    match fault with
    | WriteOk =>
        (Resolved tt, mkWorld (openTrades w) (Holds data) (tl (faults w)) tr)
    | WriteFails damaged =>
        (Rejected IoError,
         mkWorld (openTrades w) (if damaged then Damaged else file w)
                 (tl (faults w)) tr)
    end.

(** [saveOpenTrades]: the write is wrapped in [try]/[catch]; the handler
    logs and returns. *)
Definition saveOpenTrades : M World unit :=
  try_catch
    (data <- gets openTrades ;; fs_writeFile data)
    (fun _ => console Err SaveFailed).

Definition getOpenTrades : M World (list OpenTrade) := gets openTrades.

Definition addOpenTrade (trade : OpenTrade) : M World unit :=
  modify (set_openTrades (fun ts => ts ++ [trade])) ;;
  saveOpenTrades ;;
  total <- gets (fun w => length (openTrades w)) ;;
  console Log (Added (toTokenSymbol trade) total).

Definition removeOpenTrade (tradeId : string) : M World unit :=
  initialLength <- gets (fun w => length (openTrades w)) ;;
  modify (set_openTrades (filter (fun trade => id trade <> tradeId))) ;;
  len <- gets (fun w => length (openTrades w)) ;;
  if (len <? initialLength)%nat
  then saveOpenTrades ;; console Log (Removed tradeId len)
  else console Warn (NotFound tradeId).

Definition is_write (e : Event) : bool :=
  match e with FsWrite _ _ => true | _ => false end.

(** The number of [fs.writeFile] calls recorded in a trace. *)
Definition writes (tr : list Event) : nat :=
  length (List.filter is_write tr).

(** Two trades as [executeTrades] of the momentum bot records them, and a
    store whose next write is rejected. *)
Definition doge : OpenTrade :=
  mkOpenTrade "t1" "0xA0b8" "USDC" "evm" "eth" 15 "0x1121" "DOGE" "evm" "eth"
              "100" (15 # 100) 15 "2025-07-01T00:00:00.000Z" "N/A" "N/A"
              "AI-driven momentum trade" None None None.

Definition pepe : OpenTrade :=
  mkOpenTrade "t2" "0xA0b8" "USDC" "evm" "eth" 15 "0x6982" "PEPE" "evm" "eth"
              "1000" (15 # 1000) 15 "2025-07-01T00:05:00.000Z" "N/A" "N/A"
              "AI-driven momentum trade" None None None.

Definition disk_full : World := mkWorld [pepe] (Holds [pepe]) [WriteFails false] [].

(** [loadOpenTrades]: [fs.readFile] rejects with [ENOENT] when the file is
    absent, and [JSON.parse] throws on a damaged file; the first case creates
    the file.  The three console lines of this function are not recorded in
    the trace. *)
Definition loadOpenTrades : M World unit :=
  f <- gets file ;;
  match f with
  | Holds data => modify (set_openTrades (fun _ => data))
  | Absent => modify (set_openTrades (fun _ => [])) ;; saveOpenTrades
  | Damaged => modify (set_openTrades (fun _ => []))
  end.

(** What a restart finds in the file. *)
Definition onDisk (f : FileState) : list OpenTrade :=
  match f with Holds data => data | Absent | Damaged => [] end.

(** A store holding a trade with id [t1], whose file is in step. *)
Definition doge_pepe : World := mkWorld [doge; pepe] (Holds [doge; pepe]) [] [].

End TradeManager.

(** ** The open-trade store of the meme-coin bot (memecoin_trade_manager.ts) *)

Module MemecoinManager.

Import Async.
Local Open Scope async_scope.

(** [interface Trade] *)
Record Trade : Type := mkTrade {
  id : string;
  toTokenSymbol : string;
  toTokenAddress : string;
  amount : string;
  price : Q;
  timestamp : string;
  chain : string;
  specificChain : string
}.

Record World : Type := mkWorld {
  openTrades : list Trade;
  file : option (list Trade);
  writeFails : list bool      (* whether the coming writes reject *)
}.

(** [fs.writeFile(TRADES_FILE, JSON.stringify(data, null, 2))] *)
Definition fs_writeFile (data : list Trade) : M World unit :=
  fun w =>
    match writeFails w with
    | true :: rest => (Rejected IoError, mkWorld (openTrades w) (file w) rest)
    | false :: rest => (Resolved tt, mkWorld (openTrades w) (Some data) rest)
    | [] => (Resolved tt, mkWorld (openTrades w) (Some data) [])
    end.

(** [saveOpenTrades]: no handler around the write. *)
Definition saveOpenTrades : M World unit :=
  data <- gets openTrades ;; fs_writeFile data.

Definition addOpenTrade (trade : Trade) : M World unit :=
  modify (fun w => mkWorld (openTrades w ++ [trade]) (file w) (writeFails w)) ;;
  saveOpenTrades.

Definition removeOpenTrade (tradeId : string) : M World unit :=
  modify (fun w => mkWorld (filter (fun t => id t <> tradeId) (openTrades w))
                           (file w) (writeFails w)) ;;
  saveOpenTrades.

(** [s.toLowerCase()] on ASCII text, which is what addresses are. *)
Definition lower_ascii (c : ascii) : ascii :=
  let n := nat_of_ascii c in
  if (65 <=? n)%nat && (n <=? 90)%nat then ascii_of_nat (n + 32) else c.

Fixpoint toLowerCase (s : string) : string :=
  match s with
  | EmptyString => EmptyString
  | String c rest => String (lower_ascii c) (toLowerCase rest)
  end.

(** [getOpenTrades]: a copy of the array. *)
Definition getOpenTrades : M World (list Trade) := gets openTrades.

(** [hasOpenTrade(tokenAddress)] *)
Definition hasOpenTrade (tokenAddress : string) (w : World) : bool :=
  existsb (fun trade => String.eqb (toLowerCase (toTokenAddress trade))
                                   (toLowerCase tokenAddress))
          (openTrades w).

End MemecoinManager.

(** ** The momentum bot (unnamed/part_002): position sizing and exit rules *)

Module MomentumBot.

Import Async JsNumber TradeManager.
Local Open Scope async_scope.

(** [let strategyParameters], which [adaptStrategy] rewrites. *)
Record StrategyParameters : Type := mkStrategyParameters {
  maxPositionSize : Q;
  stopLoss : Q;
  takeProfit : Q;
  maxConcurrentPositions : nat;
  dailyLossLimit : Q
}.

Definition initialParameters : StrategyParameters :=
  mkStrategyParameters (3 # 100) (5 # 1000) (1 # 100) 10 (- (5 # 100)).

Definition USDC_ADDRESS : string := "0xA0b86991c6218b36c1d19D4a2e9Eb0cE3606eB48".
Definition USDC_SVM_ADDRESS : string := "EPjFWdd5AufqSSqeM2qN1xzybapC8G4wEGGkZwyTDt1v".

(** [TRADABLE_TOKEN_ADDRESSES] once [initializeTradableTokens] has run. *)
Definition TRADABLE_TOKEN_ADDRESSES : gset string :=
  {[ "0x7Fc66500c84A76Ad7e9c93437bFc5Ac33E2DDaE9";
     "0x1121AcC14c63f3C872BFcA497d10926A6098AAc5";
     "0x2260fac5e5542a773aa44fbcfedf7c193bc2c599";
     "0xC02aaA39b223FE8D0A0e5C4F27eAD9083C756Cc2";
     "0x514910771af9ca656af840dff83e8264ecf986ca";
     "0x07E0EDf8ce600FB51d44F51E3348D77D67F298ae";
     "0x1151CB3d861920e07a38e03eEAd12C32178567F6";
     "0x6982508145454ce325ddbe47a25d4ec3d2311933";
     "So11111111111111111111111111111111111111112" ]}.

(** *** Sizing *)

(** [calculatePositionSize(availableCapital, volatility)] *)
Definition calculatePositionSize (sp : StrategyParameters)
  (availableCapital volatility : Q) : Q :=
  let basePosition := (availableCapital * maxPositionSize sp)%Q in
  let adjustedSize := (basePosition * (1 - volatility))%Q in
  Qmax 10 adjustedSize.

(** A value of [tradeableEvmUsdcBalances]: [{ amount, address }]. *)
Record BalanceInfo : Type := mkBalanceInfo { bal_amount : Q; bal_address : string }.

(** [tradeableEvmUsdcBalances: Map<string, { amount, address }>], in insertion
    order. *)
Definition Balances : Type := list (string * BalanceInfo).

(** [balances.get(chain)] *)
Fixpoint get (balances : Balances) (chain : string) : option BalanceInfo :=
  match balances with
  | [] => None
  | (k, v) :: rest => if String.eqb k chain then Some v else get rest chain
  end.

(** An entry of [portfolio.tokens]. *)
Record PortfolioToken : Type := mkPortfolioToken {
  pt_token : string; pt_chain : string; pt_amount : Q
}.

(** [portfolio.tokens.find(t => t.token === USDC_SVM_ADDRESS && t.chain === 'svm')?.amount || 0] *)
Definition svmUsdc (tokens : list PortfolioToken) : Q :=
  match List.find (fun t => String.eqb (pt_token t) USDC_SVM_ADDRESS
                            && String.eqb (pt_chain t) "svm") tokens with
  | Some t => pt_amount t
  | None => 0%Q
  end.

(** [opportunity.chain] *)
Inductive Chain : Type := evm | svm.

Definition chain_name (c : Chain) : string :=
  match c with evm => "evm" | svm => "svm" end.

(** The order handed to [recall.executeTrade] for an entry. *)
Record Order : Type := mkOrder {
  ord_fromToken : string;
  ord_chain : string;
  ord_specificChain : string;
  ord_availableCapital : Q;   (* the capital the size was computed from *)
  ord_amount : Q              (* [positionSize] *)
}.

(** The first chain of the preference list holding a positive balance. *)
Fixpoint firstFunded (balances : Balances) (preferred : list string)
  : option (string * BalanceInfo) :=
  match preferred with
  | [] => None
  | chain :: rest =>
      match get balances chain with
      | Some info =>
          if Num.ltb 0 (bal_amount info) then Some (chain, info)
          else firstFunded balances rest
      | None => firstFunded balances rest
      end
  end.

(** One iteration of the loop of [executeTrades], from the choice of the
    funding chain to [positionSize]: the order that goes to
    [recall.executeTrade], or [None] when the iteration ends in [continue]. *)
Definition entryOrder (sp : StrategyParameters) (chain : Chain)
  (specificChain : string) (tokens : list PortfolioToken)
  (tradeableEvmUsdcBalances : Balances) : option Order :=
  let funding :=
    match chain with
    | svm => Some (USDC_SVM_ADDRESS, "svm", "svm", svmUsdc tokens)
    | evm =>
        let totalEvmUsdcBalance :=
          fold_left (fun sum balanceInfo => (sum + bal_amount balanceInfo)%Q)
                    (map snd tradeableEvmUsdcBalances) 0%Q in
        let preferredEvmChains :=
          [specificChain; "base"; "polygon"; "arbitrum"; "optimism"] in
        match firstFunded tradeableEvmUsdcBalances preferredEvmChains with
        | Some (c, info) => Some (bal_address info, "evm", c, totalEvmUsdcBalance)
        | None => None
        end
    end in
  match funding with
  | None => None
  | Some (fromTokenAddress, fromChain, fromSpecificChain, availableCapital) =>
      if Qeq_bool availableCapital 0 then None
      else
        let positionSize := calculatePositionSize sp availableCapital (1 # 2) in
        Some (mkOrder fromTokenAddress fromChain fromSpecificChain
                      availableCapital positionSize)
  end.

(** *** Exit rules *)

(** The answers of the Recall API during one monitoring pass, by the trade
    they are asked for.  [recall.getPrice] is [recallApiRequest]: the promise
    rejects when the request fails and resolves with the parsed body
    otherwise, [None] standing for [null]; [executeTrade] tells whether the
    closing order is accepted. *)
Record Recall : Type := mkRecall {
  getPrice : OpenTrade -> outcome (option Q);
  executeTrade : OpenTrade -> bool
}.

(** [pnl] *)
Definition pnl (entryPrice currentPriceValue : Q) : number :=
  div (currentPriceValue - entryPrice)%Q entryPrice.

(** The two tests and the [reason] string; [None] when neither holds. *)
Definition exitReason (sp : StrategyParameters) (p : number) : option string :=
  let stopLossHit := le_num p (- stopLoss sp)%Q in
  let takeProfitHit := ge_num p (takeProfit sp) in
  if stopLossHit || takeProfitHit
  then Some (if stopLossHit then "Stop-loss triggered" else "Take-profit triggered")
  else None.

(** [TRADABLE_TOKEN_ADDRESSES.has(token.token)] *)
Definition tradable (tok : OpenTrade) : bool :=
  match token tok with
  | Some a => bool_decide (a ∈ TRADABLE_TOKEN_ADDRESSES)
  | None => false
  end.

(** [recall.executeTrade({...})] for a closing order. *)
Definition recall_executeTrade (api : Recall) (tok : OpenTrade)
  (fromToken : string) (amt : Q) (reason : string) : M World unit :=
  modify (emit (ExecuteTrade fromToken USDC_ADDRESS amt reason)) ;;
  if executeTrade api tok then ret tt else throw TradeRejected.

(** The body of the loop of [monitorOpenPositions]. *)
Definition monitorBody (sp : StrategyParameters) (api : Recall)
  (tok : OpenTrade) : M World unit :=
  if negb (tradable tok) then ret tt
  else
    let entryPrice := price tok in
    match getPrice api tok with
    | Rejected e => throw e          (* the loop has no [try] *)
    | Resolved None => ret tt
    | Resolved (Some currentPriceValue) =>
        match exitReason sp (pnl entryPrice currentPriceValue) with
        | None => ret tt
        | Some reason =>
            match token tok, amount tok with
            | Some address, Some amt =>
                recall_executeTrade api tok address amt reason ;;
                removeOpenTrade (id tok)
            | _, _ => throw TypeError     (* [token.amount.toString()] *)
            end
        end
    end.

(** [monitorOpenPositions(portfolio)] *)
Definition monitorOpenPositions (sp : StrategyParameters) (api : Recall)
  : M World unit :=
  ts <- getOpenTrades ;;
  for_of ts (monitorBody sp api).

Definition scenarioParameters : StrategyParameters :=
  mkStrategyParameters (3 # 100) (5 # 100) (15 # 100) 10 (- (5 # 100)).

Definition priceIs (p : Q) : Recall :=
  mkRecall (fun _ => Resolved (Some p)) (fun _ => true).

(** *** Performance tracking *)

(** [parseFloat(t.pnl) > 0] *)
Definition gt_num (x : number) (q : Q) : bool :=
  match x with
  | Finite p => Num.ltb q p
  | PlusInfinity => true
  | MinusInfinity | NaN => false
  end.

(** [calculateWinRate(trades)], on the values [parseFloat(t.pnl)] of the
    trades. *)
Definition calculateWinRate (pnls : list number) : Q :=
  if (length pnls =? 0)%nat then 0%Q
  else
    let profitableTrades := length (List.filter (fun p => gt_num p 0) pnls) in
    ((Num.ofNat profitableTrades / Num.ofNat (length pnls)) * 100)%Q.

(** [adaptStrategy(pnl, winRate)]: the new value of [strategyParameters]. *)
Definition adaptStrategy (sp : StrategyParameters) (pnl winRate : Q)
  : StrategyParameters :=
  if Num.ltb pnl (- (1 # 10)) && Num.ltb winRate (1 # 2) then
    mkStrategyParameters (5 # 100) (3 # 100) (takeProfit sp)
                         (maxConcurrentPositions sp) (dailyLossLimit sp)
  else if Num.ltb (1 # 10) pnl && Num.ltb (6 # 10) winRate then
    mkStrategyParameters (12 # 100) (stopLoss sp) (20 # 100)
                         (maxConcurrentPositions sp) (dailyLossLimit sp)
  else sp.

(** [trackPerformance()] once the portfolio and the trades are there:
    [totalValue] is [portfolio.totalValue]. *)
Definition trackPerformance (sp : StrategyParameters) (totalValue : Q)
  (pnls : list number) : StrategyParameters :=
  let pnl := (totalValue / 10000 - 1)%Q in
  let winRate := calculateWinRate pnls in
  adaptStrategy sp pnl winRate.


(** *** Entries *)

(** The properties of an [AnalyzedToken] that [executeTrades] reads. *)
Record AnalyzedToken : Type := mkAnalyzedToken {
  symbol : string;
  address : string;
  chain : Chain;
  specificChain : string;
  current_price : Q;
  aiConfidence : option Q
}.

(** What the outside gives to the iteration on [opportunities[i]]: whether
    [recall.executeTrade] accepts the order, the id drawn from the clock and
    [Math.random], the time stamp, and the strings that number formatting
    produces. *)
Record Exchange : Type := mkExchange {
  accepts : nat -> Order -> bool;
  newId : nat -> string;
  isoTime : nat -> string;
  numberToString : number -> string;
  reasonText : Q -> string
}.

(** The record [executeTrades] hands to [addOpenTrade]. *)
Definition entryRecord (ex : Exchange) (i : nat) (opportunity : AnalyzedToken)
  (order : Order) (reason : string) : OpenTrade :=
  let positionSize := ord_amount order in
  mkOpenTrade (newId ex i) (ord_fromToken order) "USDC" (ord_chain order)
              (ord_specificChain order) positionSize
              (address opportunity) (symbol opportunity)
              (chain_name (chain opportunity)) (specificChain opportunity)
              (numberToString ex (div positionSize (current_price opportunity)))
              (current_price opportunity) positionSize (isoTime ex i)
              "N/A" "N/A" reason None None None.

(** The loop of [executeTrades], from [opportunities[i]] on. *)
Fixpoint executeTrades_loop (sp : StrategyParameters) (ex : Exchange)
  (tokens : list PortfolioToken) (balances : Balances) (i : nat)
  (opportunities : list AnalyzedToken) : M World unit :=
  match opportunities with
  | [] => ret tt
  | opportunity :: rest =>
      ts <- getOpenTrades ;;
      if (maxConcurrentPositions sp <=? length ts)%nat then ret tt   (* break *)
      else
        ts <- getOpenTrades ;;
        if existsb (fun trade => String.eqb (toTokenSymbol trade) (symbol opportunity)) ts
        then executeTrades_loop sp ex tokens balances (S i) rest
        else
          let confidence :=
            match aiConfidence opportunity with Some c => c | None => 0%Q end in
          match entryOrder sp (chain opportunity) (specificChain opportunity)
                           tokens balances with
          | None => executeTrades_loop sp ex tokens balances (S i) rest
          | Some order =>
              let reason := reasonText ex confidence in
              try_catch
                (modify (emit (ExecuteTrade (ord_fromToken order) (address opportunity)
                                            (ord_amount order) reason)) ;;
                 (if accepts ex i order then ret tt else throw TradeRejected) ;;
                 addOpenTrade (entryRecord ex i opportunity order reason))
                (fun _ => ret tt) ;;
              executeTrades_loop sp ex tokens balances (S i) rest
          end
  end.

(** [executeTrades(opportunities, portfolio, tradeableEvmUsdcBalances)] *)
Definition executeTrades (sp : StrategyParameters) (ex : Exchange)
  (tokens : list PortfolioToken) (balances : Balances)
  (opportunities : list AnalyzedToken) : M World unit :=
  if (length balances =? 0)%nat && Qeq_bool (svmUsdc tokens) 0 then ret tt
  else executeTrades_loop sp ex tokens balances 0 opportunities.

(** What a trade recorded by [executeTrades] looks like: bought with USDC for
    at least 10, against one of the opportunities. *)
Definition entryOf (opportunities : list AnalyzedToken) (t : OpenTrade) : Prop :=
  (10 <= fromAmount t)%Q /\ tradeAmountUsd t = fromAmount t /\
  fromTokenSymbol t = "USDC" /\ token t = None /\ amount t = None /\
  exists opportunity, In opportunity opportunities /\
    toTokenSymbol t = symbol opportunity /\ toToken t = address opportunity /\
    price t = current_price opportunity.

(** An exchange that accepts every order, and two opportunities in the same
    token. *)
Definition acceptsAll : Exchange :=
  mkExchange (fun _ _ => true) (fun i => String.append "id" (String (ascii_of_nat (48 + i)) ""))
             (fun _ => "2025-07-01T00:00:00.000Z") (fun _ => "n") (fun _ => "AI-driven momentum trade").

Definition dogeOpportunity : AnalyzedToken :=
  mkAnalyzedToken "DOGE" "0x1121AcC14c63f3C872BFcA497d10926A6098AAc5" evm "eth"
                  (15 # 100) (Some (8 # 10)%Q).

(** An opportunity priced at 100. *)
Definition opportunityAt100 : AnalyzedToken :=
  mkAnalyzedToken "DOGE" "0x1121AcC14c63f3C872BFcA497d10926A6098AAc5" evm "eth"
                  100 (Some (8 # 10)%Q).

Definition ethBalances : Balances := [("eth", mkBalanceInfo 1000 USDC_ADDRESS)].

End MomentumBot.

(** ** The confidence oracle: reading the score out of the answer

    [getTradeConfidence] of trend_pullback_bot.ts, from the first
    [aiResponse.match] to the [return].  Text is a list of characters; the
    two regular expressions have the shape [open([0-9.]+)close] with [close]
    starting outside [[0-9.]], so the greedy capture is the longest run of
    digits and dots and never has to give characters back. *)

Module Confidence.

Import JsNumber.

Definition text : Type := list ascii.

Definition is_digit (c : ascii) : bool :=
  (48 <=? nat_of_ascii c)%nat && (nat_of_ascii c <=? 57)%nat.

(** The character class [[0-9.]]. *)
Definition in_class (c : ascii) : bool := is_digit c || Ascii.eqb c ".".

(** [s] without its prefix [p], when it starts with [p]. *)
Fixpoint strip_prefix (p s : text) : option text :=
  match p, s with
  | [], _ => Some s
  | _ :: _, [] => None
  | a :: p', b :: s' => if Ascii.eqb a b then strip_prefix p' s' else None
  end.

(** The longest prefix of characters satisfying [f], and what follows it. *)
Fixpoint span (f : ascii -> bool) (s : text) : text * text :=
  match s with
  | [] => ([], [])
  | c :: s' =>
      if f c then let '(a, b) := span f s' in (c :: a, b) else ([], s)
  end.

(** [open([0-9.]+)close] matched at the start of [s]: the capture and the
    text after the match. *)
Definition match_here (open close s : text) : option (text * text) :=
  match strip_prefix open s with
  | None => None
  | Some s1 =>
      let '(capture, s2) := span in_class s1 in
      match capture with
      | [] => None
      | _ :: _ =>
          match strip_prefix close s2 with
          | Some rest => Some (capture, rest)
          | None => None
          end
      end
  end.

(** [s.match(/open([0-9.]+)close/)]: the leftmost match, as the text before
    it, the capture and the text after it. *)
Fixpoint search (open close s : text) : option (text * text * text) :=
  match match_here open close s with
  | Some (capture, rest) => Some ([], capture, rest)
  | None =>
      match s with
      | [] => None
      | c :: s' =>
          match search open close s' with
          | Some (before, capture, rest) => Some (c :: before, capture, rest)
          | None => None
          end
      end
  end.

Definition chars (s : string) : text := list_ascii_of_string s.

(** [/<score>([0-9.]+)<\/score>/] *)
Definition scoreTag (s : text) : option (text * text * text) :=
  search (chars "<score>") (chars "</score>") s.

(** [/confidence score of \*\*([0-9.]+)\*\*/] *)
Definition scoreSentence (s : text) : option (text * text * text) :=
  search (chars "confidence score of **") (chars "**") s.

Definition digit_value (c : ascii) : Z := Z.of_nat (nat_of_ascii c) - 48.

Definition digits_value (ds : text) : Z :=
  fold_left (fun acc c => 10 * acc + digit_value c)%Z ds 0%Z.

(** [parseFloat] on a string of digits and dots (sign, exponent and leading
    blanks cannot occur in a capture): the digits before the first dot and
    the digits after it up to the next dot; [NaN] when there is no digit. *)
Definition parseFloat (s : text) : number :=
  let '(intPart, rest) := span is_digit s in
  let fracPart :=
    match rest with
    | c :: rest' => if Ascii.eqb c "." then fst (span is_digit rest') else []
    | [] => []
    end in
  match intPart ++ fracPart with
  | [] => NaN
  | ds => Finite (digits_value ds # Z.to_pos (10 ^ Z.of_nat (length fracPart)))
  end.

(** White space of [trim] among the ASCII characters: tab, line feed,
    vertical tab, form feed, carriage return and space. *)
Definition is_space (c : ascii) : bool :=
  let n := nat_of_ascii c in
  ((9 <=? n)%nat && (n <=? 13)%nat) || (n =? 32)%nat.

Fixpoint trimStart (s : text) : text :=
  match s with
  | [] => []
  | c :: s' => if is_space c then trimStart s' else s
  end.

(** [s.trim()] *)
Definition trim (s : text) : text := rev (trimStart (rev (trimStart s))).

(** The capture of a match when [scoreMatch && scoreMatch[1]] holds. *)
Definition captured (m : option (text * text * text)) : option text :=
  match m with
  | Some (_, (_ :: _) as capture, _) => Some capture
  | _ => None
  end.

(** [aiResponse.replace(/<score>([0-9.]+)<\/score>/, '')] *)
Definition stripScoreTag (s : text) : text :=
  match scoreTag s with
  | Some (before, _, rest) => before ++ rest
  | None => s
  end.

(** The pair [{ confidence, reason }] computed from [aiResponse]. *)
Definition parseConfidence (aiResponse : string) : number * string :=
  let s := chars aiResponse in
  let confidence :=
    match captured (scoreTag s) with
    | Some capture => parseFloat capture
    | None =>
        match captured (scoreSentence s) with
        | Some capture => parseFloat capture
        | None => Finite 0
        end
    end in
  let reason := trim (stripScoreTag s) in
  (confidence, string_of_list_ascii reason).

(** [s] contains [open X close] with [X] a non-empty run of digits and dots. *)
Definition contains (open close s : text) : Prop :=
  exists before capture rest,
    capture <> [] /\ forallb in_class capture = true /\
    s = before ++ open ++ capture ++ close ++ rest.

(** The answer has a [<score>X</score>] tag. *)
Definition hasScoreTag (aiResponse : string) : Prop :=
  contains (chars "<score>") (chars "</score>") (chars aiResponse).

(** The answer has a sentence "confidence score of **X**". *)
Definition hasScoreSentence (aiResponse : string) : Prop :=
  contains (chars "confidence score of **") (chars "**") (chars aiResponse).

(** [/<score>([0-9.]+)<!--\/score-->/], the expression of
    [getRebalanceConfidence] and of [getTradeConfidence] in the intraday and
    combined bots. *)
Definition scoreComment (s : text) : option (text * text * text) :=
  search (chars "<score>") (chars "<!--/score-->") s.

(** What [getRebalanceConfidence] returns for the answer [result.response]. *)
Definition rebalanceConfidence (response : string) : number :=
  match captured (scoreComment (chars response)) with
  | Some capture => parseFloat capture
  | None => Finite 0
  end.

(** The text [sub] occurs in [s]. *)
Definition occurs (sub s : text) : Prop :=
  exists before rest, s = before ++ sub ++ rest.

End Confidence.

(** ** The intraday bot: the store with [updateOpenTrade] and the trailing stop

    intraday_trade_manager.ts and [monitorOpenPositions] of the intraday bot.
    The monitor writes [trade.highWaterMark] on the very objects the store
    holds, and [updateOpenTrade] puts a copy in their place: trade objects
    live in a heap and the array [openTrades] holds references to them.
    [getOpenTrades] returns the array itself; the loop reads it by index,
    and the only writes to it while the loop runs replace an element at or
    before the current index, so the loop runs over the references the array
    holds when it starts. *)

Module Intraday.

Import Async.
Local Open Scope async_scope.

(** [interface OpenTrade] *)
Record OpenTrade : Type := mkOpenTrade {
  id : string;
  fromToken : string;
  fromTokenSymbol : string;
  fromChain : string;
  fromSpecificChain : string;
  fromAmount : Q;
  toToken : string;
  toTokenSymbol : string;
  toChain : string;
  toSpecificChain : string;
  toAmount : string;
  price : Q;
  tradeAmountUsd : Q;
  timestamp : string;
  competitionId : string;
  agentId : string;
  reason : string;
  error : option string;
  highWaterMark : option Q
}.

(** [Partial<OpenTrade>] *)
Record Partial : Type := mkPartial {
  p_id : option string;
  p_fromToken : option string;
  p_fromTokenSymbol : option string;
  p_fromChain : option string;
  p_fromSpecificChain : option string;
  p_fromAmount : option Q;
  p_toToken : option string;
  p_toTokenSymbol : option string;
  p_toChain : option string;
  p_toSpecificChain : option string;
  p_toAmount : option string;
  p_price : option Q;
  p_tradeAmountUsd : option Q;
  p_timestamp : option string;
  p_competitionId : option string;
  p_agentId : option string;
  p_reason : option string;
  p_error : option string;
  p_highWaterMark : option Q
}.

(** [{ highWaterMark: v }] *)
Definition justHighWaterMark (v : Q) : Partial :=
  mkPartial None None None None None None None None None None None None None
            None None None None None (Some v).

Definition over {A} (update : option A) (old : A) : A :=
  match update with Some v => v | None => old end.

Definition over_opt {A} (update : option A) (old : option A) : option A :=
  match update with Some v => Some v | None => old end.

(** [{ ...trade, ...updates }] *)
Definition spread (trade : OpenTrade) (updates : Partial) : OpenTrade :=
  mkOpenTrade
    (over (p_id updates) (id trade))
    (over (p_fromToken updates) (fromToken trade))
    (over (p_fromTokenSymbol updates) (fromTokenSymbol trade))
    (over (p_fromChain updates) (fromChain trade))
    (over (p_fromSpecificChain updates) (fromSpecificChain trade))
    (over (p_fromAmount updates) (fromAmount trade))
    (over (p_toToken updates) (toToken trade))
    (over (p_toTokenSymbol updates) (toTokenSymbol trade))
    (over (p_toChain updates) (toChain trade))
    (over (p_toSpecificChain updates) (toSpecificChain trade))
    (over (p_toAmount updates) (toAmount trade))
    (over (p_price updates) (price trade))
    (over (p_tradeAmountUsd updates) (tradeAmountUsd trade))
    (over (p_timestamp updates) (timestamp trade))
    (over (p_competitionId updates) (competitionId trade))
    (over (p_agentId updates) (agentId trade))
    (over (p_reason updates) (reason trade))
    (over_opt (p_error updates) (error trade))
    (over_opt (p_highWaterMark updates) (highWaterMark trade)).

(** [trade.highWaterMark = v] *)
Definition withHighWaterMark (v : Q) (trade : OpenTrade) : OpenTrade :=
  mkOpenTrade (id trade) (fromToken trade) (fromTokenSymbol trade)
    (fromChain trade) (fromSpecificChain trade) (fromAmount trade)
    (toToken trade) (toTokenSymbol trade) (toChain trade)
    (toSpecificChain trade) (toAmount trade) (price trade)
    (tradeAmountUsd trade) (timestamp trade) (competitionId trade)
    (agentId trade) (reason trade) (error trade) (Some v).

(** A reference to a trade object. *)
Definition ref : Type := nat.

Record World : Type := mkWorld {
  heap : gmap ref OpenTrade;          (* the trade objects *)
  openTrades : list ref;              (* [let openTrades: OpenTrade[]] *)
  file : option (list OpenTrade);     (* intraday_open_trades.json *)
  writeFails : list bool;             (* whether the coming writes reject *)
  seen : list (string * Q)            (* ghost: the prices the monitor obtained,
                                         with the id of the trade it was on *)
}.

Definition set_heap (f : gmap ref OpenTrade -> gmap ref OpenTrade) (w : World) : World :=
  mkWorld (f (heap w)) (openTrades w) (file w) (writeFails w) (seen w).

Definition set_openTrades (f : list ref -> list ref) (w : World) : World :=
  mkWorld (heap w) (f (openTrades w)) (file w) (writeFails w) (seen w).

Definition observe (tradeId : string) (p : Q) (w : World) : World :=
  mkWorld (heap w) (openTrades w) (file w) (writeFails w) (seen w ++ [(tradeId, p)]).

(** The objects an array of references stands for. *)
Definition objects (h : gmap ref OpenTrade) (rs : list ref) : list OpenTrade :=
  omap (fun r => h !! r) rs.

(** [saveOpenTrades]: the write, inside [try]/[catch]. *)
Definition saveOpenTrades : M World unit :=
  modify (fun w =>
    match writeFails w with
    | true :: rest => mkWorld (heap w) (openTrades w) (file w) rest (seen w)
    | _ => mkWorld (heap w) (openTrades w)
                   (Some (objects (heap w) (openTrades w)))
                   (tl (writeFails w)) (seen w)
    end).

(** Reading a property of the object behind a reference. *)
Definition read (r : ref) : M World OpenTrade :=
  fun w =>
    match heap w !! r with
    | Some trade => (Resolved trade, w)
    | None => (Rejected TypeError, w)
    end.

Definition getOpenTrades : M World (list ref) := gets openTrades.

(** [addOpenTrade(trade)] with [trade] an object literal of the caller. *)
Definition addOpenTrade (trade : OpenTrade) : M World unit :=
  modify (fun w =>
    let r := fresh (dom (heap w)) in
    set_openTrades (fun rs => rs ++ [r]) (set_heap (insert r trade) w)) ;;
  saveOpenTrades.

(** [trade.id === tradeId] for the object behind [r]. *)
Definition hasId (h : gmap ref OpenTrade) (tradeId : string) (r : ref) : Prop :=
  id <$> h !! r = Some tradeId.

#[global] Instance hasId_dec (h : gmap ref OpenTrade) (tradeId : string) (r : ref)
  : Decision (hasId h tradeId r) :=
  decide (id <$> h !! r = Some tradeId).

Definition removeOpenTrade (tradeId : string) : M World unit :=
  initialLength <- gets (fun w => length (openTrades w)) ;;
  modify (fun w => set_openTrades (filter (fun r => ~ hasId (heap w) tradeId r)) w) ;;
  len <- gets (fun w => length (openTrades w)) ;;
  if (len <? initialLength)%nat then saveOpenTrades else ret tt.

Definition updateOpenTrade (tradeId : string) (updates : Partial) : M World unit :=
  found <- gets (fun w => list_find (hasId (heap w) tradeId) (openTrades w)) ;;
  match found with
  | Some (tradeIndex, r) =>
      old <- read r ;;
      modify (fun w =>
        let r' := fresh (dom (heap w)) in
        set_openTrades (insert tradeIndex r')
                       (set_heap (insert r' (spread old updates)) w)) ;;
      saveOpenTrades
  | None => ret tt
  end.

(** [let strategyParameters] of the intraday bot. *)
Record StrategyParameters : Type := mkStrategyParameters {
  maxPositionSize : Q;
  trailingStopLoss : Q;
  maxConcurrentPositions : nat;
  atrPeriod : nat;
  atrVolatilityThreshold : Q
}.

Definition initialParameters : StrategyParameters :=
  mkStrategyParameters (5 # 100) (15 # 1000) 5 14 (1 # 2).

(** The answers of the Recall API during one pass.  [recall.getPrice] is
    [recallApiRequest]: for a token on a chain the promise rejects when the
    request fails and resolves with the parsed body otherwise, [None]
    standing for [null]; [executeTrade] tells whether a closing order is
    accepted. *)
Record Recall : Type := mkRecall {
  getPrice : string -> string -> string -> outcome (option Q);
  executeTrade : string -> string -> string -> bool
}.

(** [!trade.highWaterMark] *)
Definition unset (mark : option Q) : bool :=
  match mark with
  | None => true
  | Some v => Qeq_bool v 0
  end.

(** The body of the loop of [monitorOpenPositions]; [r] is [trade]. *)
Definition monitorBody (sp : StrategyParameters) (api : Recall) (r : ref)
  : M World unit :=
  trade <- read r ;;
  (if unset (highWaterMark trade)
   then modify (set_heap (alter (withHighWaterMark (price trade)) r))
   else ret tt) ;;
  match getPrice api (toToken trade) (toChain trade) (toSpecificChain trade) with
  | Rejected e => throw e          (* the loop has no [try] *)
  | Resolved None => ret tt
  | Resolved (Some currentPrice) =>
      modify (observe (id trade) currentPrice) ;;
      trade1 <- read r ;;
      (match highWaterMark trade1 with
       | Some mark =>
           if Num.ltb mark currentPrice then
             modify (set_heap (alter (withHighWaterMark currentPrice) r)) ;;
             updateOpenTrade (id trade) (justHighWaterMark currentPrice)
           else ret tt
       | None => ret tt
       end) ;;
      trade2 <- read r ;;
      match highWaterMark trade2 with
      | Some mark =>
          let stopPrice := (mark * (1 - trailingStopLoss sp))%Q in
          if Num.leb currentPrice stopPrice then
            (if executeTrade api (toToken trade) (fromToken trade) (toAmount trade)
             then ret tt else throw TradeRejected) ;;
            removeOpenTrade (id trade)
          else ret tt
      | None => ret tt
      end
  end.

(** [monitorOpenPositions()] *)
Definition monitorOpenPositions (sp : StrategyParameters) (api : Recall)
  : M World unit :=
  rs <- getOpenTrades ;;
  for_of rs (monitorBody sp api).

(** *** What the claims speak of *)

(** The trades of the store. *)
Definition stored (w : World) (trade : OpenTrade) : Prop :=
  exists r, r ∈ openTrades w /\ heap w !! r = Some trade.

(** The mark in force: the recorded one, or the entry price while none is
    recorded. *)
Definition markInForce (trade : OpenTrade) : Q :=
  match highWaterMark trade with
  | Some v => if Qeq_bool v 0 then price trade else v
  | None => price trade
  end.

(** The largest of [base] and the prices of [ps]. *)
Definition maxOf (base : Q) (ps : list Q) : Q := fold_left Qmax ps base.

(** The price a pass obtains for a trade: the [price] of the object the
    request resolves with; none when it resolves with [null] or rejects. *)
Definition priceFor (api : Recall) (trade : OpenTrade) : option Q :=
  match getPrice api (toToken trade) (toChain trade) (toSpecificChain trade) with
  | Resolved (Some currentPrice) => Some currentPrice
  | _ => None
  end.

(** What the lines of the loop body that write [trade.highWaterMark] make
    of a trade, [answer] being the price obtained for it: a missing mark is
    set to the entry price, and the mark moves to the price when the price
    is above it. *)
Definition visit (answer : option Q) (trade : OpenTrade) : OpenTrade :=
  let trade1 := if unset (highWaterMark trade)
                then withHighWaterMark (price trade) trade else trade in
  match answer, highWaterMark trade1 with
  | Some currentPrice, Some mark =>
      if Num.ltb mark currentPrice
      then withHighWaterMark currentPrice trade1 else trade1
  | _, _ => trade1
  end.

(** A trade after the passes [apis] went over it, oldest first. *)
Definition monitored (apis : list Recall) (trade : OpenTrade) : OpenTrade :=
  fold_left (fun t api => visit (priceFor api t) t) apis trade.

(** The prices these passes obtained for it. *)
Definition pricesFor (apis : list Recall) (trade : OpenTrade) : list Q :=
  omap (fun api => priceFor api trade) apis.

(** The store is well formed: the array holds distinct references to objects
    of the heap, and no two of them have the same [id]. *)
Definition wellFormed (w : World) : Prop :=
  NoDup (openTrades w) /\
  (forall r, r ∈ openTrades w -> is_Some (heap w !! r)) /\
  (forall r1 r2 t1 t2,
     r1 ∈ openTrades w -> r2 ∈ openTrades w ->
     heap w !! r1 = Some t1 -> heap w !! r2 = Some t2 ->
     id t1 = id t2 -> r1 = r2).

(** What the bot does to the store between two looks at it: a monitoring
    pass with the answers of the exchange at that time, or the recording of
    a new position by [executeTrades]. *)
Inductive Event : Type :=
| Pass (api : Recall)          (* [monitorOpenPositions()] *)
| Entry (trade : OpenTrade).   (* [tradeManager.addOpenTrade(trade)] *)

Definition happen (sp : StrategyParameters) (ev : Event) : M World unit :=
  match ev with
  | Pass api => monitorOpenPositions sp api
  | Entry trade => addOpenTrade trade
  end.

(** [reaches sp w0 log w]: from the store [w0] the events of [log], oldest
    first and each with its outcome, lead to the store [w].  A pass is
    followed whatever its outcome ([runTradingCycle] catches the
    rejection); a new position comes with an id no stored trade has. *)
Inductive reaches (sp : StrategyParameters) (w0 : World)
  : list (Event * outcome unit) -> World -> Prop :=
| reaches_nil : reaches sp w0 [] w0
| reaches_snoc (log : list (Event * outcome unit)) (w : World) (ev : Event) :
    reaches sp w0 log w ->
    (forall trade, ev = Entry trade -> forall t, stored w t -> id t <> id trade) ->
    reaches sp w0 (log ++ [(ev, fst (happen sp ev w))]) (snd (happen sp ev w)).

(** [visits log apis]: [apis] are the passes of [log], oldest first, that
    went over a trade stored all along: every pass that resolved, and each
    rejected pass unless the loop ended before it came to the trade. *)
Inductive visits : list (Event * outcome unit) -> list Recall -> Prop :=
| visits_nil : visits [] []
| visits_entry (trade : OpenTrade) (o : outcome unit)
    (log : list (Event * outcome unit)) (apis : list Recall) :
    visits log apis -> visits ((Entry trade, o) :: log) apis
| visits_pass (api : Recall) (o : outcome unit)
    (log : list (Event * outcome unit)) (apis : list Recall) :
    visits log apis -> visits ((Pass api, o) :: log) (api :: apis)
| visits_cut (api : Recall) (e : Error)
    (log : list (Event * outcome unit)) (apis : list Recall) :
    visits log apis -> visits ((Pass api, Rejected e) :: log) apis.

(** *** Vocabulary of the proofs *)

(** Two worlds with the same store. *)
Definition sameStore (w w' : World) : Prop :=
  heap w' = heap w /\ openTrades w' = openTrades w /\ seen w' = seen w.

(** What one iteration on [r] does to the store, seen from the world [w] it
    started in, [t'] being what the iteration makes of the trade behind
    [r]: the store is well formed, the other references of the array are
    still there with their objects untouched, and a reference of the array
    is one of these or one to [t']. *)
Definition bodyPost (w : World) (r : ref) (t' : OpenTrade) (w' : World) : Prop :=
  wellFormed w' /\
  (forall r2, r2 <> r -> r2 ∈ openTrades w ->
     r2 ∈ openTrades w' /\ heap w' !! r2 = heap w !! r2) /\
  (forall y, y ∈ openTrades w' ->
     (y <> r /\ y ∈ openTrades w) \/ heap w' !! y = Some t').

(** The invariant of the loop of a pass with answers [api], started in
    [w0], in front of the references [rest]: these are still in the array
    with their objects untouched, and a reference of the array is one of
    them or one to a trade the loop went over. *)
Definition passInv (api : Recall) (w0 : World) (rest : list ref) (w : World) : Prop :=
  wellFormed w /\
  (forall r, r ∈ rest -> r ∈ openTrades w /\ heap w !! r = heap w0 !! r) /\
  (forall y, y ∈ openTrades w ->
     y ∈ rest \/
     exists t, stored w0 t /\ heap w !! y = Some (visit (priceFor api t) t)).

(** A position opened at 100 and a store holding it, without a mark. *)
Definition link : OpenTrade :=
  mkOpenTrade "t7" "0xA0b8" "USDC" "evm" "base" 1000 "0x5149" "LINK" "evm" "eth"
              "10" 100 1000 "2025-07-01T00:00:00.000Z" "N/A" "N/A"
              "Intraday Trend/Volatility" None None.

Definition loaded : World := mkWorld {[ 0%nat := link ]} [0%nat] (Some [link]) [] [].

Definition quote (p : Q) : Recall :=
  mkRecall (fun _ _ _ => Resolved (Some p)) (fun _ _ _ => true).

(** The exchange is out of reach: price requests reject. *)
Definition unreachable : Recall :=
  mkRecall (fun _ _ _ => Rejected RequestFailed) (fun _ _ _ => true).

End Intraday.

(** ** The meme-coin bot and its price provider (the second and third parts
    of memecoin_bot/memecoin_trade_manager.ts) *)

Module MemecoinBot.

Import Async JsNumber MemecoinManager.
Local Open Scope async_scope.

(** [interface DexScreenerPair] *)
Record DexScreenerPair : Type := mkPair {
  pair_symbol : string;
  tokenAddress : string;
  priceUsd : Q;
  liquidity : Q;
  pair_chain : string;
  pair_specificChain : string
}.

(** What [recall.executeTrade] resolves to for a purchase: the transaction's
    [id] and [toAmount]. *)
Record Transaction : Type := mkTransaction { tx_id : string; tx_toAmount : string }.

(** The answers of the Recall API: the purchase of a pair ([None] when the
    call rejects), the price of a held token ([None] when there is no result
    or no price in it), and whether a sale is accepted; and the time stamp
    given to a purchase. *)
Record Recall : Type := mkRecall {
  buy : DexScreenerPair -> option Transaction;
  getPrice : Trade -> option Q;
  sell : Trade -> bool;
  isoTime : DexScreenerPair -> string
}.

Definition MAX_PRICE : Q := (1 # 1000)%Q.

(** The body of the loop of [runMemeCoinCycle]; [tradingEnabled] is
    [process.env.TRADING_ENABLED === 'true'].  [logTrade] catches its own
    errors and does not touch the store. *)
Definition buyBody (tradingEnabled : bool) (api : Recall) (pair : DexScreenerPair)
  : M World unit :=
  held <- gets (hasOpenTrade (tokenAddress pair)) ;;
  if held : bool then ret tt
  else if Num.geb (priceUsd pair) MAX_PRICE then ret tt
  else if tradingEnabled then
    try_catch
      (match buy api pair with
       | None => throw TradeRejected
       | Some tx =>
           let tradeData :=
             mkTrade (tx_id tx) (pair_symbol pair) (tokenAddress pair)
                     (tx_toAmount tx) (priceUsd pair) (isoTime api pair)
                     (pair_chain pair) (pair_specificChain pair) in
           addOpenTrade tradeData
       end)
      (fun _ => ret tt)
  else ret tt.

(** [(x) * 100] *)
Definition times100 (x : number) : number :=
  match x with
  | Finite q => Finite (q * 100)%Q
  | PlusInfinity => PlusInfinity
  | MinusInfinity => MinusInfinity
  | NaN => NaN
  end.

Definition TAKE_PROFIT_PERCENT : Q := 900.
Definition STOP_LOSS_PERCENT : Q := (- 50)%Q.

(** [pnlPercent >= TAKE_PROFIT_PERCENT || pnlPercent <= STOP_LOSS_PERCENT] *)
Definition exitHit (entryPrice currentPrice : Q) : bool :=
  let pnlPercent := times100 (div (currentPrice - entryPrice)%Q entryPrice) in
  ge_num pnlPercent TAKE_PROFIT_PERCENT || le_num pnlPercent STOP_LOSS_PERCENT.

(** The body of the loop of [monitorMemeCoinPositions], inside its
    [try]/[catch]. *)
Definition monitorBody (api : Recall) (trade : Trade) : M World unit :=
  try_catch
    (match getPrice api trade with
     | None => ret tt
     | Some currentPrice =>
         if Qeq_bool currentPrice 0 then ret tt
         else if exitHit (price trade) currentPrice then
           (if sell api trade then ret tt else throw TradeRejected) ;;
           removeOpenTrade (id trade)
         else ret tt
     end)
    (fun _ => ret tt).

(** [monitorMemeCoinPositions()] *)
Definition monitorMemeCoinPositions (api : Recall) : M World unit :=
  openTrades <- getOpenTrades ;;
  if (length openTrades =? 0)%nat then ret tt
  else for_of openTrades (monitorBody api).

(** [runMemeCoinCycle()] on the pairs [getTopTrendingPairs] returned.  With
    no pair the function returns from inside its [try] block, before the
    monitoring call that follows the block. *)
Definition runMemeCoinCycle (tradingEnabled : bool) (api : Recall)
  (trendingPairs : list DexScreenerPair) : M World unit :=
  if (length trendingPairs =? 0)%nat then ret tt
  else
    try_catch (for_of trendingPairs (buyBody tradingEnabled api))
              (fun _ => ret tt) ;;
    monitorMemeCoinPositions api.

(** When the monitoring pass sells a trade: a non-zero price is obtained, it
    meets an exit test, and the order is accepted. *)
Definition sold (api : Recall) (trade : Trade) : bool :=
  match getPrice api trade with
  | Some currentPrice =>
      negb (Qeq_bool currentPrice 0) && exitHit (price trade) currentPrice
      && sell api trade
  | None => false
  end.

(** The addresses held, in lower case. *)
Definition heldAddresses (w : World) : list string :=
  map (fun trade => toLowerCase (toTokenAddress trade)) (openTrades w).

(** [data.pairs.reduce((prev, current) =>
      (prev.liquidity?.usd || 0) > (current.liquidity?.usd || 0) ? prev : current)]
    of [getPairPrice], on the liquidities of a non-empty array of pairs. *)
Definition mostLiquid {A} (liquidityUsd : A -> Q) (first : A) (others : list A) : A :=
  fold_left (fun prev current =>
               if Num.ltb (liquidityUsd current) (liquidityUsd prev) then prev else current)
            others first.

(** A meme coin bought at 0.0004, and a store holding it. *)
Definition wif : Trade :=
  mkTrade "m1" "WIF" "EKpQGSJtjMFqKZ9KQanSqYXRcF8fBopzLHYxdM65zcjm" "62500"
          (4 # 10000) "2025-07-01T00:00:00.000Z" "svm" "svm".

Definition holdingWif : World := mkWorld [wif] (Some [wif]) [].

Definition market (p : Q) : Recall :=
  mkRecall (fun _ => None) (fun _ => Some p) (fun _ => true)
           (fun _ => "2025-07-01T00:00:00.000Z").

End MemecoinBot.

(** ** The trend/pullback bot (trend_pullback_bot.ts) *)

Module PullbackBot.

Import Indicators MomentumBot.

Definition ATR_THRESHOLD : Q := 1.

(** [strategyParameters] *)
Definition marketTrendSmaShort : nat := 20.
Definition marketTrendSmaLong : nat := 50.
Definition entryEmaPeriod : nat := 20.

Inductive Trend : Type := UPTREND | DOWNTREND | SIDEWAYS.

(** [getOverallMarketTrend()] on the prices of the chart ([None] when the
    chart could not be fetched). *)
Definition getOverallMarketTrend (chart : option (list Q)) : Trend :=
  match chart with
  | None => SIDEWAYS
  | Some prices =>
      if (length prices <? marketTrendSmaLong)%nat then SIDEWAYS
      else
        let smaShort := calculateSMA prices marketTrendSmaShort in
        let smaLong := calculateSMA prices marketTrendSmaLong in
        if Num.ltb (at_ smaLong (length smaLong - 1)) (at_ smaShort (length smaShort - 1))
        then UPTREND else DOWNTREND
  end.

(** [isOpportunity] of [findPullbackOpportunities]. *)
Definition isOpportunity (atr lastEma currentPrice : Q) : bool :=
  let atrThreshold := (atr * ATR_THRESHOLD)%Q in
  let isNearEma := Num.leb (Qabs (currentPrice - lastEma)) atrThreshold in
  Num.ltb lastEma currentPrice && isNearEma.

(** The analysis of one coin in [findPullbackOpportunities], from its candles,
    its price chart and the price Recall gives: [None] where the loop goes
    on to the next coin. *)
Definition analyse (ohlcData : list (list Q)) (prices : list Q) (currentPrice : Q)
  : option bool :=
  if (length ohlcData =? 0)%nat then None
  else
    let atr := calculateATR_scalar ohlcData 14 in
    if Qeq_bool atr 0 then None
    else if (length prices <? entryEmaPeriod)%nat then None
    else
      let ema := calculateEMA prices entryEmaPeriod in
      let lastEma := at_ ema (length ema - 1) in
      if Qeq_bool currentPrice 0 then None
      else Some (isOpportunity atr lastEma currentPrice).

(** [s.toUpperCase()] on ASCII text. *)
Definition upper_ascii (c : ascii) : ascii :=
  let n := nat_of_ascii c in
  if (97 <=? n)%nat && (n <=? 122)%nat then ascii_of_nat (n - 32) else c.

Fixpoint toUpperCase (s : string) : string :=
  match s with
  | EmptyString => EmptyString
  | String c rest => String (upper_ascii c) (toUpperCase rest)
  end.

(** [tokenTakeProfitDollars] *)
Definition tokenTakeProfitDollars : gmap string Q :=
  <["WXRP" := (2 # 100)%Q]> (<["POL" := (2 # 100)%Q]> (<["UNI" := (20 # 100)%Q]>
  (<["LINK" := (20 # 100)%Q]> (<["SOL" := (3 # 10)%Q]> (<["WETH" := 50%Q]> ∅))))).

(** The exit test of [monitorOpenPositions]:
    [requiredTakeProfit !== undefined && dollarPnl >= requiredTakeProfit]. *)
Definition takeProfitHit (toTokenSymbol : string) (entryPrice currentPrice : Q) : bool :=
  let dollarPnl := (currentPrice - entryPrice)%Q in
  match tokenTakeProfitDollars !! toUpperCase toTokenSymbol with
  | Some requiredTakeProfit => Num.geb dollarPnl requiredTakeProfit
  | None => false
  end.

(** [currentPositionSizeInUsdc]: the price of one WETH for WETH ([None] when
    that price is not available), 1000 for the other tokens. *)
Definition positionSizeInUsdc (symbol : string) (wethPrice : option Q) : option Q :=
  if String.eqb (toUpperCase symbol) "WETH" then
    match wethPrice with
    | Some p => if Qeq_bool p 0 then None else Some p
    | None => None
    end
  else Some 1000%Q.

(** The first chain of the preference list whose balance covers [size]. *)
Fixpoint firstCovering (balances : Balances) (preferred : list string) (size : Q)
  : option (string * BalanceInfo) :=
  match preferred with
  | [] => None
  | chain :: rest =>
      match get balances chain with
      | Some info =>
          if Num.geb (bal_amount info) size then Some (chain, info)
          else firstCovering balances rest size
      | None => firstCovering balances rest size
      end
  end.

(** The source of funds [executeTrades] settles on:
    [(fromTokenAddress, fromChain, fromSpecificChain)], or [None] when the
    iteration ends in [continue] because [fromTokenAddress] is not set. *)
Definition funding (chain : Chain) (specificChain : string) (balances : Balances)
  (svmUsdcBalance size : Q) : option (string * string * string) :=
  match chain with
  | svm =>
      if Num.geb svmUsdcBalance size then Some (USDC_SVM_ADDRESS, "svm", "svm")
      else None
  | evm =>
      let preferredEvmChains :=
        [specificChain; "base"; "polygon"; "arbitrum"; "optimism"; "eth"] in
      match firstCovering balances preferredEvmChains size with
      | Some (c, info) =>
          if String.eqb (bal_address info) "" then None
          else Some (bal_address info, "evm", c)
      | None => None
      end
  end.

(** Twenty prices at 100 and fifteen flat candles with a range of 2. *)
Definition flatPrices : list Q := repeat 100%Q 20.
Definition candles15 : list (list Q) := repeat [0; 100; 101; 99; 100]%Q 15.

End PullbackBot.

(** ** Entries of the intraday bot ([executeTrades], in the last part of
    memecoin_bot/memecoin_trade_manager.ts) *)

Module IntradayEntries.

Import Async JsNumber Intraday.
Local Open Scope async_scope.

Definition FIXED_POSITION_SIZE : Q := 1000.

(** [usdcTokens.reduce((sum, t) => sum + t.amount, 0)] over the USDC entries
    of [portfolio.tokens]. *)
Definition usdcCapital (tokens : list MomentumBot.PortfolioToken) : Q :=
  fold_left (fun sum t => (sum + MomentumBot.pt_amount t)%Q)
    (List.filter (fun t =>
                    String.eqb (MomentumBot.pt_token t) MomentumBot.USDC_ADDRESS
                    || String.eqb (MomentumBot.pt_token t) MomentumBot.USDC_SVM_ADDRESS)
                 tokens)
    0%Q.

(** What the outside gives to the iteration on [opportunities[i]]. *)
Record Exchange : Type := mkExchange {
  accepts : nat -> bool;
  newId : nat -> string;
  isoTime : nat -> string;
  numberToString : number -> string;
  reasonText : option Q -> string
}.

(** The record [executeTrades] hands to [addOpenTrade]. *)
Definition entryRecord (ex : Exchange) (i : nat)
  (opportunity : MomentumBot.AnalyzedToken) : OpenTrade :=
  let svm := match MomentumBot.chain opportunity with
             | MomentumBot.svm => true | MomentumBot.evm => false end in
  let fromTokenAddress :=
    if svm then MomentumBot.USDC_SVM_ADDRESS else MomentumBot.USDC_ADDRESS in
  mkOpenTrade (newId ex i) fromTokenAddress "USDC"
              (if svm then "svm" else "evm") (if svm then "svm" else "base")
              FIXED_POSITION_SIZE
              (MomentumBot.address opportunity) (MomentumBot.symbol opportunity)
              (MomentumBot.chain_name (MomentumBot.chain opportunity))
              (MomentumBot.specificChain opportunity)
              (numberToString ex
                 (div FIXED_POSITION_SIZE (MomentumBot.current_price opportunity)))
              (MomentumBot.current_price opportunity) FIXED_POSITION_SIZE
              (isoTime ex i) "N/A" "N/A"
              (reasonText ex (MomentumBot.aiConfidence opportunity)) None
              (Some (MomentumBot.current_price opportunity)).

(** The loop of [executeTrades], from [opportunities[i]] on, with the local
    variable [availableCapital]; its value when the loop ends is the result.
    The capital is decremented between the order and [addOpenTrade], which
    does not reject in this store. *)
Fixpoint executeTrades_loop (sp : StrategyParameters) (ex : Exchange) (i : nat)
  (opportunities : list MomentumBot.AnalyzedToken) (availableCapital : Q)
  : M World Q :=
  match opportunities with
  | [] => ret availableCapital
  | opportunity :: rest =>
      rs <- getOpenTrades ;;
      if (maxConcurrentPositions sp <=? length rs)%nat then ret availableCapital
      else
        open <- gets (fun w => objects (heap w) (openTrades w)) ;;
        if existsb (fun trade => String.eqb (toTokenSymbol trade)
                                            (MomentumBot.symbol opportunity)) open
        then executeTrades_loop sp ex (S i) rest availableCapital
        else if Num.ltb availableCapital FIXED_POSITION_SIZE
        then executeTrades_loop sp ex (S i) rest availableCapital
        else
          capital <-
            try_catch
              ((if accepts ex i then ret tt else throw TradeRejected) ;;
               addOpenTrade (entryRecord ex i opportunity) ;;
               ret (availableCapital - FIXED_POSITION_SIZE)%Q)
              (fun _ => ret availableCapital) ;;
          executeTrades_loop sp ex (S i) rest capital
  end.

(** [executeTrades(opportunities, portfolio, _)] *)
Definition executeTrades (sp : StrategyParameters) (ex : Exchange)
  (tokens : list MomentumBot.PortfolioToken)
  (opportunities : list MomentumBot.AnalyzedToken) : M World Q :=
  let availableCapital := usdcCapital tokens in
  if Num.ltb availableCapital 1000 then ret availableCapital
  else executeTrades_loop sp ex 0 opportunities availableCapital.

(** Every reference of the array points to an object. *)
Definition closed (w : World) : Prop :=
  forall r, r ∈ openTrades w -> is_Some (heap w !! r).

(** The trades of the store, in the order of the array. *)
Definition trades (w : World) : list OpenTrade := objects (heap w) (openTrades w).

(** What a trade recorded by [executeTrades] looks like. *)
Definition entryOf (opportunities : list MomentumBot.AnalyzedToken) (t : OpenTrade)
  : Prop :=
  fromAmount t = FIXED_POSITION_SIZE /\ tradeAmountUsd t = FIXED_POSITION_SIZE /\
  highWaterMark t = Some (price t) /\
  exists opportunity, In opportunity opportunities /\
    toTokenSymbol t = MomentumBot.symbol opportunity /\
    price t = MomentumBot.current_price opportunity.

Definition acceptsAll : Exchange :=
  mkExchange (fun _ => true) (fun _ => "id") (fun _ => "2025-07-01T00:00:00.000Z")
             (fun _ => "n") (fun _ => "Intraday Trend/Volatility").

Definition usdc2500 : list MomentumBot.PortfolioToken :=
  [MomentumBot.mkPortfolioToken MomentumBot.USDC_ADDRESS "evm" 2500].

End IntradayEntries.

(** ** The initial portfolio setup script (unnamed/part_000) *)

Module InitialSetup.

Import Async JsNumber Intraday.
Local Open Scope async_scope.


(** An entry of [TRADABLE_TOKENS]. *)
Record TokenInfo : Type := mkTokenInfo {
  info_address : string;
  info_chain : string;
  info_specificChain : string;
  info_symbol : string;
  coingeckoId : string
}.



(** What the outside gives for a token: its price in the market data ([None]
    when the entry or its price is missing), the confidence returned by
    [getRebalanceConfidence], whether the order is accepted, and the strings
    built from the clock, the random generator and number formatting. *)
Record Answers : Type := mkAnswers {
  current_price : TokenInfo -> option Q;
  aiConfidence : TokenInfo -> number;
  accepts : TokenInfo -> bool;
  newId : TokenInfo -> string;
  isoTime : TokenInfo -> string;
  numberToString : number -> string
}.


(** The record handed to [addOpenTrade]. *)
Definition entryRecord (ans : Answers) (tokenInfo : TokenInfo)
  (amountToBuyUsd currentPrice : Q) : OpenTrade :=
  mkOpenTrade (newId ans tokenInfo)
              (if String.eqb (info_chain tokenInfo) "svm"
               then MomentumBot.USDC_SVM_ADDRESS else MomentumBot.USDC_ADDRESS)
              "USDC" (info_chain tokenInfo) (info_specificChain tokenInfo)
              amountToBuyUsd
              (info_address tokenInfo) (info_symbol tokenInfo)
              (info_chain tokenInfo) (info_specificChain tokenInfo)
              (numberToString ans (div amountToBuyUsd currentPrice))
              currentPrice amountToBuyUsd (isoTime ans tokenInfo) "N/A" "N/A"
              (String.append "Initial Portfolio Setup: Buy " (info_symbol tokenInfo))
              None None.





End InitialSetup.

(* ----- end of the embedding ----- *)

(* ===================================================================== *)
(** * Part II: properties                                                 *)
(* ===================================================================== *)

Module IndicatorFacts.

Import Indicators.
Local Open Scope Q_scope.

Lemma ema_loop_length k prev rest :
  length (ema_loop k prev rest) = length rest.
Proof.
  revert prev; induction rest as [|p rest IH]; intros prev; simpl; [reflexivity|].
  now rewrite IH.
Qed.

(** The recurrence read off the loop, by position: the value pushed at
    position [i] of the tail uses the value before it. *)
Lemma ema_loop_nth k rest : forall prev i,
  (i < length rest)%nat ->
  nth i (ema_loop k prev rest) 0 =
  nth i rest 0 * k + nth i (prev :: ema_loop k prev rest) 0 * (1 - k).
Proof.
  induction rest as [|p rest IH]; intros prev i Hi; simpl in Hi; [lia|].
  destruct i as [|i]; simpl; [reflexivity|].
  rewrite IH by lia. reflexivity.
Qed.

(** C5. For a series of at least [period] prices, [calculateEMA] returns as
    many values as prices, the first one being the first price and each later
    one [price[i] * k + ema[i - 1] * (1 - k)] with [k = 2 / (period + 1)]; a
    shorter series gives the empty sequence; and
    [EMA([10, 20, 30], 2) = [10, 50/3, 230/9]]. *)
Theorem calculateEMA_spec (prices : list Q) (period : nat) :
  (1 <= period)%nat ->
  let k := 2 / (inject_Z (Z.of_nat period) + 1) in
  let ema := calculateEMA prices period in
  ((period <= length prices)%nat ->
     length ema = length prices /\
     nth_error ema 0 = nth_error prices 0 /\
     (forall i, (1 <= i < length prices)%nat ->
        nth i ema 0 = nth i prices 0 * k + nth (i - 1) ema 0 * (1 - k))) /\
  ((length prices < period)%nat -> ema = []) /\
  Forall2 Qeq (calculateEMA [10; 20; 30] 2) [10; 50 # 3; 230 # 9] /\
  (16666 # 1000 < nth 1 (calculateEMA [10; 20; 30] 2) 0 < 16667 # 1000) /\
  (25555 # 1000 < nth 2 (calculateEMA [10; 20; 30] 2) 0 < 25556 # 1000).
Proof.
  intros Hp k ema. split; [|split; [|split; [|split]]].
  - intros Hle. subst ema; unfold calculateEMA.
    destruct (Nat.ltb_spec (length prices) period); [lia|].
    destruct prices as [|p0 rest]; simpl in *; [lia|].
    split; [now rewrite ema_loop_length|].
    split; [reflexivity|].
    intros i Hi. destruct i as [|i]; [lia|].
    replace (S i - 1)%nat with i by lia.
    simpl. rewrite ema_loop_nth by lia. reflexivity.
  - intros Hlt. subst ema; unfold calculateEMA.
    destruct (Nat.ltb_spec (length prices) period); [reflexivity|lia].
  - repeat constructor; vm_compute; reflexivity.
  - split; vm_compute; reflexivity.
  - split; vm_compute; reflexivity.
Qed.

Lemma calculateEMA_spec_witness :
  (1 <= 2)%nat /\
  Forall2 Qeq (calculateEMA [10; 20; 30] 2) [10; 50 # 3; 230 # 9].
Proof.
  split; [lia|].
  exact (proj1 (proj2 (proj2 (calculateEMA_spec [10; 20; 30] 2 ltac:(lia))))).
Defined.

(** *** RSI *)

Lemma ltb_0_sub a b : a < b -> Num.ltb 0 (b - a) = true.
Proof.
  intros H. unfold Num.ltb. apply negb_true_iff.
  destruct (Qle_bool (b - a) 0) eqn:E; [|reflexivity].
  apply Qle_bool_iff in E. lra.
Qed.

(** On a rising stretch the seed loop never touches the loss accumulator. *)
Lemma rsi_seed_rising prices : forall n i g l,
  (forall j, (i <= j < i + n)%nat -> at_ prices (j - 1) < at_ prices j) ->
  snd (rsi_seed prices i n g l) = l.
Proof.
  induction n as [|n IH]; intros i g l H; simpl; [reflexivity|].
  rewrite ltb_0_sub by (apply H; lia).
  apply IH. intros j Hj. apply H. lia.
Qed.

Lemma strictly_increasing_step prices j :
  strictly_increasing prices -> (1 <= j < length prices)%nat ->
  at_ prices (j - 1) < at_ prices j.
Proof.
  intros H Hj. specialize (H (j - 1)%nat).
  replace (S (j - 1)) with j in H by lia. apply H. lia.
Qed.

(** C1 (what the code computes).  On every strictly increasing series of 15
    prices, [calculateRSI] with period 14 returns exactly one value, and that
    value is [100 - 100 / 101 = 10000 / 101] (about 99.01), not 100: with a
    zero average loss the code sets the relative strength [rs] to 100, not
    the index. *)
Theorem calculateRSI_rising_15 (prices : list Q) :
  length prices = 15%nat ->
  strictly_increasing prices ->
  exists r, calculateRSI prices 14 = [r] /\ r == 10000 # 101 /\ ~ r == 100.
Proof.
  intros Hlen Hinc. unfold calculateRSI. rewrite Hlen.
  change (15 <=? 14)%nat with false. cbv iota.
  pose proof (rsi_seed_rising prices 14 1 0 0) as Hl.
  destruct (rsi_seed prices 1 14 0 0) as [g l]. simpl in Hl.
  rewrite Hl.
  2:{ intros j Hj. apply strictly_increasing_step; [assumption|lia]. }
  exists (100 - 100 / (1 + 100)). split; [reflexivity|].
  split; [reflexivity|]. intros H. vm_compute in H. discriminate.
Qed.

Lemma ramp15_increasing : strictly_increasing ramp15.
Proof.
  intros i Hi. change (length ramp15) with 15%nat in Hi.
  do 14 (destruct i as [|i]; [vm_compute; reflexivity|]). lia.
Qed.

Lemma calculateRSI_rising_15_witness :
  exists r, calculateRSI ramp15 14 = [r] /\ r == 10000 # 101 /\ ~ r == 100.
Proof.
  exact (calculateRSI_rising_15 ramp15 eq_refl ramp15_increasing).
Defined.

(** The single-number RSI at the end of combined_strategy_bot.ts does follow
    the convention: it returns 100 as soon as the average loss is zero. *)
Lemma calculateRSI_simple_no_loss (prices : list Q) (period : nat) :
  (1 <= period)%nat ->
  snd (rsi_simple_loop prices) == 0 ->
  calculateRSI_simple prices period = 100.
Proof.
  intros _ H. unfold calculateRSI_simple.
  destruct (rsi_simple_loop prices) as [gains losses]. simpl in H.
  assert (E : Qeq_bool (losses / Num.ofNat period) 0 = true).
  { apply Qeq_bool_iff. rewrite H. unfold Qdiv. ring. }
  now rewrite E.
Qed.

Example calculateRSI_simple_ramp15 : calculateRSI_simple ramp15 14 = 100.
Proof. vm_compute. reflexivity. Qed.

(** *** ATR *)

(** The array variant returns the empty sequence below [period + 1] bars. *)
Lemma calculateATR_insufficient (data : list Bar) (period : nat) :
  (length data < period + 1)%nat -> calculateATR data period = [].
Proof.
  intros H. unfold calculateATR.
  destruct (Nat.leb_spec (length data) period); [reflexivity|lia].
Qed.

(** The scalar variant returns 0 below [period] bars. *)
Lemma calculateATR_scalar_insufficient (ohlcData : list (list Q)) (period : nat) :
  (length ohlcData < period)%nat -> calculateATR_scalar ohlcData period = 0.
Proof.
  intros H. unfold calculateATR_scalar.
  destruct (Nat.ltb_spec (length ohlcData) period); [reflexivity|lia].
Qed.

(** With exactly [period] bars the scalar variant passes its guard and
    divides the [period - 1] true ranges it has by [period]. *)
Lemma calculateATR_scalar_at_period (ohlcData : list (list Q)) (period : nat) :
  length ohlcData = period ->
  calculateATR_scalar ohlcData period =
  Num.sum (trueRanges ohlcData) / Num.ofNat period.
Proof.
  intros H. unfold calculateATR_scalar.
  destruct (Nat.ltb_spec (length ohlcData) period); [lia|].
  assert (Hl : length (trueRanges ohlcData) = (period - 1)%nat).
  { unfold trueRanges. rewrite length_map, length_seq. lia. }
  rewrite firstn_all2 by lia. rewrite skipn_all2 by lia. reflexivity.
Qed.

(** C3 (what the code computes).  Fourteen candles are fewer than
    [period + 1 = 15] bars, yet the scalar [calculateATR] of the pullback bot
    returns 13/14 for them: the mean over 14 of the 13 true ranges, a partial
    value and not the sentinel 0. *)
Theorem calculateATR_scalar_flat14 :
  (length flat14 < 14 + 1)%nat /\
  calculateATR_scalar flat14 14 == 13 # 14 /\
  ~ calculateATR_scalar flat14 14 == 0.
Proof.
  split; [vm_compute; lia|].
  split; [vm_compute; reflexivity|].
  intros H. vm_compute in H. discriminate.
Qed.

End IndicatorFacts.

(** ** The open-trade store *)

Module TradeManagerFacts.

Import Async TradeManager.
Local Open Scope async_scope.

Ltac run_store :=
  cbv [addOpenTrade removeOpenTrade getOpenTrades saveOpenTrades fs_writeFile
       console try_catch bind ret gets modify set_openTrades emit next_fault
       openTrades file faults trace].

(** [saveOpenTrades] always resolves, whatever the write does. *)
Lemma saveOpenTrades_run (w : World) :
  saveOpenTrades w =
  (Resolved tt,
   match next_fault w with
   | WriteOk =>
       mkWorld (openTrades w) (Holds (openTrades w)) (tl (faults w))
               (trace w ++ [FsWrite (openTrades w) WriteOk])
   | WriteFails d =>
       mkWorld (openTrades w) (if d then Damaged else file w) (tl (faults w))
               ((trace w ++ [FsWrite (openTrades w) (WriteFails d)])
                  ++ [Console Err SaveFailed])
   end).
Proof.
  destruct w as [ts f fs tr]. run_store.
  destruct fs as [|[|d] fs]; reflexivity.
Qed.

(** What [addOpenTrade] leaves in memory. *)
Lemma addOpenTrade_openTrades (w : World) (p : OpenTrade) :
  fst (addOpenTrade p w) = Resolved tt /\
  openTrades (snd (addOpenTrade p w)) = openTrades w ++ [p].
Proof.
  destruct w as [ts f fs tr]. run_store.
  destruct fs as [|[|d] fs]; simpl; auto.
Qed.

(** What [removeOpenTrade] leaves in memory. *)
Lemma removeOpenTrade_openTrades (w : World) (tradeId : string) :
  fst (removeOpenTrade tradeId w) = Resolved tt /\
  openTrades (snd (removeOpenTrade tradeId w)) =
  filter (fun t => id t <> tradeId) (openTrades w).
Proof.
  destruct w as [ts f fs tr]. run_store.
  destruct (_ <? _)%nat; destruct fs as [|[|d] fs]; simpl; auto.
Qed.

Lemma filter_id_all (ts : list OpenTrade) (tradeId : string) :
  (forall t, In t ts -> id t <> tradeId) ->
  filter (fun t => id t <> tradeId) ts = ts.
Proof.
  induction ts as [|t ts IH]; intros H; [reflexivity|].
  rewrite filter_cons_True by (apply H; left; reflexivity).
  f_equal. apply IH. intros t' Ht'. apply H. right; assumption.
Qed.

Lemma In_filter_id (ts : list OpenTrade) (tradeId : string) (t : OpenTrade) :
  In t (filter (fun t => id t <> tradeId) ts) <-> In t ts /\ id t <> tradeId.
Proof. rewrite <- !list_elem_of_In, list_elem_of_filter. tauto. Qed.

(** [removeOpenTrade] only adds to the trace. *)
Lemma removeOpenTrade_trace (w : World) (tradeId : string) :
  exists more, trace (snd (removeOpenTrade tradeId w)) = trace w ++ more.
Proof.
  destruct w as [ts f fs tr]. run_store.
  destruct (_ <? _)%nat; destruct fs as [|[|d] fs]; simpl;
    eexists; rewrite <- ?app_assoc; reflexivity.
Qed.

(** C2 (as stated) fails: a rejected write does not make [addOpenTrade]
    reject.  On a store whose next write fails, it resolves. *)
Lemma addOpenTrade_failed_write_resolves :
  next_fault disk_full = WriteFails false /\
  fst (addOpenTrade doge disk_full) = Resolved tt /\
  ~ (forall (w : World) (p : OpenTrade) (d : bool),
       next_fault w = WriteFails d ->
       exists e, fst (addOpenTrade p w) = Rejected e).
Proof.
  split; [reflexivity|]. split; [reflexivity|].
  intros H. destruct (H disk_full doge false eq_refl) as [e He].
  vm_compute in He. discriminate.
Qed.

(** C2 (amended).  [addOpenTrade] appends the position to the in-memory list
    and attempts one write of the whole list; it always resolves.  When the
    write succeeds the file holds the new list; when it fails the failure is
    logged by [saveOpenTrades] and goes no further, the in-memory list
    keeping the new position, and the file is not updated: it keeps the
    content it had before the call or is left damaged, so that a restart finds
    in it no trade that was not there before (the new position only if the
    file already held it). *)
Theorem addOpenTrade_spec (w : World) (p : OpenTrade) :
  exists w',
    addOpenTrade p w = (Resolved tt, w') /\
    openTrades w' = openTrades w ++ [p] /\
    faults w' = tl (faults w) /\
    match next_fault w with
    | WriteOk =>
        file w' = Holds (openTrades w ++ [p]) /\
        trace w' = trace w ++
          [FsWrite (openTrades w ++ [p]) WriteOk;
           Console Log (Added (toTokenSymbol p) (length (openTrades w ++ [p])))]
    | WriteFails d =>
        file w' = (if d then Damaged else file w) /\
        trace w' = trace w ++
          [FsWrite (openTrades w ++ [p]) (WriteFails d);
           Console Err SaveFailed;
           Console Log (Added (toTokenSymbol p) (length (openTrades w ++ [p])))] /\
        (forall t, In t (onDisk (file w')) -> In t (onDisk (file w)))
    end.
Proof.
  destruct w as [ts f fs tr]. run_store.
  destruct fs as [|[|d] fs]; simpl; eexists; (split; [reflexivity|]); simpl;
    rewrite <- ?app_assoc; simpl; auto.
  destruct d; simpl; auto.
  repeat split; auto. intros t [].
Qed.

(** The meme-coin store has no handler in [saveOpenTrades]: there a rejected
    write does reject [addOpenTrade], the list already holding the trade. *)
Lemma memecoin_addOpenTrade_rejects (w : MemecoinManager.World)
  (t : MemecoinManager.Trade) (rest : list bool) :
  MemecoinManager.writeFails w = true :: rest ->
  exists w',
    MemecoinManager.addOpenTrade t w = (Rejected IoError, w') /\
    MemecoinManager.openTrades w' = MemecoinManager.openTrades w ++ [t] /\
    MemecoinManager.file w' = MemecoinManager.file w.
Proof.
  destruct w as [ts f fs]; simpl; intros ->.
  eexists; split; [reflexivity|]. simpl. auto.
Qed.

(** C10.  [removeOpenTrade(id)] resolves and leaves in memory the trades
    whose id differs from [id]: every trade with that id is gone, every other
    trade is kept as it was and in the same relative order.  When no trade
    has that id the list is unchanged, nothing is written (the file, the
    pending write outcomes and the number of writes are the same) and one
    warning is printed. *)
Theorem removeOpenTrade_spec (w : World) (tradeId : string) :
  exists w',
    removeOpenTrade tradeId w = (Resolved tt, w') /\
    (forall t, In t (openTrades w') <-> In t (openTrades w) /\ id t <> tradeId) /\
    sublist (openTrades w') (openTrades w) /\
    ((forall t, In t (openTrades w) -> id t <> tradeId) ->
       openTrades w' = openTrades w /\ file w' = file w /\
       faults w' = faults w /\ writes (trace w') = writes (trace w) /\
       trace w' = trace w ++ [Console Warn (NotFound tradeId)]).
Proof.
  destruct (removeOpenTrade tradeId w) as [r w'] eqn:E.
  pose proof (removeOpenTrade_openTrades w tradeId) as [Hr Hts].
  rewrite E in Hts, Hr. simpl in Hts, Hr. subst r.
  exists w'. split; [reflexivity|]. split; [|split].
  - intros t. rewrite Hts. apply In_filter_id.
  - rewrite Hts. apply sublist_filter.
  - intros Hnone. revert E. destruct w as [ts f fs tr]. run_store.
    rewrite (filter_id_all ts tradeId Hnone).
    rewrite Nat.ltb_irrefl. intros [= <-]. simpl.
    repeat split; try reflexivity.
    unfold writes. rewrite List.filter_app, length_app. simpl. lia.
Qed.

(** C6.  From a store holding no trade with [p]'s id, [addOpenTrade(p)] then
    [getOpenTrades()] returns a list with [p] at exactly one position (the
    last), and [removeOpenTrade(p.id)] then [getOpenTrades()] returns a list
    with no record of that id. *)
Theorem add_list_remove_list (w : World) (p : OpenTrade) :
  (forall t, In t (openTrades w) -> id t <> id p) ->
  exists w1 l1 w2 l2,
    (addOpenTrade p ;; getOpenTrades) w = (Resolved l1, w1) /\
    l1 = openTrades w ++ [p] /\
    (forall i, l1 !! i = Some p <-> i = length (openTrades w)) /\
    (removeOpenTrade (id p) ;; getOpenTrades) w1 = (Resolved l2, w2) /\
    (forall t, In t l2 -> id t <> id p) /\
    l2 = openTrades w.
Proof.
  intros Hfresh.
  pose proof (addOpenTrade_openTrades w p) as [Hr1 Hts1].
  destruct (addOpenTrade p w) as [r1 w1] eqn:Hadd. simpl in Hr1, Hts1. subst r1.
  pose proof (removeOpenTrade_openTrades w1 (id p)) as [Hr2 Hts2].
  destruct (removeOpenTrade (id p) w1) as [r2 w2] eqn:Hrem.
  simpl in Hr2, Hts2. subst r2.
  exists w1, (openTrades w1), w2, (openTrades w2).
  split; [|split; [|split; [|split; [|split]]]].
  - unfold bind at 1. rewrite Hadd. reflexivity.
  - exact Hts1.
  - intros i. rewrite Hts1. split.
    + intros Hi. destruct (Nat.lt_total i (length (openTrades w))) as [Hlt|[->|Hgt]].
      * rewrite lookup_app_l in Hi by assumption.
        apply list_elem_of_lookup_2, list_elem_of_In in Hi.
        destruct (Hfresh p Hi eq_refl).
      * reflexivity.
      * rewrite lookup_ge_None_2 in Hi; [discriminate|].
        rewrite length_app. simpl. lia.
    + intros ->. rewrite lookup_app_r by lia.
      now rewrite Nat.sub_diag.
  - unfold bind at 1. rewrite Hrem. reflexivity.
  - intros t Ht. rewrite Hts2 in Ht. apply In_filter_id in Ht. tauto.
  - rewrite Hts2, Hts1, filter_app, filter_id_all by assumption.
    rewrite filter_cons_False by (intros H; apply H; reflexivity).
    rewrite filter_nil. apply app_nil_r.
Qed.

Lemma add_list_remove_list_witness :
  exists w1 l1 w2 l2,
    (addOpenTrade doge ;; getOpenTrades) disk_full = (Resolved l1, w1) /\
    l1 = [pepe; doge] /\
    (forall i, l1 !! i = Some doge <-> i = 1%nat) /\
    (removeOpenTrade "t1" ;; getOpenTrades) w1 = (Resolved l2, w2) /\
    (forall t, In t l2 -> id t <> "t1") /\
    l2 = [pepe].
Proof.
  apply (add_list_remove_list disk_full doge).
  intros t [<-|[]]. discriminate.
Defined.

End TradeManagerFacts.

(** ** The momentum bot *)

Module MomentumBotFacts.

Import Async JsNumber TradeManager MomentumBot.
Local Open Scope async_scope.

(** *** Sizing *)

(** The sizing formula, by cases on the floor of 10. *)
Lemma calculatePositionSize_floor (sp : StrategyParameters) (capital vol : Q) :
  (10 <= calculatePositionSize sp capital vol)%Q /\
  (calculatePositionSize sp capital vol ==
   Qmax 10 (capital * maxPositionSize sp * (1 - vol)))%Q.
Proof.
  unfold calculatePositionSize. split; [apply Q.le_max_l|reflexivity].
Qed.

Lemma calculatePositionSize_le_capital (sp : StrategyParameters) (capital : Q) :
  (0 <= maxPositionSize sp <= 1)%Q -> (10 <= capital)%Q ->
  (calculatePositionSize sp capital (1 # 2) <= capital)%Q.
Proof.
  intros [H0 H1] Hc. unfold calculatePositionSize.
  apply Q.max_lub; [assumption|]. nra.
Qed.

Lemma calculatePositionSize_small_capital (sp : StrategyParameters) (capital : Q) :
  (capital < 10)%Q -> (capital < calculatePositionSize sp capital (1 # 2))%Q.
Proof.
  intros Hc. unfold calculatePositionSize.
  eapply Qlt_le_trans; [exact Hc|apply Q.le_max_l].
Qed.

(** C4 (as stated) fails: with 5 USDC on the preferred chain the order that
    is submitted spends 10, twice the capital it was sized against. *)
Lemma entryOrder_above_capital :
  exists o,
    entryOrder initialParameters evm "eth" []
               [("eth", mkBalanceInfo 5 USDC_ADDRESS)] = Some o /\
    (ord_availableCapital o == 5)%Q /\ (ord_amount o == 10)%Q /\
    ~ (ord_amount o <= ord_availableCapital o)%Q.
Proof.
  eexists. split; [vm_compute; reflexivity|]. simpl.
  split; [reflexivity|]. split; [reflexivity|].
  intros H. vm_compute in H. apply H. reflexivity.
Qed.

(** C4 (amended).  An entry is skipped only when no preferred EVM chain holds
    a positive USDC balance or when the available capital is exactly 0.
    Otherwise the order submitted has the size
    [max(10, capital * maxPositionSize * (1 - 0.5))]: never below the minimum
    trade size of 10, within the capital when the capital is at least 10 (and
    [maxPositionSize] is a fraction), above it when the capital is below 10. *)
Theorem entryOrder_spec (sp : StrategyParameters) (chain : Chain)
  (specificChain : string) (tokens : list PortfolioToken) (balances : Balances) :
  match entryOrder sp chain specificChain tokens balances with
  | Some o =>
      ~ (ord_availableCapital o == 0)%Q /\
      (ord_amount o ==
       Qmax 10 (ord_availableCapital o * maxPositionSize sp * (1 - (1 # 2))))%Q /\
      (10 <= ord_amount o)%Q /\
      ((0 <= maxPositionSize sp <= 1)%Q -> (10 <= ord_availableCapital o)%Q ->
       (ord_amount o <= ord_availableCapital o)%Q) /\
      ((ord_availableCapital o < 10)%Q ->
       (ord_availableCapital o < ord_amount o)%Q)
  | None =>
      match chain with
      | svm => (svmUsdc tokens == 0)%Q
      | evm =>
          firstFunded balances
            [specificChain; "base"; "polygon"; "arbitrum"; "optimism"] = None \/
          (fold_left (fun sum b => sum + bal_amount b) (map snd balances) 0 == 0)%Q
      end
  end.
Proof.
  unfold entryOrder.
  set (funding := match chain with svm => _ | evm => _ end).
  assert (Hsome : forall a c s cap, funding = Some (a, c, s, cap) ->
    match (if Qeq_bool cap 0 then None
           else Some (mkOrder a c s cap (calculatePositionSize sp cap (1 # 2)))) with
    | Some o =>
        ~ (ord_availableCapital o == 0)%Q /\
        (ord_amount o ==
         Qmax 10 (ord_availableCapital o * maxPositionSize sp * (1 - (1 # 2))))%Q /\
        (10 <= ord_amount o)%Q /\
        ((0 <= maxPositionSize sp <= 1)%Q -> (10 <= ord_availableCapital o)%Q ->
         (ord_amount o <= ord_availableCapital o)%Q) /\
        ((ord_availableCapital o < 10)%Q ->
         (ord_availableCapital o < ord_amount o)%Q)
    | None => (cap == 0)%Q
    end).
  { intros a c s cap _. destruct (Qeq_bool cap 0) eqn:E.
    - now apply Qeq_bool_iff.
    - simpl. split; [now apply Qeq_bool_neq|].
      split; [apply calculatePositionSize_floor|].
      split; [apply calculatePositionSize_floor|].
      split; [apply calculatePositionSize_le_capital|].
      apply calculatePositionSize_small_capital. }
  destruct funding as [[[[a c] s] cap]|] eqn:Hf.
  - specialize (Hsome a c s cap eq_refl).
    destruct (Qeq_bool cap 0) eqn:E; [|exact Hsome].
    subst funding. destruct chain.
    + right. destruct (firstFunded _ _) as [[c' info]|]; [|discriminate].
      injection Hf as _ _ _ <-. exact Hsome.
    + injection Hf as _ _ _ <-. exact Hsome.
  - subst funding. destruct chain; [|discriminate].
    left. destruct (firstFunded _ _) as [[c' info]|]; [discriminate|reflexivity].
Qed.

(** *** Exit rules *)

(** A trade whose [token] is not a tradable address is passed over: no price
    is asked for, so even a failing price request changes nothing. *)
Lemma monitorBody_skips (sp : StrategyParameters) (api : Recall)
  (tok : OpenTrade) (w : World) :
  tradable tok = false -> monitorBody sp api tok w = (Resolved tt, w).
Proof.
  unfold monitorBody. intros H. now rewrite H.
Qed.

Lemma for_of_monitor_idle (sp : StrategyParameters) (api : Recall) :
  forall (snapshot : list OpenTrade) (w : World),
    (forall t, In t snapshot -> tradable t = false) ->
    for_of snapshot (monitorBody sp api) w = (Resolved tt, w).
Proof.
  induction snapshot as [|x xs IH]; intros w Hno; [reflexivity|].
  simpl. unfold bind.
  rewrite (monitorBody_skips sp api x w) by (apply Hno; left; reflexivity).
  apply IH. intros t Ht. apply Hno. right; assumption.
Qed.

(** The record that [executeTrades] stores names the bought token
    [toToken]; it has no [token] and no [amount] property. *)
Lemma entryRecord_untagged (ex : Exchange) (i : nat) (opportunity : AnalyzedToken)
  (order : Order) (reason : string) :
  tradable (entryRecord ex i opportunity order reason) = false.
Proof. reflexivity. Qed.

(** C8.  The exit test of [monitorOpenPositions] is never reached for the
    positions the bot opens.  The loop first skips every stored trade whose
    [token] property is not a tradable address, and the records that
    [executeTrades] stores have no [token] property (the bought token is
    under [toToken]).  So on a store made of such records a monitoring pass
    resolves and leaves the store, the file and the orders placed exactly as
    they were, whatever the thresholds are and whatever the price request
    would answer: with entry price 100 and take-profit 0.15 a price of 115
    closes nothing, and with stop-loss 0.05 a price of 94 closes nothing. *)
Theorem exit_test_not_reached (sp : StrategyParameters) (api : Recall) (w : World) :
  (forall t, In t (openTrades w) ->
             exists ex i opportunity order reason,
               t = entryRecord ex i opportunity order reason) ->
  monitorOpenPositions sp api w = (Resolved tt, w).
Proof.
  intros Hw. unfold monitorOpenPositions, bind, getOpenTrades, gets.
  apply for_of_monitor_idle. intros t Ht.
  destruct (Hw t Ht) as (ex & i & opportunity & order & reason & ->).
  apply entryRecord_untagged.
Qed.

(** The position of the scenario: bought at 100 by [executeTrades], watched
    with stop-loss 0.05 and take-profit 0.15, at 115 and at 94. *)
Lemma exit_test_not_reached_witness :
  let w1 := snd (executeTrades initialParameters acceptsAll [] ethBalances
                   [opportunityAt100] (mkWorld [] Absent [] [])) in
  map price (openTrades w1) = [100%Q] /\
  takeProfit scenarioParameters = (15 # 100)%Q /\
  stopLoss scenarioParameters = (5 # 100)%Q /\
  monitorOpenPositions scenarioParameters (priceIs 115) w1 = (Resolved tt, w1) /\
  monitorOpenPositions scenarioParameters (priceIs 94) w1 = (Resolved tt, w1).
Proof.
  assert (H : forall t,
             In t (openTrades (snd (executeTrades initialParameters acceptsAll []
                      ethBalances [opportunityAt100] (mkWorld [] Absent [] [])))) ->
             exists ex i opportunity order reason,
               t = entryRecord ex i opportunity order reason).
  { intros t [<-|[]]. do 5 eexists. reflexivity. }
  split; [reflexivity|]. split; [reflexivity|]. split; [reflexivity|].
  split.
  - exact (exit_test_not_reached scenarioParameters (priceIs 115) _ H).
  - exact (exit_test_not_reached scenarioParameters (priceIs 94) _ H).
Defined.

End MomentumBotFacts.

(** ** The confidence oracle *)

Module ConfidenceFacts.

Import JsNumber Confidence.

Lemma strip_prefix_Some (p s r : text) :
  strip_prefix p s = Some r <-> s = p ++ r.
Proof.
  revert s; induction p as [|a p IH]; intros s; simpl.
  - split; [intros [= ->]; reflexivity|intros ->; reflexivity].
  - destruct s as [|b s]; [split; discriminate|].
    destruct (Ascii.eqb_spec a b) as [->|Hne].
    + rewrite IH. split; [intros ->; reflexivity|intros [= ->]; reflexivity].
    + split; [discriminate|intros [= -> _]; contradiction].
Qed.

Lemma span_sound (f : ascii -> bool) (s a b : text) :
  span f s = (a, b) -> s = a ++ b /\ forallb f a = true.
Proof.
  revert a b; induction s as [|c s IH]; intros a b; simpl.
  - intros [= <- <-]. auto.
  - destruct (f c) eqn:Hc.
    + destruct (span f s) as [a' b']. intros [= <- <-].
      destruct (IH a' b' eq_refl) as [-> Ha]. simpl. rewrite Hc. auto.
    + intros [= <- <-]. auto.
Qed.

(** A run of [f]-characters followed by a character outside [f] is what
    [span] returns. *)
Lemma span_run (f : ascii -> bool) (a : text) (c : ascii) (r : text) :
  forallb f a = true -> f c = false -> span f (a ++ c :: r) = (a, c :: r).
Proof.
  intros Ha Hc. induction a as [|x a IH]; simpl.
  - now rewrite Hc.
  - simpl in Ha. apply andb_true_iff in Ha as [Hx Ha].
    rewrite Hx, (IH Ha). reflexivity.
Qed.

Lemma match_here_sound (open close s capture rest : text) :
  match_here open close s = Some (capture, rest) ->
  capture <> [] /\ forallb in_class capture = true /\
  s = open ++ capture ++ close ++ rest.
Proof.
  unfold match_here.
  destruct (strip_prefix open s) as [s1|] eqn:H1; [|discriminate].
  apply strip_prefix_Some in H1.
  destruct (span in_class s1) as [cap s2] eqn:H2.
  apply span_sound in H2 as [-> Hcap].
  destruct cap as [|c cap]; [discriminate|].
  destruct (strip_prefix close s2) as [r|] eqn:H3; [|discriminate].
  apply strip_prefix_Some in H3. intros [= <- <-].
  split; [discriminate|]. split; [assumption|]. now subst.
Qed.

Lemma match_here_complete (open close capture rest : text) (c0 : ascii) (cl : text) :
  close = c0 :: cl -> in_class c0 = false ->
  capture <> [] -> forallb in_class capture = true ->
  match_here open close (open ++ capture ++ close ++ rest) = Some (capture, rest).
Proof.
  intros -> Hc0 Hne Hcap. unfold match_here.
  rewrite (proj2 (strip_prefix_Some open _ (capture ++ (c0 :: cl) ++ rest)) eq_refl).
  change ((c0 :: cl) ++ rest) with (c0 :: (cl ++ rest)).
  rewrite (span_run in_class capture c0 (cl ++ rest) Hcap Hc0).
  destruct capture as [|x capture]; [contradiction|].
  now rewrite (proj2 (strip_prefix_Some (c0 :: cl) (c0 :: (cl ++ rest)) rest) eq_refl).
Qed.

(** A match that [search] reports is an occurrence of the pattern. *)
Lemma search_sound (open close : text) : forall s before capture rest,
  search open close s = Some (before, capture, rest) ->
  capture <> [] /\ forallb in_class capture = true /\
  s = before ++ open ++ capture ++ close ++ rest.
Proof.
  induction s as [|c s IH]; intros before capture rest; simpl.
  - destruct (match_here open close []) as [[cap r]|] eqn:H; [|discriminate].
    intros [= <- <- <-]. exact (match_here_sound _ _ _ _ _ H).
  - destruct (match_here open close (c :: s)) as [[cap r]|] eqn:H.
    + intros [= <- <- <-]. exact (match_here_sound _ _ _ _ _ H).
    + destruct (search open close s) as [[[b cap] r]|]; [|discriminate].
      intros [= <- <- <-]. destruct (IH b cap r eq_refl) as (H1 & H2 & ->).
      auto.
Qed.

(** An occurrence of the pattern is never missed. *)
Lemma search_complete (open close : text) (c0 : ascii) (cl : text) :
  close = c0 :: cl -> in_class c0 = false ->
  forall s, contains open close s -> search open close s <> None.
Proof.
  intros Hclose Hc0 s (before & capture & rest & Hne & Hcap & ->).
  induction before as [|b before IH].
  - simpl app.
    pose proof (match_here_complete open close capture rest c0 cl
                  Hclose Hc0 Hne Hcap) as Hm.
    destruct (open ++ capture ++ close ++ rest); simpl; rewrite Hm; discriminate.
  - simpl. destruct (match_here open close _) as [[cap r]|]; [discriminate|].
    destruct (search open close _) as [[[b' cap] r]|]; [discriminate|].
    contradiction.
Qed.

Lemma search_None_iff (open close : text) (c0 : ascii) (cl : text) (s : text) :
  close = c0 :: cl -> in_class c0 = false ->
  search open close s = None <-> ~ contains open close s.
Proof.
  intros Hclose Hc0. split.
  - intros H Hc. now apply (search_complete open close c0 cl Hclose Hc0 s Hc).
  - intros H. destruct (search open close s) as [[[b cap] r]|] eqn:E; [|reflexivity].
    destruct H. apply search_sound in E as (H1 & H2 & H3).
    now exists b, cap, r.
Qed.

(** C7.  The answer ["<score>0.42</score> looks risky"] gives confidence
    0.42 and reason ["looks risky"], the tag removed and the blanks around
    trimmed; an answer with neither a [<score>X</score>] tag nor a sentence
    "confidence score of **X**" gives confidence 0. *)
Theorem parseConfidence_spec :
  (exists q, parseConfidence "<score>0.42</score> looks risky"
             = (Finite q, "looks risky"%string) /\ (q == 42 # 100)%Q) /\
  (forall aiResponse,
     ~ hasScoreTag aiResponse -> ~ hasScoreSentence aiResponse ->
     fst (parseConfidence aiResponse) = Finite 0).
Proof.
  split.
  - eexists. split; [vm_compute; reflexivity|reflexivity].
  - intros aiResponse Htag Hsent. unfold parseConfidence. simpl.
    apply (search_None_iff _ _ "<"%char (chars "/score>")) in Htag;
      [|reflexivity|reflexivity].
    apply (search_None_iff _ _ "*"%char (chars "*")) in Hsent;
      [|reflexivity|reflexivity].
    unfold scoreTag, scoreSentence. rewrite Htag, Hsent. reflexivity.
Qed.

(** With a tag, the confidence is the number read from the first tag, and
    the sentence is not looked at. *)
Lemma parseConfidence_tag (aiResponse : string) (before capture rest : text) :
  scoreTag (chars aiResponse) = Some (before, capture, rest) ->
  parseConfidence aiResponse =
  (parseFloat capture, string_of_list_ascii (trim (before ++ rest))).
Proof.
  intros H. unfold parseConfidence, stripScoreTag. rewrite H.
  apply search_sound in H as (Hne & _ & _).
  destruct capture; [contradiction|reflexivity].
Qed.

End ConfidenceFacts.

(** ** The intraday bot: the high-water mark *)

Module IntradayFacts.

Import Async Intraday.
Local Open Scope async_scope.

(** *** Running the monad *)

Lemma bind_modify {A} (f : World -> World) (k : unit -> M World A) (w : World) :
  bind (modify f) k w = k tt (f w).
Proof. reflexivity. Qed.

Lemma bind_ret {A B} (a : A) (k : A -> M World B) (w : World) :
  bind (ret a) k w = k a w.
Proof. reflexivity. Qed.

Lemma bind_gets {A B} (f : World -> A) (k : A -> M World B) (w : World) :
  bind (gets f) k w = k (f w) w.
Proof. reflexivity. Qed.

Lemma bind_read {A} (r : ref) (k : OpenTrade -> M World A) (w : World) (t : OpenTrade) :
  heap w !! r = Some t -> bind (read r) k w = k t w.
Proof. intros H. unfold bind, read. now rewrite H. Qed.

Lemma bind_assoc {A B C} (m : M World A) (f : A -> M World B)
  (g : B -> M World C) (w : World) :
  bind (bind m f) g w = bind m (fun a => bind (f a) g) w.
Proof. unfold bind. destruct (m w) as [[a|e] w']; reflexivity. Qed.

Lemma save_keeps_store (w : World) :
  exists w', saveOpenTrades w = (Resolved tt, w') /\ sameStore w w'.
Proof.
  unfold saveOpenTrades, modify. eexists. split; [reflexivity|].
  destruct (writeFails w) as [|[|] rest]; repeat split.
Qed.

Lemma maxOf_app_le (base : Q) (ps qs : list Q) :
  (maxOf base ps <= maxOf base (ps ++ qs))%Q.
Proof.
  unfold maxOf. rewrite fold_left_app. generalize (fold_left Qmax ps base).
  induction qs as [|q qs IH]; intros b; simpl; [apply Qle_refl|].
  eapply Qle_trans; [apply (Q.le_max_l b q)|apply IH].
Qed.

(** *** Lists of references *)

Lemma insert_at_split (l : list ref) (i : nat) (r r' : ref) :
  l !! i = Some r ->
  exists l1 l2, l = l1 ++ r :: l2 /\ <[i:=r']> l = l1 ++ r' :: l2.
Proof.
  intros H. destruct (list_elem_of_split_length l i r H) as (l1 & l2 & -> & ->).
  exists l1, l2. split; [reflexivity|].
  replace (length l1) with (length l1 + 0)%nat by lia.
  now rewrite insert_app_r.
Qed.

(** *** The store *)

Lemma stored_sameStore (w w' : World) (t : OpenTrade) :
  sameStore w w' -> stored w' t <-> stored w t.
Proof. intros (Hh & Ho & _). unfold stored. now rewrite Hh, Ho. Qed.

Lemma removeOpenTrade_run (w : World) (tradeId : string) :
  exists w',
    removeOpenTrade tradeId w = (Resolved tt, w') /\
    sameStore (set_openTrades (filter (fun r => ~ hasId (heap w) tradeId r)) w) w'.
Proof.
  unfold removeOpenTrade. rewrite bind_gets, bind_modify, bind_gets.
  destruct (_ <? _)%nat.
  - apply save_keeps_store.
  - eexists. split; [reflexivity|]. repeat split.
Qed.

(** The stored object with a given id is behind a single reference. *)
Lemma unique_ref (w : World) (r y : ref) (t t' : OpenTrade) :
  wellFormed w -> r ∈ openTrades w -> heap w !! r = Some t ->
  y ∈ openTrades w -> heap w !! y = Some t' -> id t' = id t -> y = r.
Proof. intros (_ & _ & Hu) Hr Ht Hy Ht' Hid. exact (Hu y r t' t Hy Hr Ht' Ht Hid). Qed.

Lemma markInForce_with (v : Q) (t : OpenTrade) :
  (0 < v)%Q -> markInForce (withHighWaterMark v t) = v.
Proof.
  intros Hv. unfold markInForce. simpl.
  destruct (Qeq_bool v 0) eqn:E; [|reflexivity].
  apply Qeq_bool_iff in E. lra.
Qed.

Lemma updateOpenTrade_run (w : World) (r : ref) (t : OpenTrade)
  (tradeId : string) (updates : Partial) :
  wellFormed w -> r ∈ openTrades w -> heap w !! r = Some t -> id t = tradeId ->
  exists l1 l2 w',
    openTrades w = l1 ++ r :: l2 /\
    updateOpenTrade tradeId updates w = (Resolved tt, w') /\
    sameStore
      (set_openTrades (fun _ => l1 ++ fresh (dom (heap w)) :: l2)
         (set_heap (insert (fresh (dom (heap w))) (spread t updates)) w)) w'.
Proof.
  intros Hwf Hr Ht Hid. unfold updateOpenTrade. rewrite bind_gets.
  destruct (list_find (hasId (heap w) tradeId) (openTrades w)) as [[i y]|] eqn:Hf.
  - apply list_find_Some in Hf as (Hi & Hy & _).
    assert (y = r) as ->.
    { unfold hasId in Hy. destruct (heap w !! y) as [t'|] eqn:Hy'; [|discriminate].
      injection Hy as Hy.
      apply (unique_ref w r y t t' Hwf Hr Ht); [|assumption|congruence].
      apply list_elem_of_lookup. eauto. }
    rewrite (bind_read r _ w t Ht), bind_modify.
    destruct (insert_at_split (openTrades w) i r (fresh (dom (heap w))) Hi)
      as (l1 & l2 & Hl & Hins).
    destruct (save_keeps_store
                (set_openTrades (insert i (fresh (dom (heap w))))
                   (set_heap (insert (fresh (dom (heap w))) (spread t updates)) w)))
      as (w' & Hrun & Hs).
    exists l1, l2, w'. split; [exact Hl|]. split; [exact Hrun|].
    destruct Hs as (H1 & H2 & H3). repeat split; simpl in *; try assumption.
    now rewrite H2, Hins.
  - apply list_find_None in Hf. rewrite Forall_forall in Hf.
    destruct (Hf r Hr). unfold hasId. now rewrite Ht, <- Hid.
Qed.

Lemma spread_justHighWaterMark (v : Q) (t : OpenTrade) :
  spread t (justHighWaterMark v) = withHighWaterMark v t.
Proof. reflexivity. Qed.

Lemma withHighWaterMark_twice (v v' : Q) (t : OpenTrade) :
  withHighWaterMark v (withHighWaterMark v' t) = withHighWaterMark v t.
Proof. reflexivity. Qed.

(** Others than [r] among the stored references do not carry its id. *)
Lemma other_id (w : World) (r y : ref) (t t' : OpenTrade) :
  wellFormed w -> r ∈ openTrades w -> heap w !! r = Some t ->
  y ∈ openTrades w -> heap w !! y = Some t' -> y <> r -> id t' <> id t.
Proof.
  intros Hwf Hr Ht Hy Ht' Hne Hid. apply Hne.
  exact (unique_ref w r y t t' Hwf Hr Ht Hy Ht' Hid).
Qed.

Lemma elem_of_middle (l1 l2 : list ref) (r y : ref) :
  y ∈ l1 ++ r :: l2 <-> y = r \/ y ∈ l1 \/ y ∈ l2.
Proof. rewrite elem_of_app, elem_of_cons. tauto. Qed.

Lemma NoDup_middle (l1 l2 : list ref) (r : ref) :
  NoDup (l1 ++ r :: l2) <-> NoDup (l1 ++ l2) /\ (r ∉ l1) /\ (r ∉ l2).
Proof.
  rewrite !NoDup_app, NoDup_cons. split.
  - intros (H1 & Hd & Hr & H2). repeat split; try assumption.
    + intros y Hy Hy'. apply (Hd y Hy). apply elem_of_cons. now right.
    + intros Hr1. apply (Hd r Hr1). apply elem_of_cons. now left.
  - intros ((H1 & Hd & H2) & Hr1 & Hr2). repeat split; try assumption.
    intros y Hy Hy'. apply elem_of_cons in Hy' as [->|Hy']; [contradiction|].
    exact (Hd y Hy Hy').
Qed.

Lemma wellFormed_alter (w : World) (r : ref) (f : OpenTrade -> OpenTrade) :
  (forall t, id (f t) = id t) -> wellFormed w ->
  wellFormed (set_heap (alter f r) w).
Proof.
  intros Hf (Hnd & Hdom & Huniq). split; [exact Hnd|]. split; simpl.
  - intros y Hy. apply lookup_alter_is_Some. now apply Hdom.
  - assert (Hl : forall y t', alter f r (heap w) !! y = Some t' ->
              exists t0, heap w !! y = Some t0 /\ id t' = id t0).
    { intros y t' Hl. destruct (decide (y = r)) as [->|Hne].
      - rewrite lookup_alter_eq in Hl. destruct (heap w !! r) as [t0|]; [|discriminate].
        injection Hl as <-. exists t0. auto.
      - rewrite lookup_alter_ne in Hl by congruence. exists t'. auto. }
    intros r1 r2 t1 t2 H1 H2 Hl1 Hl2 Hid.
    destruct (Hl r1 t1 Hl1) as (a1 & Ha1 & Hi1).
    destruct (Hl r2 t2 Hl2) as (a2 & Ha2 & Hi2).
    apply (Huniq r1 r2 a1 a2); congruence.
Qed.

Lemma stored_same_id (w : World) (t t' : OpenTrade) :
  wellFormed w -> stored w t -> stored w t' -> id t' = id t -> t' = t.
Proof.
  intros Hwf (r & Hr & Ht) (r' & Hr' & Ht') Hid.
  assert (r' = r) as -> by exact (unique_ref w r r' t t' Hwf Hr Ht Hr' Ht' Hid).
  congruence.
Qed.

Lemma maxOf_base (b1 b2 : Q) (ps : list Q) :
  (b1 == b2)%Q -> (maxOf b1 ps == maxOf b2 ps)%Q.
Proof.
  unfold maxOf. revert b1 b2. induction ps as [|p ps IH]; intros b1 b2 H; simpl.
  - exact H.
  - apply IH. now rewrite H.
Qed.

Lemma loaded_wellFormed : wellFormed loaded.
Proof.
  split; [apply NoDup_singleton|]. split.
  - intros r Hr. simpl in *. apply list_elem_of_singleton in Hr as ->.
    rewrite lookup_singleton_eq. eauto.
  - intros r1 r2 t1 t2 H1 H2 _ _ _. simpl in *.
    apply list_elem_of_singleton in H1, H2. congruence.
Qed.

(** *** One visit, as a function of the trade *)

Lemma visit_fields (answer : option Q) (t : OpenTrade) :
  id (visit answer t) = id t /\ price (visit answer t) = price t /\
  toToken (visit answer t) = toToken t /\ toChain (visit answer t) = toChain t /\
  toSpecificChain (visit answer t) = toSpecificChain t.
Proof.
  unfold visit. destruct (unset (highWaterMark t)); cbv zeta;
    destruct answer as [c|]; simpl; auto.
  - destruct (Num.ltb (price t) c); auto.
  - destruct (highWaterMark t) as [m|]; auto. destruct (Num.ltb m c); auto.
Qed.

Lemma priceFor_visit (api : Recall) (answer : option Q) (t : OpenTrade) :
  priceFor api (visit answer t) = priceFor api t.
Proof.
  destruct (visit_fields answer t) as (_ & _ & H1 & H2 & H3).
  unfold priceFor. now rewrite H1, H2, H3.
Qed.

Lemma monitored_snoc (apis : list Recall) (api : Recall) (t : OpenTrade) :
  monitored (apis ++ [api]) t =
  visit (priceFor api (monitored apis t)) (monitored apis t).
Proof. unfold monitored. now rewrite fold_left_app. Qed.

Lemma monitored_fields (apis : list Recall) (t : OpenTrade) :
  id (monitored apis t) = id t /\ price (monitored apis t) = price t /\
  forall api, priceFor api (monitored apis t) = priceFor api t.
Proof.
  revert t. induction apis as [|a apis IH]; intros t; [auto|].
  change (monitored (a :: apis) t) with (monitored apis (visit (priceFor a t) t)).
  destruct (IH (visit (priceFor a t) t)) as (H1 & H2 & H3).
  destruct (visit_fields (priceFor a t) t) as (F1 & F2 & _).
  split; [congruence|]. split; [congruence|].
  intros api. now rewrite H3, priceFor_visit.
Qed.

(** The first lines of the body leave the mark in force recorded. *)
Lemma defaulted_mark (t : OpenTrade) :
  highWaterMark (if unset (highWaterMark t)
                 then withHighWaterMark (price t) t else t) =
  Some (markInForce t).
Proof.
  unfold unset, markInForce. destruct (highWaterMark t) as [v|] eqn:E.
  - destruct (Qeq_bool v 0); [reflexivity|exact E].
  - reflexivity.
Qed.

Lemma markInForce_recorded (v : Q) (t : OpenTrade) :
  highWaterMark t = Some v -> (0 < v)%Q -> markInForce t = v.
Proof.
  intros H Hv. unfold markInForce. rewrite H.
  destruct (Qeq_bool v 0) eqn:E; [|reflexivity].
  apply Qeq_bool_iff in E. lra.
Qed.

Lemma visit_mark (answer : option Q) (t : OpenTrade) :
  (0 < markInForce t)%Q ->
  (0 < markInForce (visit answer t))%Q /\
  (markInForce (visit answer t) ==
   match answer with
   | Some p => Qmax (markInForce t) p
   | None => markInForce t
   end)%Q /\
  highWaterMark (visit answer t) = Some (markInForce (visit answer t)).
Proof.
  intros Hpos. unfold visit. cbv zeta.
  pose proof (defaulted_mark t) as Hd.
  set (t1 := if unset (highWaterMark t)
             then withHighWaterMark (price t) t else t) in *.
  pose proof (markInForce_recorded _ t1 Hd Hpos) as Hm1.
  rewrite Hd.
  assert (Hkeep : (0 < markInForce t1)%Q /\ (markInForce t1 == markInForce t)%Q /\
                  highWaterMark t1 = Some (markInForce t1)).
  { rewrite Hm1. split; [exact Hpos|]. split; [reflexivity|exact Hd]. }
  destruct answer as [c|]; [|exact Hkeep].
  destruct (Num.ltb (markInForce t) c) eqn:Hlt.
  - assert (Hlt' : (markInForce t < c)%Q).
    { unfold Num.ltb in Hlt. apply negb_true_iff in Hlt.
      apply Qnot_le_lt. intros Hle. apply Qle_bool_iff in Hle. congruence. }
    rewrite markInForce_with by lra.
    split; [lra|]. split; [|reflexivity].
    symmetry. apply Q.max_r. lra.
  - assert (Hle : (c <= markInForce t)%Q).
    { unfold Num.ltb in Hlt. apply negb_false_iff in Hlt. now apply Qle_bool_iff. }
    destruct Hkeep as (K1 & K2 & K3). split; [exact K1|]. split; [|exact K3].
    rewrite K2. symmetry. apply Q.max_l. exact Hle.
Qed.

Lemma pricesFor_cons (api : Recall) (apis : list Recall) (t : OpenTrade) :
  pricesFor (api :: apis) t =
  match priceFor api t with
  | Some p => p :: pricesFor apis t
  | None => pricesFor apis t
  end.
Proof. unfold pricesFor. simpl. now destruct (priceFor api t). Qed.

Lemma pricesFor_visit (apis : list Recall) (answer : option Q) (t : OpenTrade) :
  pricesFor apis (visit answer t) = pricesFor apis t.
Proof.
  induction apis as [|a apis IH]; [reflexivity|].
  now rewrite !pricesFor_cons, priceFor_visit, IH.
Qed.

(** After the passes [apis] the mark in force is the largest of the mark
    before and the prices they obtained. *)
Lemma monitored_mark (apis : list Recall) :
  forall t, (0 < markInForce t)%Q ->
    (0 < markInForce (monitored apis t))%Q /\
    (markInForce (monitored apis t) ==
     maxOf (markInForce t) (pricesFor apis t))%Q.
Proof.
  induction apis as [|a apis IH]; intros t Hpos.
  - split; [exact Hpos|reflexivity].
  - change (monitored (a :: apis) t) with (monitored apis (visit (priceFor a t) t)).
    destruct (visit_mark (priceFor a t) t Hpos) as (V1 & V2 & _).
    destruct (IH _ V1) as (I1 & I2). split; [exact I1|].
    rewrite I2, pricesFor_visit, pricesFor_cons.
    destruct (priceFor a t) as [p|].
    + change (maxOf (markInForce t) (p :: pricesFor apis t))
        with (maxOf (Qmax (markInForce t) p) (pricesFor apis t)).
      now apply maxOf_base.
    + now apply maxOf_base.
Qed.

Lemma monitored_recorded (apis : list Recall) (t : OpenTrade) :
  (0 < markInForce t)%Q -> apis <> [] ->
  highWaterMark (monitored apis t) = Some (markInForce (monitored apis t)).
Proof.
  intros Hpos Hne. destruct (exists_last Hne) as (front & a & ->).
  rewrite monitored_snoc.
  apply visit_mark. apply monitored_mark. exact Hpos.
Qed.

(** *** The event log *)

Lemma visits_snoc_entry (log : list (Event * outcome unit)) (apis : list Recall)
  (trade : OpenTrade) (o : outcome unit) :
  visits log apis -> visits (log ++ [(Entry trade, o)]) apis.
Proof.
  induction 1; simpl; try (constructor; assumption).
  apply visits_entry, visits_nil.
Qed.

Lemma visits_snoc_pass (log : list (Event * outcome unit)) (apis : list Recall)
  (api : Recall) (o : outcome unit) :
  visits log apis -> visits (log ++ [(Pass api, o)]) (apis ++ [api]).
Proof.
  induction 1; simpl; try (constructor; assumption).
  apply visits_pass, visits_nil.
Qed.

Lemma visits_snoc_cut (log : list (Event * outcome unit)) (apis : list Recall)
  (api : Recall) (e : Error) :
  visits log apis -> visits (log ++ [(Pass api, Rejected e)]) apis.
Proof.
  induction 1; simpl; try (constructor; assumption).
  apply visits_cut, visits_nil.
Qed.

(** *** One iteration of the loop *)

Lemma wellFormed_filter (w : World) (P : ref -> Prop) `{!forall r, Decision (P r)} :
  wellFormed w -> wellFormed (set_openTrades (filter P) w).
Proof.
  intros (Hnd & Hdom & Huniq).
  assert (Hsub : forall r, r ∈ filter P (openTrades w) -> r ∈ openTrades w).
  { intros r Hr. apply list_elem_of_filter in Hr. tauto. }
  split; [|split]; simpl.
  - now apply NoDup_filter.
  - intros r Hr. apply Hdom. now apply Hsub.
  - intros r1 r2 t1 t2 H1 H2. apply Huniq; now apply Hsub.
Qed.

Lemma wellFormed_sameStore (w w' : World) :
  sameStore w w' -> wellFormed w -> wellFormed w'.
Proof. intros (Hh & Ho & _). unfold wellFormed. now rewrite Hh, Ho. Qed.

Lemma bodyPost_sameStore (w w1 w2 : World) (r : ref) (t' : OpenTrade) :
  sameStore w1 w2 -> bodyPost w r t' w1 -> bodyPost w r t' w2.
Proof.
  intros Hs (Hwf & Ho & Hc). pose proof Hs as (Hh & Hoo & _).
  split; [exact (wellFormed_sameStore w1 w2 Hs Hwf)|]. split.
  - intros r2 Hne Hr2. rewrite Hh, Hoo. now apply Ho.
  - intros y Hy. rewrite Hh. apply Hc. now rewrite <- Hoo.
Qed.

(** The first lines of the body: a missing mark is set to the entry price,
    on the object the store holds. *)
Lemma default_post (w : World) (r : ref) (t : OpenTrade) :
  wellFormed w -> r ∈ openTrades w -> heap w !! r = Some t ->
  let t1 := if unset (highWaterMark t)
            then withHighWaterMark (price t) t else t in
  let wA := if unset (highWaterMark t)
            then set_heap (alter (withHighWaterMark (price t)) r) w else w in
  bodyPost w r t1 wA /\ openTrades wA = openTrades w /\ heap wA !! r = Some t1.
Proof.
  intros Hwf Hr Ht t1 wA.
  assert (HA : wellFormed wA /\ openTrades wA = openTrades w /\
               heap wA !! r = Some t1 /\
               forall r2, r2 <> r -> heap wA !! r2 = heap w !! r2).
  { subst wA t1. destruct (unset (highWaterMark t)).
    - split; [apply wellFormed_alter; [reflexivity|assumption]|].
      split; [reflexivity|]. split; simpl.
      + now rewrite lookup_alter_eq, Ht.
      + intros r2 Hne. now rewrite lookup_alter_ne by congruence.
    - auto. }
  destruct HA as (HwfA & HoA & HtA & Hoth).
  split; [|auto]. split; [exact HwfA|]. split.
  - intros r2 Hne Hr2. rewrite HoA. auto.
  - intros y Hy. rewrite HoA in Hy.
    destruct (decide (y = r)) as [->|Hne]; [right; exact HtA|left; auto].
Qed.

(** Logging the price changes nothing in the store. *)
Lemma bodyPost_observe (w wA : World) (r : ref) (t' : OpenTrade) (x : string) (p : Q) :
  bodyPost w r t' wA -> bodyPost w r t' (observe x p wA).
Proof. intros H. exact H. Qed.

(** The mark is raised: on the object the store holds, then on a copy that
    takes its place in the array. *)
Lemma raise_post (w wA : World) (r : ref) (t t1 : OpenTrade) (cur : Q) :
  wellFormed w -> r ∈ openTrades w -> heap w !! r = Some t ->
  bodyPost w r t1 wA -> openTrades wA = openTrades w ->
  heap wA !! r = Some t1 -> id t1 = id t ->
  exists wB,
    (modify (set_heap (alter (withHighWaterMark cur) r)) ;;
     updateOpenTrade (id t) (justHighWaterMark cur)) wA = (Resolved tt, wB) /\
    bodyPost w r (withHighWaterMark cur t1) wB /\
    heap wB !! r = Some (withHighWaterMark cur t1).
Proof.
  intros Hwf Hr Ht (HwfA & HoA & HcA) Hsame HtA Hid.
  rewrite bind_modify.
  set (w1 := set_heap (alter (withHighWaterMark cur) r) wA).
  assert (Hwf1 : wellFormed w1) by (apply wellFormed_alter; [reflexivity|exact HwfA]).
  assert (Hr1 : r ∈ openTrades w1) by (simpl; now rewrite Hsame).
  assert (Ht1 : heap w1 !! r = Some (withHighWaterMark cur t1)).
  { subst w1. simpl. now rewrite lookup_alter_eq, HtA. }
  destruct (updateOpenTrade_run w1 r _ (id t) (justHighWaterMark cur)
              Hwf1 Hr1 Ht1 Hid)
    as (l1 & l2 & wB & Hl & Hrun & HhB & HoB & HsB).
  simpl in HhB, HoB, HsB, Hl.
  set (r' := fresh (dom (heap w1))) in *.
  assert (Hfresh : heap w1 !! r' = None).
  { apply not_elem_of_dom. apply is_fresh. }
  assert (Hold : forall y, y ∈ openTrades wA -> y <> r').
  { intros y Hy ->. destruct (proj1 (proj2 Hwf1) r') as [? E]; [exact Hy|].
    rewrite Hfresh in E. discriminate. }
  pose proof (proj1 HwfA) as Hnd. rewrite Hl in Hnd.
  apply NoDup_middle in Hnd as (Hnd & Hn1 & Hn2).
  assert (Hlook : forall y, y <> r' -> y <> r -> heap wB !! y = heap wA !! y).
  { intros y H1 H2. rewrite HhB.
    rewrite lookup_insert_ne by (intros E; apply H1; symmetry; exact E).
    subst w1. simpl.
    now rewrite lookup_alter_ne by (intros E; apply H2; symmetry; exact E). }
  assert (Hnew : heap wB !! r' = Some (withHighWaterMark cur t1)).
  { rewrite HhB, lookup_insert_eq. reflexivity. }
  assert (Hne : r <> r').
  { apply Hold. now rewrite Hsame. }
  assert (HtB : heap wB !! r = Some (withHighWaterMark cur t1)).
  { rewrite HhB.
    rewrite lookup_insert_ne by (intros E; apply Hne; symmetry; exact E). exact Ht1. }
  exists wB. split; [exact Hrun|]. split; [|exact HtB].
  assert (Hmem : forall y, y ∈ openTrades wB ->
            y = r' \/ (y <> r' /\ y <> r /\ y ∈ openTrades wA)).
  { intros y Hy. rewrite HoB in Hy. apply elem_of_middle in Hy as [->|Hy]; [now left|].
    right. assert (Hin : y ∈ openTrades wA) by (rewrite Hl; apply elem_of_middle; auto).
    split; [now apply Hold|]. split; [|exact Hin].
    intros ->. tauto. }
  split; [|split].
  - split; [|split].
    + rewrite HoB. apply NoDup_middle. split; [exact Hnd|].
      split; intros Hy; apply (Hold r'); try reflexivity;
        rewrite Hl; apply elem_of_middle; auto.
    + intros y Hy. destruct (Hmem y Hy) as [->|(H1 & H2 & H3)]; [rewrite Hnew; eauto|].
      rewrite (Hlook y H1 H2). now apply (proj1 (proj2 HwfA)).
    + intros y1 y2 a1 a2 H1 H2 E1 E2 Hi.
      assert (Hr' : forall y a, y <> r' -> y <> r -> y ∈ openTrades wA ->
                heap wB !! y = Some a -> id a <> id t).
      { intros y a N1 N2 Hy E. rewrite (Hlook y N1 N2) in E.
        rewrite <- Hid.
        apply (other_id wA r y t1 a HwfA); assumption. }
      destruct (Hmem y1 H1) as [->|(N1 & M1 & I1)];
      destruct (Hmem y2 H2) as [->|(N2 & M2 & I2)].
      * reflexivity.
      * rewrite Hnew in E1. injection E1 as <-.
        destruct (Hr' y2 a2 N2 M2 I2 E2). rewrite <- Hi. exact Hid.
      * rewrite Hnew in E2. injection E2 as <-.
        destruct (Hr' y1 a1 N1 M1 I1 E1). rewrite Hi. exact Hid.
      * rewrite (Hlook y1 N1 M1) in E1. rewrite (Hlook y2 N2 M2) in E2.
        exact (proj2 (proj2 HwfA) y1 y2 a1 a2 I1 I2 E1 E2 Hi).
  - intros r2 Hne2 Hr2. destruct (HoA r2 Hne2 Hr2) as [Hin Hh].
    assert (N : r2 <> r') by now apply Hold.
    split.
    + rewrite HoB. rewrite Hl in Hin.
      apply elem_of_middle in Hin as [->|Hin]; [contradiction|].
      apply elem_of_middle. auto.
    + now rewrite (Hlook r2 N Hne2).
  - intros y Hy. destruct (Hmem y Hy) as [->|(H1 & H2 & H3)]; [right; exact Hnew|].
    left. split; [exact H2|]. now rewrite <- Hsame.
Qed.

(** The position is closed: the references carrying its id leave the
    array. *)
Lemma remove_post (w wB : World) (r : ref) (t t' : OpenTrade) :
  wellFormed w -> r ∈ openTrades w -> heap w !! r = Some t ->
  bodyPost w r t' wB ->
  bodyPost w r t' (snd (removeOpenTrade (id t) wB)).
Proof.
  intros Hwf Hr Ht (HwfB & Ho & Hc).
  destruct (removeOpenTrade_run wB (id t)) as (wC & Hrun & Hs).
  rewrite Hrun. simpl snd. apply (bodyPost_sameStore w _ wC r t' Hs).
  split; [now apply wellFormed_filter|]. split.
  - intros r2 Hne Hr2. destruct (Ho r2 Hne Hr2) as [Hin Hh]. simpl.
    split; [|exact Hh]. apply list_elem_of_filter. split; [|exact Hin].
    unfold hasId. rewrite Hh.
    destruct (proj1 (proj2 Hwf) r2 Hr2) as [t2 Ht2]. rewrite Ht2. simpl.
    intros [= E]. exact (other_id w r r2 t t2 Hwf Hr Ht Hr2 Ht2 Hne E).
  - intros y Hy. simpl in Hy. apply list_elem_of_filter in Hy as [_ Hy].
    simpl. now apply Hc.
Qed.

(** The last lines of the body: the stop test, and the sale. *)
Lemma stop_post (sp : StrategyParameters) (api : Recall) (w wB : World)
  (r : ref) (t t' t2 : OpenTrade) (cur : Q) :
  wellFormed w -> r ∈ openTrades w -> heap w !! r = Some t ->
  bodyPost w r t' wB ->
  bodyPost w r t'
    (snd (match highWaterMark t2 with
          | Some mark =>
              let stopPrice := (mark * (1 - trailingStopLoss sp))%Q in
              if Num.leb cur stopPrice then
                (if executeTrade api (toToken t) (fromToken t) (toAmount t)
                 then ret tt else throw TradeRejected) ;;
                removeOpenTrade (id t)
              else ret tt
          | None => ret tt
          end wB)).
Proof.
  intros Hwf Hr Ht HB.
  destruct (highWaterMark t2) as [mark|]; [|exact HB].
  cbv zeta. destruct (Num.leb cur _); [|exact HB].
  destruct (executeTrade api _ _ _); [|exact HB].
  rewrite bind_ret. now apply (remove_post w wB r t t').
Qed.

(** One iteration on a stored trade leaves in the store what [visit] makes
    of it, or nothing of it, and does not touch the others. *)
Lemma monitorBody_post (sp : StrategyParameters) (api : Recall) (r : ref)
  (w : World) (t : OpenTrade) :
  wellFormed w -> r ∈ openTrades w -> heap w !! r = Some t ->
  bodyPost w r (visit (priceFor api t) t) (snd (monitorBody sp api r w)).
Proof.
  intros Hwf Hr Ht.
  unfold monitorBody. rewrite (bind_read r _ w t Ht).
  destruct (default_post w r t Hwf Hr Ht) as (HpA & HoA & HtA).
  unfold visit, priceFor. cbv zeta.
  set (t1 := if unset (highWaterMark t)
             then withHighWaterMark (price t) t else t) in *.
  set (wA := if unset (highWaterMark t)
             then set_heap (alter (withHighWaterMark (price t)) r) w else w) in *.
  set (K := fun _ : unit => match getPrice api (toToken t) (toChain t) (toSpecificChain t)
                            with
                            | Rejected e => _
                            | Resolved None => _
                            | Resolved (Some c) => _
                            end).
  assert (HK : bind (if unset (highWaterMark t)
                     then modify (set_heap (alter (withHighWaterMark (price t)) r))
                     else ret tt) K w = K tt wA).
  { subst wA. destruct (unset (highWaterMark t)); reflexivity. }
  rewrite HK. subst K. cbv beta.
  assert (Hid1 : id t1 = id t) by (subst t1; destruct (unset _); reflexivity).
  destruct (getPrice api (toToken t) (toChain t) (toSpecificChain t))
    as [[cur|]|e]; [|exact HpA|exact HpA].
  rewrite bind_modify.
  rewrite (bind_read r _ (observe (id t) cur wA) t1 HtA). cbv beta.
  destruct (highWaterMark t1) as [mark|] eqn:Hm.
  - destruct (Num.ltb mark cur).
    + destruct (raise_post w (observe (id t) cur wA) r t t1 cur Hwf Hr Ht
                  (bodyPost_observe w wA r t1 (id t) cur HpA) HoA HtA Hid1)
        as (wB & Hrun & HpB & HtB).
      unfold bind at 1. rewrite Hrun.
      rewrite (bind_read r _ wB _ HtB). cbv beta.
      now apply stop_post.
    + rewrite bind_ret.
      rewrite (bind_read r _ (observe (id t) cur wA) t1 HtA). cbv beta.
      now apply stop_post.
  - rewrite bind_ret.
    rewrite (bind_read r _ (observe (id t) cur wA) t1 HtA). cbv beta.
    now apply stop_post.
Qed.

(** *** A pass *)

Lemma for_of_post (sp : StrategyParameters) (api : Recall) (w0 : World) :
  forall (rest : list ref) (w : World),
    NoDup rest -> (forall r, r ∈ rest -> r ∈ openTrades w0) ->
    passInv api w0 rest w ->
    exists rest',
      passInv api w0 rest' (snd (for_of rest (monitorBody sp api) w)) /\
      (forall r, r ∈ rest' -> r ∈ rest) /\
      (rest' = [] \/ exists e, fst (for_of rest (monitorBody sp api) w) = Rejected e).
Proof.
  induction rest as [|r rest IH]; intros w Hnd Hin HI.
  - exists []. simpl. auto.
  - apply NoDup_cons in Hnd as [Hr Hnd].
    destruct HI as (Hwf & Hrest & Harr).
    destruct (Hrest r ltac:(left)) as [Hrw Hh].
    destruct (proj1 (proj2 Hwf) r Hrw) as [t Ht].
    assert (Hst : stored w0 t).
    { exists r. split; [apply Hin; left|congruence]. }
    pose proof (monitorBody_post sp api r w t Hwf Hrw Ht) as (Hwf1 & Ho1 & Hc1).
    assert (HI1 : passInv api w0 rest (snd (monitorBody sp api r w))).
    { split; [exact Hwf1|]. split.
      - intros r2 Hr2.
        assert (Hne : r2 <> r) by (intros ->; contradiction).
        destruct (Hrest r2 ltac:(now right)) as [Hin2 Hh2].
        destruct (Ho1 r2 Hne Hin2) as [Ha Hb]. split; [exact Ha|congruence].
      - intros y Hy. destruct (Hc1 y Hy) as [[Hne Hyw]|Hv].
        + destruct (Harr y Hyw) as [Hyr|(t0 & Ht0 & Hy0)].
          * left. apply elem_of_cons in Hyr as [->|Hyr]; [contradiction|exact Hyr].
          * right. exists t0. split; [exact Ht0|].
            now rewrite (proj2 (Ho1 y Hne Hyw)).
        + right. exists t. auto. }
    simpl. unfold bind.
    destruct (monitorBody sp api r w) as [[[]|e] w1]; simpl in *.
    + destruct (IH w1 Hnd (fun y Hy => Hin y ltac:(now right)) HI1)
        as (rest' & H1 & H2 & H3).
      exists rest'. split; [exact H1|]. split; [|exact H3].
      intros y Hy. right. now apply H2.
    + exists rest. split; [exact HI1|]. split; [intros y Hy; now right|].
      right. now exists e.
Qed.

(** After a pass the store is well formed, and a stored trade is what
    [visit] makes of a trade stored before, or a trade stored before that a
    rejected pass did not come to. *)
Lemma monitorOpenPositions_post (sp : StrategyParameters) (api : Recall) (w : World) :
  wellFormed w ->
  wellFormed (snd (monitorOpenPositions sp api w)) /\
  forall t', stored (snd (monitorOpenPositions sp api w)) t' ->
    exists t, stored w t /\
      (t' = visit (priceFor api t) t \/
       (t' = t /\ exists e, fst (monitorOpenPositions sp api w) = Rejected e)).
Proof.
  intros Hwf. unfold monitorOpenPositions, getOpenTrades. rewrite bind_gets.
  destruct (for_of_post sp api w (openTrades w) w (proj1 Hwf) (fun r H => H))
    as (rest' & (Hwf' & Hrest & Harr) & Hsub & Hend).
  { split; [exact Hwf|]. split; [auto|]. intros y Hy. now left. }
  split; [exact Hwf'|].
  intros t' (y & Hy & Ht'). destruct (Harr y Hy) as [Hyr|(t & Ht & Hv)].
  - exists t'. destruct (Hrest y Hyr) as [_ Hh]. split.
    + exists y. split; [now apply Hsub|congruence].
    + right. split; [reflexivity|].
      destruct Hend as [->|He]; [|exact He]. now apply elem_of_nil in Hyr.
  - exists t. split; [exact Ht|]. left. congruence.
Qed.

(** *** A new position *)

Lemma addOpenTrade_post (trade : OpenTrade) (w : World) :
  wellFormed w -> (forall t, stored w t -> id t <> id trade) ->
  wellFormed (snd (addOpenTrade trade w)) /\
  forall t', stored (snd (addOpenTrade trade w)) t' -> t' = trade \/ stored w t'.
Proof.
  intros (Hnd & Hdom & Huniq) Hfresh.
  unfold addOpenTrade. rewrite bind_modify.
  set (r' := fresh (dom (heap w))).
  set (w1 := set_openTrades (fun rs => rs ++ [r']) (set_heap (insert r' trade) w)).
  destruct (save_keeps_store w1) as (w2 & Hrun & Hs). rewrite Hrun. simpl snd.
  assert (Hnone : heap w !! r' = None) by (apply not_elem_of_dom, is_fresh).
  assert (Hne : forall y, y ∈ openTrades w -> y <> r').
  { intros y Hy ->. destruct (Hdom r' Hy) as [? ?]. congruence. }
  assert (Hobj : forall y t', y ∈ openTrades w1 -> heap w1 !! y = Some t' ->
            (y = r' /\ t' = trade) \/ (y ∈ openTrades w /\ heap w !! y = Some t')).
  { intros y t' Hy Ht'. simpl in *. apply elem_of_app in Hy as [Hy|Hy].
    - right. rewrite lookup_insert_ne in Ht' by (intros E; exact (Hne y Hy (eq_sym E))).
      auto.
    - apply list_elem_of_singleton in Hy as ->. rewrite lookup_insert_eq in Ht'.
      left. split; congruence. }
  split.
  - apply (wellFormed_sameStore w1 w2 Hs). split; [|split].
    + simpl. apply NoDup_app. split; [exact Hnd|]. split; [|apply NoDup_singleton].
      intros y Hy Hy'. apply list_elem_of_singleton in Hy'. exact (Hne y Hy Hy').
    + intros y Hy. simpl in *. apply elem_of_app in Hy as [Hy|Hy].
      * rewrite lookup_insert_ne by (intros E; exact (Hne y Hy (eq_sym E))).
        now apply Hdom.
      * apply list_elem_of_singleton in Hy as ->. rewrite lookup_insert_eq. eauto.
    + intros y1 y2 t1 t2 H1 H2 Ht1 Ht2 Hid.
      destruct (Hobj y1 t1 H1 Ht1) as [[-> ->]|[Hi1 Hh1]];
      destruct (Hobj y2 t2 H2 Ht2) as [[-> ->]|[Hi2 Hh2]].
      * reflexivity.
      * destruct (Hfresh t2); [now exists y2|congruence].
      * destruct (Hfresh t1); [now exists y1|congruence].
      * exact (Huniq y1 y2 t1 t2 Hi1 Hi2 Hh1 Hh2 Hid).
  - intros t' Ht'. apply (stored_sameStore w1 w2 t' Hs) in Ht'.
    destruct Ht' as (y & Hy & Hty).
    destruct (Hobj y t' Hy Hty) as [[-> ->]|[Hi Hh']]; [now left|].
    right. now exists y.
Qed.

(** *** Through the log *)

(** Every stored trade is a trade of the first store, or one recorded
    since, after the passes that went over it. *)
Lemma reaches_history (sp : StrategyParameters) (w0 w : World)
  (log : list (Event * outcome unit)) :
  wellFormed w0 -> reaches sp w0 log w ->
  wellFormed w /\
  forall trade', stored w trade' ->
    exists trade since visited,
      (stored w0 trade /\ since = log \/
       exists before o, log = before ++ (Entry trade, o) :: since) /\
      visits since visited /\
      trade' = monitored visited trade.
Proof.
  intros Hwf0. induction 1 as [|log w ev Hreach [Hwf IH] Hfresh].
  - split; [exact Hwf0|]. intros trade' Ht'.
    exists trade', [], []. split; [left; auto|]. split; [constructor|reflexivity].
  - destruct ev as [api|trade0]; simpl happen.
    + destruct (monitorOpenPositions_post sp api w Hwf) as [Hwf' Hpass].
      split; [exact Hwf'|]. intros trade'' Ht''.
      destruct (Hpass trade'' Ht'') as (trade' & Ht' & Hcase).
      destruct (IH trade' Ht') as (trade & since & visited & Horigin & Hvis & Heq).
      set (o := fst (monitorOpenPositions sp api w)) in *.
      assert (Horigin' :
                stored w0 trade /\ since ++ [(Pass api, o)] = log ++ [(Pass api, o)] \/
                exists before o', log ++ [(Pass api, o)] =
                                  before ++ (Entry trade, o') :: since ++ [(Pass api, o)]).
      { destruct Horigin as [[H0 ->]|(before & o' & ->)]; [left; auto|].
        right. exists before, o'. now rewrite <- app_assoc. }
      destruct Hcase as [->|[-> [e He]]].
      * exists trade, (since ++ [(Pass api, o)]), (visited ++ [api]).
        split; [exact Horigin'|]. split; [now apply visits_snoc_pass|].
        now rewrite monitored_snoc, <- Heq.
      * exists trade, (since ++ [(Pass api, o)]), visited.
        split; [exact Horigin'|]. split; [|exact Heq].
        rewrite He. now apply visits_snoc_cut.
    + destruct (addOpenTrade_post trade0 w Hwf (Hfresh trade0 eq_refl)) as [Hwf' Hadd].
      split; [exact Hwf'|]. intros trade' Ht'.
      set (o := fst (addOpenTrade trade0 w)) in *.
      destruct (Hadd trade' Ht') as [->|Hold].
      * exists trade0, [], []. split; [|split; [constructor|reflexivity]].
        right. exists log, o. reflexivity.
      * destruct (IH trade' Hold) as (trade & since & visited & Horigin & Hvis & Heq).
        exists trade, (since ++ [(Entry trade0, o)]), visited.
        split; [|split; [now apply visits_snoc_entry|exact Heq]].
        destruct Horigin as [[H0 ->]|(before & o' & ->)]; [left; auto|].
        right. exists before, o'. now rewrite <- app_assoc.
Qed.

(** C9.  Through any number of monitoring passes and new positions, from a
    well-formed store: a stored trade is a trade of the first store, or one
    recorded since, as the passes that went over it since then have left it
    (every pass that resolved, and each rejected pass unless its loop ended
    before it came to the trade), each pass doing what [visit] says with the
    price the exchange answered for the trade: a missing mark is set to the
    entry price, and the mark is moved to the price when the price is above
    it.  The id and the entry price are kept.  For a trade whose mark in
    force (the recorded mark, or the entry price while none is recorded) was
    positive, the mark in force is then the largest of that mark and the
    prices obtained for the trade; it is not below the mark before, and once
    a pass has gone over the trade it is the recorded [highWaterMark]. *)
Theorem highWaterMark_tracks_maximum (sp : StrategyParameters) (w0 w : World)
  (log : list (Event * outcome unit)) (trade' : OpenTrade) :
  wellFormed w0 -> reaches sp w0 log w -> stored w trade' ->
  exists trade since visited,
    (stored w0 trade /\ since = log \/
     exists before o, log = before ++ (Entry trade, o) :: since) /\
    visits since visited /\
    trade' = monitored visited trade /\
    id trade' = id trade /\ price trade' = price trade /\
    ((0 < markInForce trade)%Q ->
     (markInForce trade' ==
      maxOf (markInForce trade) (pricesFor visited trade))%Q /\
     (markInForce trade <= markInForce trade')%Q /\
     (visited <> [] -> highWaterMark trade' = Some (markInForce trade'))).
Proof.
  intros Hwf0 Hreach Ht'.
  destruct (proj2 (reaches_history sp w0 w log Hwf0 Hreach) trade' Ht')
    as (trade & since & visited & Horigin & Hvis & ->).
  exists trade, since, visited.
  split; [exact Horigin|]. split; [exact Hvis|]. split; [reflexivity|].
  destruct (monitored_fields visited trade) as (Hid & Hprice & _).
  split; [exact Hid|]. split; [exact Hprice|].
  intros Hpos. destruct (monitored_mark visited trade Hpos) as [_ Hmax].
  split; [exact Hmax|]. split.
  - rewrite Hmax. apply (maxOf_app_le (markInForce trade) [] _).
  - intros Hne. now apply monitored_recorded.
Qed.

(** The position of [loaded], bought at 100 without a mark, through a pass
    at 105 and a pass at 104: the mark is 105. *)
Lemma highWaterMark_tracks_maximum_witness :
  let w1 := snd (monitorOpenPositions initialParameters (quote 105) loaded) in
  let w2 := snd (monitorOpenPositions initialParameters (quote 104) w1) in
  let log := [(Pass (quote 105), Resolved tt); (Pass (quote 104), Resolved tt)] in
  wellFormed loaded /\ reaches initialParameters loaded log w2 /\
  stored w2 (withHighWaterMark 105 link) /\
  exists trade since visited,
    (stored loaded trade /\ since = log \/
     exists before o, log = before ++ (Entry trade, o) :: since) /\
    visits since visited /\
    withHighWaterMark 105 link = monitored visited trade /\
    id (withHighWaterMark 105 link) = id trade /\
    price (withHighWaterMark 105 link) = price trade /\
    ((0 < markInForce trade)%Q ->
     (markInForce (withHighWaterMark 105 link) ==
      maxOf (markInForce trade) (pricesFor visited trade))%Q /\
     (markInForce trade <= markInForce (withHighWaterMark 105 link))%Q /\
     (visited <> [] ->
      highWaterMark (withHighWaterMark 105 link) =
      Some (markInForce (withHighWaterMark 105 link)))).
Proof.
  intros w1 w2 log.
  assert (Hreach : reaches initialParameters loaded log w2).
  { exact (reaches_snoc initialParameters loaded
             [(Pass (quote 105), Resolved tt)] w1 (Pass (quote 104))
             (reaches_snoc initialParameters loaded [] loaded (Pass (quote 105))
                (reaches_nil initialParameters loaded)
                (fun trade E => match E with end))
             (fun trade E => match E with end)). }
  assert (Hst : stored w2 (withHighWaterMark 105 link)).
  { exists 1%nat. split; [apply list_elem_of_In; left|]; reflexivity. }
  split; [exact loaded_wellFormed|]. split; [exact Hreach|]. split; [exact Hst|].
  exact (highWaterMark_tracks_maximum initialParameters loaded w2 log
           (withHighWaterMark 105 link) loaded_wellFormed Hreach Hst).
Defined.

(** The pass of the witness at 105, run: the mark goes from none to 105, on
    a copy of the object that takes its place in the array. *)
Example pass_at_105 :
  let w := snd (monitorOpenPositions initialParameters (quote 105) loaded) in
  map highWaterMark (objects (heap w) (openTrades w)) = [Some 105%Q] /\
  openTrades w = [1%nat].
Proof. vm_compute. auto. Qed.

(** A pass whose price request rejects is rejected; the missing mark has
    been set to the entry price on the stored object before. *)
Example pass_unreachable :
  let res := monitorOpenPositions initialParameters unreachable loaded in
  fst res = Rejected RequestFailed /\
  map highWaterMark (objects (heap (snd res)) (openTrades (snd res))) = [Some 100%Q].
Proof. vm_compute. auto. Qed.

End IntradayFacts.

(** ** The comparisons of conditionals *)

Module NumFacts.

Lemma geb_iff (a b : Q) : Num.geb a b = true <-> (b <= a)%Q.
Proof. unfold Num.geb. apply Qle_bool_iff. Qed.

Lemma leb_iff (a b : Q) : Num.leb a b = true <-> (a <= b)%Q.
Proof. unfold Num.leb. apply Qle_bool_iff. Qed.

Lemma ltb_iff (a b : Q) : Num.ltb a b = true <-> (a < b)%Q.
Proof.
  unfold Num.ltb. rewrite negb_true_iff. split.
  - intros H. apply Qnot_le_lt. intros Hle. apply Qle_bool_iff in Hle. congruence.
  - intros H. destruct (Qle_bool b a) eqn:E; [|reflexivity].
    apply Qle_bool_iff in E. lra.
Qed.

End NumFacts.

(** ** More on the indicators *)

Module IndicatorBounds.

Import Indicators.
Local Open Scope Q_scope.

Lemma fold_sum_shift (l : list Q) (a : Q) :
  fold_left Qplus l a == a + Num.sum l.
Proof.
  unfold Num.sum. revert a.
  induction l as [|x l IH]; intros a; simpl.
  - lra.
  - rewrite (IH (a + x)), (IH (0 + x)). lra.
Qed.

Lemma sum_cons (x : Q) (l : list Q) : Num.sum (x :: l) == x + Num.sum l.
Proof. unfold Num.sum at 1. simpl. rewrite fold_sum_shift. lra. Qed.

Lemma sum_app (l1 l2 : list Q) : Num.sum (l1 ++ l2) == Num.sum l1 + Num.sum l2.
Proof.
  unfold Num.sum at 1. rewrite fold_left_app, fold_sum_shift. reflexivity.
Qed.

Lemma ofNat_S (n : nat) : Num.ofNat (S n) == Num.ofNat n + 1.
Proof.
  unfold Num.ofNat. rewrite Nat2Z.inj_succ, <- Z.add_1_r, inject_Z_plus.
  reflexivity.
Qed.

Lemma ofNat_nonneg (n : nat) : 0 <= Num.ofNat n.
Proof. unfold Num.ofNat. change 0 with (inject_Z 0). rewrite <- Zle_Qle. lia. Qed.

Lemma ofNat_pos (n : nat) : (1 <= n)%nat -> 1 <= Num.ofNat n.
Proof.
  intros H. unfold Num.ofNat. change 1 with (inject_Z 1).
  rewrite <- Zle_Qle. lia.
Qed.

Lemma sum_upper (hi : Q) (l : list Q) :
  Forall (fun p => p <= hi) l -> Num.sum l <= hi * Num.ofNat (length l).
Proof.
  induction 1 as [|x l Hx _ IH].
  - change (Num.sum []) with 0. change (Num.ofNat (length [])) with 0. lra.
  - cbv beta in Hx. cbn [length]. rewrite sum_cons, ofNat_S. lra.
Qed.

Lemma sum_lower (lo : Q) (l : list Q) :
  Forall (fun p => lo <= p) l -> lo * Num.ofNat (length l) <= Num.sum l.
Proof.
  induction 1 as [|x l Hx _ IH].
  - change (Num.sum []) with 0. change (Num.ofNat (length [])) with 0. lra.
  - cbv beta in Hx. cbn [length]. rewrite sum_cons, ofNat_S. lra.
Qed.

Lemma sum_nonneg (l : list Q) : Forall (fun x => 0 <= x) l -> 0 <= Num.sum l.
Proof.
  induction 1 as [|x l Hx _ IH].
  - unfold Num.sum. simpl. lra.
  - cbv beta in Hx. rewrite sum_cons. lra.
Qed.

Lemma div_nonneg (s n : Q) : 0 < n -> 0 <= s -> 0 <= s / n.
Proof. intros Hn Hs. apply Qle_shift_div_l; [assumption|lra]. Qed.

Lemma ltb_true (a b : Q) : Num.ltb a b = true -> a < b.
Proof.
  unfold Num.ltb. intros H. apply negb_true_iff in H.
  destruct (Qlt_le_dec a b) as [Hlt|Hle]; [assumption|].
  apply Qle_bool_iff in Hle. congruence.
Qed.

Lemma ltb_false (a b : Q) : Num.ltb a b = false -> b <= a.
Proof.
  unfold Num.ltb. intros H. apply negb_false_iff in H.
  now apply Qle_bool_iff.
Qed.

(** *** Simple moving average *)

Lemma window_length (data : list Q) (j period : nat) :
  (j + period <= length data)%nat ->
  length (firstn period (skipn j data)) = period.
Proof. intros H. rewrite length_firstn, length_skipn. lia. Qed.

Lemma calculateSMA_nth (data : list Q) (period j : nat) :
  (1 <= period)%nat -> (j + period <= length data)%nat ->
  nth j (calculateSMA data period) 0 =
  Num.sum (firstn period (skipn j data)) / Num.ofNat period.
Proof.
  intros Hp Hj. unfold calculateSMA.
  destruct (Nat.ltb_spec (length data) period); [lia|].
  set (f := fun i : nat => _).
  rewrite (nth_indep _ 0 (f 0%nat)) by (rewrite length_map, length_seq; lia).
  rewrite map_nth, seq_nth by lia.
  subst f. cbv beta zeta. unfold slice.
  replace (period - 1 + j - (period - 1))%nat with j by lia.
  replace (period - 1 + j + 1 - j)%nat with period by lia.
  reflexivity.
Qed.

Lemma calculateSMA_length (data : list Q) (period : nat) :
  (1 <= period)%nat ->
  length (calculateSMA data period) =
  if (length data <? period)%nat then 0%nat else (length data - period + 1)%nat.
Proof.
  intros Hp. unfold calculateSMA.
  destruct (Nat.ltb_spec (length data) period); [reflexivity|].
  rewrite length_map, length_seq. lia.
Qed.

(** X1.  For a period of at least 1, [calculateSMA] returns the empty
    sequence on fewer than [period] prices and otherwise
    [length - period + 1] values, the one at position [j] being the mean of
    the [period] prices from position [j] on. *)
Theorem calculateSMA_windows (data : list Q) (period : nat) :
  (1 <= period)%nat ->
  ((length data < period)%nat -> calculateSMA data period = []) /\
  ((period <= length data)%nat ->
     length (calculateSMA data period) = (length data - period + 1)%nat /\
     forall j, (j < length data - period + 1)%nat ->
       nth j (calculateSMA data period) 0 =
       Num.sum (firstn period (skipn j data)) / Num.ofNat period).
Proof.
  intros Hp. split.
  - intros Hlt. unfold calculateSMA.
    destruct (Nat.ltb_spec (length data) period); [reflexivity|lia].
  - intros Hle. split.
    + unfold calculateSMA.
      destruct (Nat.ltb_spec (length data) period); [lia|].
      rewrite length_map, length_seq. lia.
    + intros j Hj. apply calculateSMA_nth; lia.
Qed.

Lemma calculateSMA_windows_witness :
  (1 <= 3)%nat /\
  length (calculateSMA [1; 2; 3; 4; 5] 3) = 3%nat /\
  Forall2 Qeq (calculateSMA [1; 2; 3; 4; 5] 3) [2; 3; 4].
Proof.
  split; [lia|]. split.
  - exact (proj1 (proj2 (calculateSMA_windows [1; 2; 3; 4; 5] 3 ltac:(lia))
                    ltac:(simpl; lia))).
  - repeat constructor; vm_compute; reflexivity.
Defined.

(** X2.  A simple moving average of non-negative prices is non-negative:
    when no price is below 0, no value of [calculateSMA] is.  (Every value
    is a sum of prices divided by the period.) *)
Theorem calculateSMA_nonneg (data : list Q) (period : nat) :
  (1 <= period)%nat ->
  Forall (fun p => 0 <= p) data ->
  Forall (fun x => 0 <= x) (calculateSMA data period).
Proof.
  intros Hp Hdata. apply List.Forall_forall. intros x Hx.
  apply (In_nth _ _ 0) in Hx. destruct Hx as (j & Hj & <-).
  rewrite calculateSMA_length in Hj by assumption.
  destruct (Nat.ltb_spec (length data) period) as [Hlt|Hle]; [lia|].
  rewrite calculateSMA_nth by lia.
  apply div_nonneg; [pose proof (ofNat_pos period Hp); lra|].
  apply sum_nonneg. apply Forall_take, Forall_drop, Hdata.
Qed.

Lemma calculateSMA_nonneg_witness :
  Forall (fun x => 0 <= x) (calculateSMA [1; 2; 3; 4; 5] 3).
Proof.
  apply (calculateSMA_nonneg [1; 2; 3; 4; 5] 3); [lia|].
  repeat constructor; vm_compute; discriminate.
Defined.

(** *** Exponential moving average *)

Lemma ema_k_range (period : nat) : (1 <= period)%nat -> 0 < ema_k period <= 1.
Proof.
  intros Hp. pose proof (ofNat_pos period Hp) as H. unfold ema_k. split.
  - apply Qlt_shift_div_l; lra.
  - apply Qle_shift_div_r; lra.
Qed.

Lemma ema_loop_nonneg (k : Q) (rest : list Q) : forall prev,
  0 <= k <= 1 -> 0 <= prev -> Forall (fun p => 0 <= p) rest ->
  Forall (fun x => 0 <= x) (ema_loop k prev rest).
Proof.
  induction rest as [|p rest IH]; intros prev Hk Hprev Hrest; simpl.
  - constructor.
  - inversion Hrest as [|? ? Hp Hrest']; subst. cbv beta in Hp.
    assert (He : 0 <= p * k + prev * (1 - k)) by nra.
    constructor; [exact He|]. apply IH; assumption.
Qed.

(** X3.  An exponential moving average of non-negative prices is
    non-negative: for a period of at least 1 the smoothing factor lies in
    (0, 1], and every value is the first price or a weighted sum, with
    non-negative weights, of a price and the value before it. *)
Theorem calculateEMA_nonneg (prices : list Q) (period : nat) :
  (1 <= period)%nat ->
  Forall (fun p => 0 <= p) prices ->
  Forall (fun x => 0 <= x) (calculateEMA prices period).
Proof.
  intros Hp Hprices. unfold calculateEMA.
  destruct (length prices <? period)%nat; [constructor|].
  destruct prices as [|p0 rest]; [constructor|].
  inversion Hprices as [|? ? H0 Hrest]; subst. cbv beta in H0.
  constructor; [exact H0|].
  apply ema_loop_nonneg; [|assumption|assumption].
  pose proof (ema_k_range period Hp). lra.
Qed.

Lemma calculateEMA_nonneg_witness :
  Forall (fun x => 0 <= x) (calculateEMA [10; 20; 30] 2).
Proof.
  apply (calculateEMA_nonneg [10; 20; 30] 2); [lia|].
  repeat constructor; vm_compute; discriminate.
Defined.

(** *** Relative strength index *)

Lemma rsi_value_range (avgGain avgLoss : Q) :
  0 <= avgGain -> 0 <= avgLoss -> 0 <= rsi_value avgGain avgLoss <= 100.
Proof.
  intros Hg Hl. unfold rsi_value.
  destruct (Qeq_bool avgLoss 0) eqn:E.
  - split; vm_compute; discriminate.
  - apply Qeq_bool_neq in E.
    assert (Hl' : 0 < avgLoss).
    { destruct (Qlt_le_dec 0 avgLoss) as [H|H]; [assumption|].
      exfalso. apply E. lra. }
    pose proof (div_nonneg avgGain avgLoss Hl' Hg) as Hrs.
    set (rs := avgGain / avgLoss) in *.
    assert (H1 : 0 < 100 / (1 + rs)) by (apply Qlt_shift_div_l; lra).
    assert (H2 : 100 / (1 + rs) <= 100) by (apply Qle_shift_div_r; lra).
    lra.
Qed.

Lemma rsi_seed_nonneg (prices : list Q) : forall n i g l,
  0 <= g -> 0 <= l ->
  0 <= fst (rsi_seed prices i n g l) /\ 0 <= snd (rsi_seed prices i n g l).
Proof.
  induction n as [|n IH]; intros i g l Hg Hl; simpl; [split; assumption|].
  destruct (Num.ltb 0 _) eqn:E.
  - apply ltb_true in E. apply IH; lra.
  - apply ltb_false in E. apply IH; lra.
Qed.

Lemma rsi_smooth_range (prices : list Q) (period : Q) : forall n i g l,
  1 <= period -> 0 <= g -> 0 <= l ->
  Forall (fun r => 0 <= r <= 100) (rsi_smooth prices period i n g l).
Proof.
  induction n as [|n IH]; intros i g l Hp Hg Hl; simpl; [constructor|].
  set (change := at_ prices i - at_ prices (i - 1)).
  assert (Hgain : 0 <= (if Num.ltb 0 change then change else 0)).
  { destruct (Num.ltb 0 change) eqn:E; [apply ltb_true in E|]; lra. }
  assert (Hloss : 0 <= (if Num.ltb change 0 then - change else 0)).
  { destruct (Num.ltb change 0) eqn:E; [apply ltb_true in E|]; lra. }
  assert (Hg' : 0 <= (g * (period - 1) + (if Num.ltb 0 change then change else 0)) / period).
  { apply div_nonneg; [lra|]. nra. }
  assert (Hl' : 0 <= (l * (period - 1) + (if Num.ltb change 0 then - change else 0)) / period).
  { apply div_nonneg; [lra|]. nra. }
  constructor; [apply rsi_value_range; assumption|].
  apply IH; assumption.
Qed.

Lemma rsi_smooth_length (prices : list Q) (period : Q) : forall n i g l,
  length (rsi_smooth prices period i n g l) = n.
Proof. induction n as [|n IH]; intros; simpl; [reflexivity|]. now rewrite IH. Qed.

(** X4.  For a period of at least 1, [calculateRSI] returns
    [length - period] values (none when the series has at most [period]
    prices), and every one of them lies between 0 and 100. *)
Theorem calculateRSI_range (prices : list Q) (period : nat) :
  (1 <= period)%nat ->
  length (calculateRSI prices period) = (length prices - period)%nat /\
  Forall (fun r => 0 <= r <= 100) (calculateRSI prices period).
Proof.
  intros Hp. pose proof (ofNat_pos period Hp) as Hq.
  unfold calculateRSI.
  destruct (Nat.leb_spec (length prices) period) as [Hle|Hgt].
  - split; [simpl; lia|constructor].
  - pose proof (rsi_seed_nonneg prices period 1 0 0) as Hseed.
    destruct (rsi_seed prices 1 period 0 0) as [g l]. simpl in Hseed.
    destruct Hseed as [Hg Hl]; [lra|lra|].
    assert (Hg' : 0 <= g / Num.ofNat period) by (apply div_nonneg; lra).
    assert (Hl' : 0 <= l / Num.ofNat period) by (apply div_nonneg; lra).
    split.
    + cbn [length]. rewrite rsi_smooth_length. lia.
    + constructor; [apply rsi_value_range; assumption|].
      apply rsi_smooth_range; assumption.
Qed.

Lemma calculateRSI_range_witness :
  length (calculateRSI ramp15 14) = 1%nat /\
  Forall (fun r => 0 <= r <= 100) (calculateRSI ramp15 14).
Proof. apply (calculateRSI_range ramp15 14). lia. Defined.

(** *** Average true range *)

Lemma true_range_nonneg (hi lo prevClose : Q) : 0 <= true_range hi lo prevClose.
Proof.
  unfold true_range, Num.max3.
  apply Qle_trans with (Qabs (lo - prevClose)); [apply Qabs_nonneg|apply Q.le_max_r].
Qed.

Lemma trValues_nonneg (data : list Bar) : Forall (fun x => 0 <= x) (trValues data).
Proof.
  unfold trValues. apply List.Forall_forall. intros x Hx.
  apply in_map_iff in Hx. destruct Hx as (i & <- & _). apply true_range_nonneg.
Qed.

Lemma atr_loop_nonneg (period : Q) (rest : list Q) : forall last,
  1 <= period -> 0 <= last -> Forall (fun x => 0 <= x) rest ->
  Forall (fun x => 0 <= x) (atr_loop period last rest).
Proof.
  induction rest as [|tr rest IH]; intros last Hp Hlast Hrest; simpl; [constructor|].
  inversion Hrest as [|? ? Htr Hrest']; subst. cbv beta in Htr.
  assert (H : 0 <= (last * (period - 1) + tr) / period).
  { apply div_nonneg; [lra|]. nra. }
  constructor; [exact H|]. apply IH; assumption.
Qed.

Lemma atr_loop_length (period : Q) (rest : list Q) : forall last,
  length (atr_loop period last rest) = length rest.
Proof. induction rest as [|tr rest IH]; intros; simpl; [reflexivity|]. now rewrite IH. Qed.

(** X5.  For a period of at least 1, the array [calculateATR] returns
    [length - period] values (none when there are at most [period] bars),
    and none of them is negative, whatever the bars hold. *)
Theorem calculateATR_nonneg (data : list Bar) (period : nat) :
  (1 <= period)%nat ->
  length (calculateATR data period) = (length data - period)%nat /\
  Forall (fun x => 0 <= x) (calculateATR data period).
Proof.
  intros Hp. pose proof (ofNat_pos period Hp) as Hq.
  pose proof (trValues_nonneg data) as Htr.
  unfold calculateATR.
  destruct (Nat.leb_spec (length data) period) as [Hle|Hgt].
  - split; [simpl; lia|constructor].
  - assert (H0 : 0 <= Num.sum (firstn period (trValues data)) / Num.ofNat period).
    { apply div_nonneg; [lra|]. apply sum_nonneg, Forall_take, Htr. }
    split.
    + cbn [length]. rewrite atr_loop_length, length_skipn.
      unfold trValues. rewrite length_map, length_seq. lia.
    + constructor; [exact H0|].
      apply atr_loop_nonneg; [assumption|assumption|]. apply Forall_drop, Htr.
Qed.

Lemma calculateATR_nonneg_witness :
  length (calculateATR [mkBar 2 1 1; mkBar 3 1 2; mkBar 5 2 4] 1) = 2%nat /\
  Forall (fun x => 0 <= x) (calculateATR [mkBar 2 1 1; mkBar 3 1 2; mkBar 5 2 4] 1).
Proof. apply (calculateATR_nonneg [mkBar 2 1 1; mkBar 3 1 2; mkBar 5 2 4] 1). lia. Defined.

Lemma trueRanges_bars (ohlcData : list (list Q)) :
  trueRanges ohlcData = trValues (map barOfRow ohlcData).
Proof.
  unfold trueRanges, trValues. rewrite length_map.
  apply map_ext. intros i. unfold cell, true_range.
  change bar0 with (barOfRow []). rewrite !map_nth. reflexivity.
Qed.

Lemma atr_fold_last (period : Q) (rest : list Q) : forall first,
  fold_left (fun atr t => (atr * (period - 1) + t) / period) rest first =
  List.last (first :: atr_loop period first rest) 0.
Proof.
  induction rest as [|tr rest IH]; intros first; [reflexivity|].
  cbn [fold_left atr_loop]. rewrite IH. reflexivity.
Qed.

(** X6.  The two ATR variants agree: on more than [period] candles the
    number returned by the pullback bot's [calculateATR] is the last value of
    the array returned by the combined bot's [calculateATR] on the same
    candles. *)
Theorem calculateATR_scalar_is_last (ohlcData : list (list Q)) (period : nat) :
  (1 <= period)%nat ->
  (period < length ohlcData)%nat ->
  calculateATR_scalar ohlcData period =
  List.last (calculateATR (map barOfRow ohlcData) period) 0.
Proof.
  intros Hp Hlen. unfold calculateATR_scalar, calculateATR.
  rewrite length_map.
  destruct (Nat.ltb_spec (length ohlcData) period); [lia|].
  destruct (Nat.leb_spec (length ohlcData) period); [lia|].
  rewrite trueRanges_bars. apply atr_fold_last.
Qed.

Lemma calculateATR_scalar_is_last_witness :
  calculateATR_scalar [[0; 1; 2; 1; 1]; [0; 1; 3; 1; 2]; [0; 2; 5; 2; 4]] 1 =
  List.last (calculateATR [mkBar 2 1 1; mkBar 3 1 2; mkBar 5 2 4] 1) 0.
Proof.
  apply (calculateATR_scalar_is_last
           [[0; 1; 2; 1; 1]; [0; 1; 3; 1; 2]; [0; 2; 5; 2; 4]] 1); simpl; lia.
Defined.

(** *** MACD *)

Lemma calculateEMA_length (prices : list Q) (period : nat) :
  length (calculateEMA prices period) =
  if (length prices <? period)%nat then 0%nat else length prices.
Proof.
  unfold calculateEMA. destruct (length prices <? period)%nat; [reflexivity|].
  destruct prices as [|p0 rest]; [reflexivity|].
  simpl. now rewrite IndicatorFacts.ema_loop_length.
Qed.

Lemma slice_from_0 (l : list Q) : slice_from 0 l = l.
Proof. unfold slice_from. simpl. destruct (length l); reflexivity. Qed.

Lemma slice_from_nil (z : Z) : slice_from z [] = [].
Proof. unfold slice_from. now rewrite skipn_nil. Qed.

Lemma nth_imap (f : nat -> Q -> Q) (l : list Q) : forall i,
  (i < length l)%nat -> nth i (imap f l) 0 = f i (nth i l 0).
Proof.
  revert f. induction l as [|x l IH]; intros f i Hi; simpl in Hi; [lia|].
  destruct i as [|i]; [reflexivity|].
  cbn [imap nth]. rewrite IH by lia. reflexivity.
Qed.

Lemma calculateEMA_head (prices : list Q) (period : nat) :
  (period <= length prices)%nat ->
  nth 0 (calculateEMA prices period) 0 = nth 0 prices 0.
Proof.
  intros H. unfold calculateEMA.
  destruct (Nat.ltb_spec (length prices) period); [lia|].
  destruct prices; reflexivity.
Qed.

(** X7.  For periods of at least 1, [calculateMACD] returns [null] exactly
    when the series is shorter than one of its three periods.  Otherwise the
    three arrays have the length of the series, position by position the MACD
    line is the short EMA minus the long EMA and the histogram is the MACD
    line minus the signal line, the signal line is the EMA of the MACD line,
    and the MACD line starts at 0. *)
Theorem calculateMACD_spec (prices : list Q) (shortPeriod longPeriod signalPeriod : nat) :
  (1 <= shortPeriod)%nat -> (1 <= longPeriod)%nat -> (1 <= signalPeriod)%nat ->
  match calculateMACD prices shortPeriod longPeriod signalPeriod with
  | None =>
      (length prices < longPeriod)%nat \/ (length prices < shortPeriod)%nat \/
      (length prices < signalPeriod)%nat
  | Some m =>
      (longPeriod <= length prices)%nat /\ (shortPeriod <= length prices)%nat /\
      (signalPeriod <= length prices)%nat /\
      length (macdLine m) = length prices /\
      length (signalLine m) = length prices /\
      length (histogram m) = length prices /\
      signalLine m = calculateEMA (macdLine m) signalPeriod /\
      nth 0 (macdLine m) 0 == 0 /\
      forall i, (i < length prices)%nat ->
        nth i (macdLine m) 0 =
          nth i (calculateEMA prices shortPeriod) 0
          - nth i (calculateEMA prices longPeriod) 0 /\
        nth i (histogram m) 0 = nth i (macdLine m) 0 - nth i (signalLine m) 0
  end.
Proof.
  intros Hs Hl Hg. unfold calculateMACD.
  destruct (Nat.ltb_spec (length prices) longPeriod) as [Hlt|Hlong]; [left; assumption|].
  pose proof (calculateEMA_length prices longPeriod) as HlenL.
  destruct (Nat.ltb_spec (length prices) longPeriod) as [|_] in HlenL; [lia|].
  pose proof (calculateEMA_length prices shortPeriod) as HlenS.
  destruct (Nat.ltb_spec (length prices) shortPeriod) as [Hshort|Hshort] in HlenS.
  - (* the short EMA is empty *)
    apply nil_length_inv in HlenS. rewrite HlenS, slice_from_nil. cbn [imap length].
    destruct (Nat.ltb_spec 0 signalPeriod); [|lia]. right; left; assumption.
  - rewrite HlenS, HlenL, Z.sub_diag, slice_from_0.
    set (macd := imap _ (calculateEMA prices shortPeriod)).
    assert (Hmacd : length macd = length prices)
      by (subst macd; rewrite length_imap; exact HlenS).
    rewrite Hmacd.
    destruct (Nat.ltb_spec (length prices) signalPeriod) as [Hsig|Hsig];
      [right; right; assumption|].
    pose proof (calculateEMA_length macd signalPeriod) as HlenG.
    rewrite Hmacd in HlenG.
    destruct (Nat.ltb_spec (length prices) signalPeriod) as [|_] in HlenG; [lia|].
    rewrite HlenG, Z.sub_diag, slice_from_0. cbn [macdLine signalLine histogram].
    assert (Hnth : forall i, (i < length prices)%nat ->
              nth i macd 0 = nth i (calculateEMA prices shortPeriod) 0
                             - nth i (calculateEMA prices longPeriod) 0).
    { intros i Hi. subst macd. rewrite nth_imap by lia. reflexivity. }
    repeat (split; [first [assumption | reflexivity | now rewrite length_imap]|]).
    split.
    + rewrite Hnth by lia. rewrite !calculateEMA_head by assumption. lra.
    + intros i Hi. split; [apply Hnth; assumption|].
      rewrite nth_imap by lia. reflexivity.
Qed.

Lemma calculateMACD_spec_witness :
  exists m,
    calculateMACD [1; 2; 3; 4; 5] 2 3 2 = Some m /\
    length (histogram m) = 5%nat /\ nth 0 (macdLine m) 0 == 0.
Proof.
  pose proof (calculateMACD_spec [1; 2; 3; 4; 5] 2 3 2
                ltac:(lia) ltac:(lia) ltac:(lia)) as H.
  destruct (calculateMACD [1; 2; 3; 4; 5] 2 3 2) as [m|] eqn:E.
  - exists m. split; [reflexivity|]. split; [apply H|apply H].
  - vm_compute in E. discriminate.
Defined.

(** *** Bollinger bands *)

Lemma slice_from_last (prices : list Q) (period : nat) :
  (1 <= period <= length prices)%nat ->
  slice_from (- Z.of_nat period) prices = skipn (length prices - period) prices.
Proof.
  intros H. unfold slice_from.
  destruct (Z.ltb_spec (- Z.of_nat period) 0) as [Hneg|Hzero]; [|lia].
  f_equal. lia.
Qed.



End IndicatorBounds.

(** ** Restarts and removals of the open-trade store *)

Module StoreFacts.

Import Async TradeManager.
Local Open Scope async_scope.

Ltac run_load :=
  cbv [loadOpenTrades addOpenTrade removeOpenTrade getOpenTrades saveOpenTrades
       fs_writeFile console try_catch bind ret gets modify set_openTrades emit
       next_fault openTrades file faults trace onDisk].

(** X9.  [loadOpenTrades] always resolves and leaves in memory what the file
    holds, or the empty list when the file is absent or cannot be parsed.
    It writes only when the file is absent; and loading a second time changes
    nothing in memory. *)
Theorem loadOpenTrades_spec (w : World) :
  exists w1 w2,
    loadOpenTrades w = (Resolved tt, w1) /\
    openTrades w1 = onDisk (file w) /\
    (file w <> Absent ->
       file w1 = file w /\ faults w1 = faults w /\ trace w1 = trace w) /\
    (file w = Absent ->
       writes (trace w1) = S (writes (trace w)) /\
       (next_fault w = WriteOk -> file w1 = Holds [])) /\
    loadOpenTrades w1 = (Resolved tt, w2) /\
    openTrades w2 = openTrades w1.
Proof.
  destruct w as [ts f fs tr]. destruct f as [|data|].
  - (* absent: the file is created *)
    run_load. destruct fs as [|[|d] fs]; simpl.
    + do 2 eexists. split; [reflexivity|]. simpl. split; [reflexivity|].
      split; [congruence|]. split; [|split; reflexivity].
      intros _. split; [|reflexivity].
      unfold writes. rewrite List.filter_app, length_app. simpl. lia.
    + do 2 eexists. split; [reflexivity|]. simpl. split; [reflexivity|].
      split; [congruence|]. split; [|split; reflexivity].
      intros _. split; [|reflexivity].
      unfold writes. rewrite List.filter_app, length_app. simpl. lia.
    + destruct d, fs as [|[|d'] fs]; simpl;
        (do 2 eexists; split; [reflexivity|]; simpl; split; [reflexivity|];
         split; [congruence|]; split; [|split; reflexivity];
         intros _; split; [|discriminate];
         unfold writes; rewrite !List.filter_app, !length_app; simpl; lia).
  - run_load. do 2 eexists. split; [reflexivity|]. simpl.
    repeat split; try reflexivity; discriminate.
  - run_load. do 2 eexists. split; [reflexivity|]. simpl.
    repeat split; try reflexivity; discriminate.
Qed.

(** After a write that succeeded, the file is in step with the memory. *)
Lemma addOpenTrade_saved (w : World) (p : OpenTrade) :
  next_fault w = WriteOk ->
  file (snd (addOpenTrade p w)) = Holds (openTrades w ++ [p]).
Proof.
  destruct w as [ts f fs tr]. run_load.
  destruct fs as [|[|d] fs]; simpl; intros H; [reflexivity|reflexivity|discriminate].
Qed.

Lemma addOpenTrade_unsaved (w : World) (p : OpenTrade) (d : bool) :
  next_fault w = WriteFails d ->
  file (snd (addOpenTrade p w)) = (if d then Damaged else file w) /\
  faults (snd (addOpenTrade p w)) = tl (faults w).
Proof.
  destruct w as [ts f fs tr]. run_load.
  destruct fs as [|[|d'] fs]; simpl; intros H; [discriminate|discriminate|].
  injection H as ->. split; reflexivity.
Qed.

Lemma loadOpenTrades_openTrades (w : World) :
  fst (loadOpenTrades w) = Resolved tt /\
  openTrades (snd (loadOpenTrades w)) = onDisk (file w).
Proof.
  destruct w as [ts f fs tr]. destruct f as [|data|]; run_load;
    [destruct fs as [|[|d] fs]|..]; simpl; auto.
Qed.

(** X10.  A position whose write succeeded survives a restart: after
    [addOpenTrade(p)] with a successful write, [loadOpenTrades] brings back
    exactly the list that was in memory, [p] included. *)
Theorem saved_trade_survives_restart (w : World) (p : OpenTrade) :
  next_fault w = WriteOk ->
  exists w',
    (addOpenTrade p ;; loadOpenTrades ;; getOpenTrades) w
      = (Resolved (openTrades w ++ [p]), w').
Proof.
  intros Hok.
  pose proof (TradeManagerFacts.addOpenTrade_openTrades w p) as [Hr _].
  pose proof (addOpenTrade_saved w p Hok) as Hfile.
  destruct (addOpenTrade p w) as [r w1] eqn:E1. simpl in Hr, Hfile. subst r.
  pose proof (loadOpenTrades_openTrades w1) as [Hr2 Hts2].
  destruct (loadOpenTrades w1) as [r w2] eqn:E2. simpl in Hr2, Hts2. subst r.
  exists w2. unfold bind, getOpenTrades, gets. rewrite E1, E2, Hts2, Hfile.
  reflexivity.
Qed.

Lemma saved_trade_survives_restart_witness :
  exists w',
    (addOpenTrade doge ;; loadOpenTrades ;; getOpenTrades)
      (mkWorld [pepe] (Holds [pepe]) [] [])
      = (Resolved [pepe; doge], w').
Proof.
  apply (saved_trade_survives_restart (mkWorld [pepe] (Holds [pepe]) [] []) doge).
  reflexivity.
Defined.

(** X11.  A position whose write failed is not brought back by a restart:
    after [addOpenTrade(p)] with a rejected write, which still resolves,
    [loadOpenTrades] leaves in memory what the file held before the call
    (nothing when the write damaged the file or no file existed).  So [p] is
    in memory after the restart only if the file already held it: when the
    file held no [p] there is none after the restart, although
    [addOpenTrade(p)] had put it in memory. *)
Theorem unsaved_trade_lost_on_restart (w : World) (p : OpenTrade) (d : bool) :
  next_fault w = WriteFails d ->
  exists w' ts,
    (addOpenTrade p ;; loadOpenTrades ;; getOpenTrades) w = (Resolved ts, w') /\
    ts = (if d then [] else onDisk (file w)) /\
    In p (openTrades (snd (addOpenTrade p w))) /\
    (~ In p (onDisk (file w)) -> ~ In p ts).
Proof.
  intros Hfail.
  pose proof (TradeManagerFacts.addOpenTrade_openTrades w p) as [Hr Hmem].
  pose proof (addOpenTrade_unsaved w p d Hfail) as [Hfile _].
  destruct (addOpenTrade p w) as [r w1] eqn:E1. simpl in Hr, Hfile, Hmem. subst r.
  pose proof (loadOpenTrades_openTrades w1) as [Hr2 Hts2].
  destruct (loadOpenTrades w1) as [r w2] eqn:E2. simpl in Hr2, Hts2. subst r.
  exists w2, (if d then [] else onDisk (file w)).
  split; [|split; [reflexivity|split]].
  - unfold bind, getOpenTrades, gets. rewrite E1, E2, Hts2, Hfile.
    destruct d; reflexivity.
  - simpl. rewrite Hmem. apply in_or_app. right. left. reflexivity.
  - intros Hno. destruct d; [intros []|exact Hno].
Qed.

Lemma unsaved_trade_lost_on_restart_witness :
  exists w' ts,
    (addOpenTrade doge ;; loadOpenTrades ;; getOpenTrades) disk_full
      = (Resolved ts, w') /\
    ts = [pepe] /\
    In doge (openTrades (snd (addOpenTrade doge disk_full))) /\
    (~ In doge (onDisk (file disk_full)) -> ~ In doge ts).
Proof. apply (unsaved_trade_lost_on_restart disk_full doge false). reflexivity. Defined.

Lemma filter_id_middle (l1 l2 : list OpenTrade) (t : OpenTrade) :
  NoDup (map id (l1 ++ t :: l2)) ->
  filter (fun x => id x <> id t) (l1 ++ t :: l2) = l1 ++ l2.
Proof.
  intros Hnd. rewrite map_app in Hnd. cbn [map] in Hnd.
  apply NoDup_app in Hnd. destruct Hnd as (_ & Hdisj & Hnd2).
  apply NoDup_cons in Hnd2. destruct Hnd2 as [Hnot _].
  rewrite filter_app, filter_cons_False by (intros H; apply H; reflexivity).
  rewrite !TradeManagerFacts.filter_id_all; [reflexivity| |].
  - intros x Hx E. apply Hnot. rewrite <- E.
    apply list_elem_of_In, in_map, Hx.
  - intros x Hx E. apply (Hdisj (id x)).
    + apply list_elem_of_In, in_map, Hx.
    + rewrite E. left.
Qed.

(** X12.  Unique ids are an invariant of the store, and with unique ids a
    removal takes out one position only: adding a trade with a fresh id and
    removing by id both keep the ids distinct, and [removeOpenTrade(t.id)]
    leaves the list with exactly the record [t] taken out of its place. *)
Theorem unique_ids_kept (w : World) :
  NoDup (map id (openTrades w)) ->
  (forall p, (forall t, In t (openTrades w) -> id t <> id p) ->
     NoDup (map id (openTrades (snd (addOpenTrade p w))))) /\
  (forall tradeId, NoDup (map id (openTrades (snd (removeOpenTrade tradeId w))))) /\
  (forall l1 t l2, openTrades w = l1 ++ t :: l2 ->
     openTrades (snd (removeOpenTrade (id t) w)) = l1 ++ l2).
Proof.
  intros Hnd. split; [|split].
  - intros p Hfresh.
    rewrite (proj2 (TradeManagerFacts.addOpenTrade_openTrades w p)).
    rewrite map_app. apply NoDup_app. split; [assumption|]. split.
    + intros x Hx Hp. apply list_elem_of_singleton in Hp. subst x.
      apply list_elem_of_In, in_map_iff in Hx. destruct Hx as (t & E & Ht).
      exact (Hfresh t Ht E).
    + apply NoDup_singleton.
  - intros tradeId.
    rewrite (proj2 (TradeManagerFacts.removeOpenTrade_openTrades w tradeId)).
    eapply sublist_NoDup; [exact Hnd|].
    apply (fmap_sublist id), sublist_filter.
  - intros l1 t l2 E.
    rewrite (proj2 (TradeManagerFacts.removeOpenTrade_openTrades w (id t))), E.
    apply filter_id_middle. rewrite <- E. exact Hnd.
Qed.

Lemma unique_ids_kept_witness :
  openTrades (snd (removeOpenTrade "t1" doge_pepe)) = [pepe].
Proof.
  assert (Hnd : NoDup (map id (openTrades doge_pepe))).
  { simpl. repeat constructor; rewrite ?elem_of_cons; [|apply not_elem_of_nil].
    intros [H|H]; [discriminate|]. revert H. apply not_elem_of_nil. }
  exact (proj2 (proj2 (unique_ids_kept doge_pepe Hnd)) [] doge [pepe] eq_refl).
Defined.

End StoreFacts.

(** ** The intraday store and its trailing stop *)

Module IntradayStoreFacts.

Import Async Intraday.
Local Open Scope async_scope.

Lemma objects_ext (h h' : gmap ref OpenTrade) (l : list ref) :
  (forall y, y ∈ l -> h' !! y = h !! y) -> objects h' l = objects h l.
Proof.
  unfold objects. induction l as [|y l IH]; intros H; [reflexivity|].
  cbn [omap list_omap]. rewrite (H y) by left.
  rewrite IH; [reflexivity|]. intros z Hz. apply H. now right.
Qed.

Lemma objects_app (h : gmap ref OpenTrade) (l1 l2 : list ref) :
  objects h (l1 ++ l2) = objects h l1 ++ objects h l2.
Proof. unfold objects. apply omap_app. Qed.

Lemma objects_cons (h : gmap ref OpenTrade) (r : ref) (t : OpenTrade) (l : list ref) :
  h !! r = Some t -> objects h (r :: l) = t :: objects h l.
Proof. intros H. unfold objects. cbn [omap list_omap]. now rewrite H. Qed.

Lemma map_other_ids (h : gmap ref OpenTrade) (l : list ref) (f : OpenTrade -> OpenTrade)
  (tradeId : string) :
  (forall y t, y ∈ l -> h !! y = Some t -> id t <> tradeId) ->
  map (fun x => if String.eqb (id x) tradeId then f x else x) (objects h l)
  = objects h l.
Proof.
  unfold objects. induction l as [|y l IH]; intros H; [reflexivity|].
  cbn [omap list_omap]. destruct (h !! y) as [t|] eqn:E.
  - cbn [map]. destruct (String.eqb_spec (id t) tradeId) as [Heq|_].
    + destruct (H y t ltac:(left) E Heq).
    + f_equal. apply IH. intros z t' Hz. apply H. now right.
  - apply IH. intros z t' Hz. apply H. now right.
Qed.

(** X13.  [updateOpenTrade(id, updates)] with an id no stored trade has
    leaves the store as it is: no change in memory and no write (a warning is
    printed).  With the id of a
    stored trade (ids being unique) it resolves, the array keeps its length
    and order, the trade with that id is replaced by [{ ...trade, ...updates }]
    and every other trade is untouched; the object that was in the array
    before is not modified, it is replaced by a new one. *)
Theorem updateOpenTrade_spec (w : World) (tradeId : string) (updates : Partial) :
  wellFormed w ->
  ((forall t, stored w t -> id t <> tradeId) ->
     updateOpenTrade tradeId updates w = (Resolved tt, w)) /\
  (forall r t, r ∈ openTrades w -> heap w !! r = Some t -> id t = tradeId ->
     exists w',
       updateOpenTrade tradeId updates w = (Resolved tt, w') /\
       length (openTrades w') = length (openTrades w) /\
       objects (heap w') (openTrades w') =
         map (fun x => if String.eqb (id x) tradeId then spread x updates else x)
             (objects (heap w) (openTrades w)) /\
       heap w' !! r = Some t /\ seen w' = seen w).
Proof.
  intros Hwf. split.
  - intros Hnone. unfold updateOpenTrade. rewrite IntradayFacts.bind_gets.
    destruct (list_find (hasId (heap w) tradeId) (openTrades w)) as [[i y]|] eqn:Hf;
      [|reflexivity].
    apply list_find_Some in Hf as (Hi & Hy & _). exfalso.
    unfold hasId in Hy. destruct (heap w !! y) as [t|] eqn:Hy'; [|discriminate].
    injection Hy as Hy. apply (Hnone t); [|exact Hy].
    exists y. split; [|exact Hy']. apply list_elem_of_lookup. eauto.
  - intros r t Hr Ht Hid.
    destruct (IntradayFacts.updateOpenTrade_run w r t tradeId updates Hwf Hr Ht Hid)
      as (l1 & l2 & w' & Hl & Hrun & Hh & Ho & Hs).
    simpl in Hh, Ho, Hs.
    set (r' := fresh (dom (heap w))) in *.
    assert (Hfresh : heap w !! r' = None) by apply not_elem_of_dom, is_fresh.
    destruct Hwf as (Hnd & Hdom & Huniq).
    assert (Hold : forall y, y ∈ openTrades w -> <[r' := spread t updates]> (heap w) !! y = heap w !! y).
    { intros y Hy. apply lookup_insert_ne. intros <-.
      destruct (Hdom r' Hy) as [? ?]. congruence. }
    assert (Hother : forall y t', y ∈ openTrades w -> y <> r -> heap w !! y = Some t' ->
                       id t' <> tradeId).
    { intros y t' Hy Hne Ht' E. apply Hne.
      apply (Huniq y r t' t Hy Hr Ht' Ht). congruence. }
    rewrite Hl in Hnd. apply IntradayFacts.NoDup_middle in Hnd as (_ & Hn1 & Hn2).
    exists w'. split; [exact Hrun|]. split; [|split; [|split]].
    + rewrite Ho, Hl, !length_app. reflexivity.
    + rewrite Hh, Ho, Hl, !objects_app.
      rewrite (objects_cons _ r' (spread t updates)) by apply lookup_insert_eq.
      rewrite (objects_cons _ r t _ Ht).
      rewrite map_app. cbn [map].
      rewrite (proj2 (String.eqb_eq (id t) tradeId) Hid).
      rewrite !map_other_ids.
      * f_equal; [|f_equal]; apply objects_ext; intros y Hy; apply Hold;
          rewrite Hl; apply IntradayFacts.elem_of_middle; auto.
      * intros y t' Hy Ht'. apply (Hother y t'); [| |exact Ht'].
        -- rewrite Hl. apply IntradayFacts.elem_of_middle. auto.
        -- intros ->. contradiction.
      * intros y t' Hy Ht'. apply (Hother y t'); [| |exact Ht'].
        -- rewrite Hl. apply IntradayFacts.elem_of_middle. auto.
        -- intros ->. contradiction.
    + rewrite Hh. rewrite lookup_insert_ne; [exact Ht|]. intros E.
      rewrite E in Hfresh. congruence.
    + exact Hs.
Qed.

Lemma updateOpenTrade_spec_witness :
  exists w',
    updateOpenTrade "t7" (justHighWaterMark 105) loaded = (Resolved tt, w') /\
    objects (heap w') (openTrades w') = [spread link (justHighWaterMark 105)].
Proof.
  destruct (proj2 (updateOpenTrade_spec loaded "t7" (justHighWaterMark 105)
                     IntradayFacts.loaded_wellFormed)
              0%nat link ltac:(simpl; left) eq_refl eq_refl)
    as (w' & Hrun & _ & Hobj & _).
  exists w'. split; [exact Hrun|]. rewrite Hobj. reflexivity.
Defined.

Lemma leb_false (a b : Q) : (b < a)%Q -> Num.leb a b = false.
Proof.
  intros H. unfold Num.leb. destruct (Qle_bool a b) eqn:E; [|reflexivity].
  apply Qle_bool_iff in E. lra.
Qed.

Lemma ltb_lt (a b : Q) : (a < b)%Q -> Num.ltb a b = true.
Proof.
  intros H. unfold Num.ltb. apply negb_true_iff.
  destruct (Qle_bool b a) eqn:E; [|reflexivity].
  apply Qle_bool_iff in E. lra.
Qed.

(** The mark the first lines of the loop body leave on the object: the
    recorded one, or the entry price when none was recorded. *)
Lemma defaulted (w : World) (r : ref) (t : OpenTrade) :
  wellFormed w -> heap w !! r = Some t ->
  let wA := if unset (highWaterMark t)
            then set_heap (alter (withHighWaterMark (price t)) r) w else w in
  wellFormed wA /\ openTrades wA = openTrades w /\ seen wA = seen w /\
  heap wA !! r = Some (withHighWaterMark (markInForce t) t).
Proof.
  intros Hwf Ht wA. subst wA. unfold markInForce, unset.
  destruct (highWaterMark t) as [v|] eqn:Hv.
  - destruct (Qeq_bool v 0) eqn:E.
    + split; [apply IntradayFacts.wellFormed_alter; [reflexivity|assumption]|].
      simpl. now rewrite lookup_alter_eq, Ht.
    + split; [assumption|]. repeat split. rewrite Ht. f_equal.
      destruct t; simpl in *; now subst.
  - split; [apply IntradayFacts.wellFormed_alter; [reflexivity|assumption]|].
    simpl. now rewrite lookup_alter_eq, Ht.
Qed.

(** X14.  A position is never sold in the iteration that raises its mark:
    with a positive trailing-stop fraction, when the price obtained for a
    stored trade is positive and above its mark in force, the loop body of
    the intraday [monitorOpenPositions] resolves whatever the exchange would
    answer to a closing order (none is sent), and leaves the trade in the
    store with the price as its new mark. *)
Theorem rising_price_keeps_position (sp : StrategyParameters) (api : Recall)
  (w : World) (r : ref) (t : OpenTrade) (cur : Q) :
  wellFormed w -> r ∈ openTrades w -> heap w !! r = Some t ->
  getPrice api (toToken t) (toChain t) (toSpecificChain t) = Resolved (Some cur) ->
  (0 < trailingStopLoss sp)%Q -> (0 < cur)%Q -> (markInForce t < cur)%Q ->
  exists w' t',
    monitorBody sp api r w = (Resolved tt, w') /\
    length (openTrades w') = length (openTrades w) /\
    stored w' t' /\ id t' = id t /\ price t' = price t /\
    highWaterMark t' = Some cur.
Proof.
  intros Hwf Hr Ht Hp Htsl Hcur Hlt.
  unfold monitorBody. rewrite (IntradayFacts.bind_read r _ w t Ht).
  destruct (defaulted w r t Hwf Ht) as (HwfA & HoA & HsA & HA).
  set (wA := if unset (highWaterMark t)
             then set_heap (alter (withHighWaterMark (price t)) r) w else w) in *.
  set (K := fun _ : unit => match getPrice api (toToken t) (toChain t) (toSpecificChain t)
                            with
                            | Rejected e => _
                            | Resolved None => _
                            | Resolved (Some c) => _
                            end).
  assert (HK : bind (if unset (highWaterMark t)
                     then modify (set_heap (alter (withHighWaterMark (price t)) r))
                     else ret tt) K w = K tt wA).
  { subst wA. destruct (unset (highWaterMark t)); reflexivity. }
  rewrite HK. subst K. cbv beta. rewrite Hp.
  rewrite IntradayFacts.bind_modify.
  set (h := markInForce t) in *.
  rewrite (IntradayFacts.bind_read r _ (observe (id t) cur wA) (withHighWaterMark h t) HA).
  cbv beta. change (highWaterMark (withHighWaterMark h t)) with (Some h).
  cbv beta iota. rewrite (ltb_lt h cur Hlt).
  (* the mark is raised *)
  set (w1 := set_heap (alter (withHighWaterMark cur) r) (observe (id t) cur wA)).
  assert (Hwf1 : wellFormed w1).
  { apply IntradayFacts.wellFormed_alter; [reflexivity|exact HwfA]. }
  assert (Hr1 : r ∈ openTrades w1) by (simpl; now rewrite HoA).
  assert (Ht1 : heap w1 !! r = Some (withHighWaterMark cur (withHighWaterMark h t))).
  { subst w1. simpl. now rewrite lookup_alter_eq, HA. }
  destruct (IntradayFacts.updateOpenTrade_run w1 r _ (id t) (justHighWaterMark cur)
              Hwf1 Hr1 Ht1 eq_refl)
    as (l1 & l2 & wB & Hl & Hrun & HhB & HoB & HsB).
  simpl in HhB, HoB, HsB.
  set (r' := fresh (dom (heap w1))) in *.
  assert (Hne : r <> r').
  { intros E. pose proof (is_fresh (dom (heap w1))) as H.
    apply not_elem_of_dom in H. fold r' in H. rewrite <- E in H.
    rewrite Ht1 in H. discriminate. }
  assert (HB : heap wB !! r = Some (withHighWaterMark cur (withHighWaterMark h t))).
  { rewrite HhB. rewrite lookup_insert_ne; [exact Ht1|].
    intros E. apply Hne. symmetry. exact E. }
  assert (Hraise :
    bind (bind (modify (set_heap (alter (withHighWaterMark cur) r)))
               (fun _ => updateOpenTrade (id (withHighWaterMark h t))
                                         (justHighWaterMark cur)))
         (fun _ => bind (read r) (fun trade2 =>
            match highWaterMark trade2 with
            | Some mark =>
                let stopPrice := (mark * (1 - trailingStopLoss sp))%Q in
                if Num.leb cur stopPrice
                then bind (if executeTrade api (toToken t) (fromToken t) (toAmount t)
                           then ret tt else throw TradeRejected)
                          (fun _ => removeOpenTrade (id t))
                else ret tt
            | None => ret tt
            end))
         (observe (id t) cur wA) = (Resolved tt, wB)).
  { rewrite IntradayFacts.bind_assoc, IntradayFacts.bind_modify. fold w1.
    change (id (withHighWaterMark h t)) with (id t).
    unfold bind at 1. rewrite Hrun.
    rewrite (IntradayFacts.bind_read r _ wB _ HB). cbv beta.
    change (highWaterMark (withHighWaterMark cur (withHighWaterMark h t)))
      with (Some cur).
    cbv beta iota zeta.
    rewrite leb_false; [reflexivity|]. nra. }
  exists wB, (spread (withHighWaterMark cur (withHighWaterMark h t))
                     (justHighWaterMark cur)).
  split; [exact Hraise|]. split; [|split; [|repeat split]].
  - rewrite HoB. simpl in Hl. rewrite HoA in Hl. rewrite Hl, !length_app. reflexivity.
  - exists r'. split.
    + rewrite HoB. apply IntradayFacts.elem_of_middle. auto.
    + rewrite HhB. apply lookup_insert_eq.
Qed.

Lemma rising_price_keeps_position_witness :
  exists w' t',
    monitorBody initialParameters (quote 105) 0%nat loaded = (Resolved tt, w') /\
    length (openTrades w') = 1%nat /\
    stored w' t' /\ id t' = "t7" /\ price t' = 100%Q /\
    highWaterMark t' = Some 105%Q.
Proof.
  apply (rising_price_keeps_position initialParameters (quote 105) loaded 0%nat link 105).
  - exact IntradayFacts.loaded_wellFormed.
  - simpl. left.
  - reflexivity.
  - reflexivity.
  - reflexivity.
  - reflexivity.
  - reflexivity.
Defined.

End IntradayStoreFacts.

(** ** Entries and performance tracking of the momentum bot *)

Module MomentumEntryFacts.

Import Async JsNumber TradeManager MomentumBot.
Local Open Scope async_scope.

Lemma ofNat_le (a b : nat) : (a <= b)%nat -> (Num.ofNat a <= Num.ofNat b)%Q.
Proof. intros H. unfold Num.ofNat. rewrite <- Zle_Qle. lia. Qed.

Lemma ofNat_ge_1 (n : nat) : (1 <= n)%nat -> (1 <= Num.ofNat n)%Q.
Proof. intros H. exact (ofNat_le 1 n H). Qed.

Lemma ofNat_inj (a b : nat) : (Num.ofNat a == Num.ofNat b)%Q -> a = b.
Proof.
  unfold Num.ofNat. intros H.
  pose proof (proj1 (inject_Z_injective (Z.of_nat a) (Z.of_nat b)) H). lia.
Qed.

Lemma profitable_le (pnls : list number) :
  (length (List.filter (fun p => gt_num p 0) pnls) <= length pnls)%nat.
Proof. apply List.filter_length_le. Qed.

(** X15.  [calculateWinRate] is a percentage: 0 for an empty history, and
    otherwise between 0 and 100, 0 exactly when no trade has a positive
    [pnl] and 100 exactly when every trade has one. *)
Theorem calculateWinRate_range (pnls : list number) :
  let profitable := length (List.filter (fun p => gt_num p 0) pnls) in
  (0 <= calculateWinRate pnls <= 100)%Q /\
  (pnls = [] -> calculateWinRate pnls = 0%Q) /\
  (calculateWinRate pnls == 0 <-> profitable = 0%nat)%Q /\
  (pnls <> [] -> (calculateWinRate pnls == 100)%Q <-> profitable = length pnls).
Proof.
  intros k. unfold calculateWinRate. fold k.
  pose proof (profitable_le pnls) as Hk. fold k in Hk.
  destruct pnls as [|p pnls]; [simpl in *|].
  - assert (k = 0)%nat as -> by lia.
    repeat split; try reflexivity; try lra; congruence.
  - set (n := length (p :: pnls)) in *.
    assert (Hn : (1 <= n)%nat) by (subst n; simpl; lia).
    change (n =? 0)%nat with false. cbv iota.
    pose proof (ofNat_ge_1 n Hn) as Hq.
    pose proof (ofNat_le k n Hk) as Hkq.
    pose proof (ofNat_le 0 k ltac:(lia)) as Hk0. change (Num.ofNat 0) with 0%Q in Hk0.
    assert (Hdiv : (Num.ofNat k / Num.ofNat n * Num.ofNat n == Num.ofNat k)%Q)
      by (field; lra).
    set (x := (Num.ofNat k / Num.ofNat n)%Q) in *.
    assert (Hx0 : (0 <= x)%Q) by (subst x; apply Qle_shift_div_l; lra).
    assert (Hx1 : (x <= 1)%Q) by (subst x; apply Qle_shift_div_r; lra).
    split; [split; lra|]. split; [discriminate|]. split.
    + split.
      * intros H. assert (Hx : (x == 0)%Q) by lra.
        rewrite Hx in Hdiv.
        assert (Hz : (Num.ofNat k == 0)%Q) by lra.
        apply (ofNat_inj k 0). exact Hz.
      * intros E. subst x. rewrite E. reflexivity.
    + intros _. split.
      * intros H. assert (Hx : (x == 1)%Q) by lra.
        rewrite Hx in Hdiv.
        assert (Hz : (Num.ofNat n == Num.ofNat k)%Q) by lra.
        symmetry. apply ofNat_inj. exact Hz.
      * intros E. subst x. rewrite E. field. lra.
Qed.




(** X17.  [trackPerformance] hands [adaptStrategy] a win rate in percent,
    which [adaptStrategy] compares with 0.5 and 0.6.  With at most 166 trades
    of which at least one has a positive [pnl], the win rate is at least
    100/166, clear of 0.6: the tightening branch is never taken, and what
    [adaptStrategy] does depends on the return only, the parameters being
    loosened exactly when it is above 0.1.  So [trackPerformance] loosens
    them when the portfolio is worth 11001 or more and leaves them alone
    when it is worth 10999 or less. *)
Theorem trackPerformance_by_value (sp : StrategyParameters) (pnls : list number) :
  (exists p, In p pnls /\ gt_num p 0 = true) ->
  (length pnls <= 166)%nat ->
  let loosened :=
    mkStrategyParameters (12 # 100) (stopLoss sp) (20 # 100)
                         (maxConcurrentPositions sp) (dailyLossLimit sp) in
  (6 # 10 < calculateWinRate pnls)%Q /\
  (forall pnl, adaptStrategy sp pnl (calculateWinRate pnls) =
               if Num.ltb (1 # 10) pnl then loosened else sp) /\
  (forall totalValue, (11001 <= totalValue)%Q ->
     trackPerformance sp totalValue pnls = loosened) /\
  (forall totalValue, (totalValue <= 10999)%Q ->
     trackPerformance sp totalValue pnls = sp).
Proof.
  intros (p & Hin & Hp) Hlen loosened.
  assert (Hrate : (100 # 166 <= calculateWinRate pnls)%Q).
  { unfold calculateWinRate.
    set (k := length (List.filter (fun p => gt_num p 0) pnls)).
    assert (Hk : (1 <= k)%nat).
    { subst k. assert (H : In p (List.filter (fun p => gt_num p 0) pnls))
        by (apply List.filter_In; auto).
      destruct (List.filter _ pnls); [destruct H|simpl; lia]. }
    assert (Hn : (1 <= length pnls)%nat).
    { pose proof (profitable_le pnls). fold k in H. lia. }
    destruct (Nat.eqb_spec (length pnls) 0); [lia|].
    pose proof (ofNat_ge_1 k Hk) as Hkq.
    pose proof (ofNat_ge_1 _ Hn) as Hnq.
    pose proof (ofNat_le _ 166 Hlen) as Hnq'.
    change (Num.ofNat 166) with 166%Q in Hnq'.
    set (x := (Num.ofNat k / Num.ofNat (length pnls))%Q).
    assert (Hx : (1 # 166 <= x)%Q).
    { subst x. apply Qle_shift_div_l; lra. }
    lra. }
  assert (Hadapt : forall pnl, adaptStrategy sp pnl (calculateWinRate pnls) =
                               if Num.ltb (1 # 10) pnl then loosened else sp).
  { intros pnl. unfold adaptStrategy.
    set (r := calculateWinRate pnls) in *.
    assert (H1 : Num.ltb r (1 # 2) = false).
    { unfold Num.ltb. apply negb_false_iff, Qle_bool_iff. lra. }
    assert (H2 : Num.ltb (6 # 10) r = true).
    { unfold Num.ltb. apply negb_true_iff.
      destruct (Qle_bool r (6 # 10)) eqn:E; [|reflexivity].
      apply Qle_bool_iff in E. lra. }
    now rewrite H1, H2, andb_false_r, andb_true_r. }
  split; [lra|]. split; [exact Hadapt|]. split.
  - intros totalValue Hv. unfold trackPerformance. cbv zeta. rewrite Hadapt.
    assert (H : Num.ltb (1 # 10) (totalValue / 10000 - 1) = true).
    { unfold Num.ltb. apply negb_true_iff.
      destruct (Qle_bool (totalValue / 10000 - 1) (1 # 10)) eqn:E; [|reflexivity].
      apply Qle_bool_iff in E.
      assert (totalValue / 10000 == totalValue * (1 # 10000))%Q by field. lra. }
    now rewrite H.
  - intros totalValue Hv. unfold trackPerformance. cbv zeta. rewrite Hadapt.
    assert (H : Num.ltb (1 # 10) (totalValue / 10000 - 1) = false).
    { unfold Num.ltb. apply negb_false_iff, Qle_bool_iff.
      assert (totalValue / 10000 == totalValue * (1 # 10000))%Q by field. lra. }
    now rewrite H.
Qed.

Lemma trackPerformance_by_value_witness :
  trackPerformance initialParameters 8000 [Finite 1; Finite (-5); Finite (-5)]
  = initialParameters.
Proof.
  refine (proj2 (proj2 (proj2
    (trackPerformance_by_value initialParameters
       [Finite 1; Finite (-5); Finite (-5)] _ _))) 8000%Q _).
  - exists (Finite 1). split; [left; reflexivity|reflexivity].
  - simpl. lia.
  - vm_compute. discriminate.
Defined.

(** *** The loop of [executeTrades] *)

Lemma entryOrder_amount (sp : StrategyParameters) (c : Chain) (specific : string)
  (tokens : list PortfolioToken) (balances : Balances) (order : Order) :
  entryOrder sp c specific tokens balances = Some order ->
  (10 <= ord_amount order)%Q.
Proof.
  unfold entryOrder. intros H.
  destruct c.
  - destruct (firstFunded _ _) as [[c' info]|]; [|discriminate].
    destruct (Qeq_bool _ 0); [discriminate|].
    injection H as <-. apply Q.le_max_l.
  - destruct (Qeq_bool _ 0); [discriminate|].
    injection H as <-. apply Q.le_max_l.
Qed.

(** One attempt: the order goes out; if it is accepted the trade is
    recorded, if not the rejection is caught. *)
Lemma attempt_run (e : Event) (ok : bool) (r : OpenTrade) (w : World) :
  try_catch
    (modify (emit e) ;;
     (if ok then ret tt else throw TradeRejected) ;;
     addOpenTrade r)
    (fun _ => ret tt) w
  = if ok then addOpenTrade r (emit e w) else (Resolved tt, emit e w).
Proof.
  destruct ok.
  - pose proof (TradeManagerFacts.addOpenTrade_openTrades (emit e w) r) as [Hr _].
    unfold try_catch, bind at 1, modify at 1. unfold bind at 1, ret at 1.
    destruct (addOpenTrade r (emit e w)) as [[[]|err] w']; [reflexivity|discriminate].
  - reflexivity.
Qed.

Lemma symbol_absent (ts : list OpenTrade) (s : string) :
  existsb (fun trade => String.eqb (toTokenSymbol trade) s) ts = false ->
  s ∉ map toTokenSymbol ts.
Proof.
  intros H Hin. apply list_elem_of_In, in_map_iff in Hin.
  destruct Hin as (t & E & Ht).
  assert (existsb (fun trade => String.eqb (toTokenSymbol trade) s) ts = true).
  { apply existsb_exists. exists t. split; [exact Ht|]. now apply String.eqb_eq. }
  congruence.
Qed.

Lemma entryOf_more (opportunity : AnalyzedToken) (rest : list AnalyzedToken)
  (added : list OpenTrade) :
  Forall (entryOf rest) added -> Forall (entryOf (opportunity :: rest)) added.
Proof.
  intros H. eapply Forall_impl; [exact H|].
  intros t (H1 & H2 & H3 & H4 & H5 & o & Ho & H6).
  repeat (split; [assumption|]). exists o. split; [now right|exact H6].
Qed.

Lemma executeTrades_loop_post (sp : StrategyParameters) (ex : Exchange)
  (tokens : list PortfolioToken) (balances : Balances) :
  forall (opportunities : list AnalyzedToken) (i : nat) (w : World),
  exists w' added,
    executeTrades_loop sp ex tokens balances i opportunities w = (Resolved tt, w') /\
    openTrades w' = openTrades w ++ added /\
    (length (openTrades w') <=
       Nat.max (length (openTrades w)) (maxConcurrentPositions sp))%nat /\
    (NoDup (map toTokenSymbol (openTrades w)) ->
     NoDup (map toTokenSymbol (openTrades w'))) /\
    Forall (entryOf opportunities) added.
Proof.
  induction opportunities as [|o rest IH]; intros i w.
  - exists w, []. split; [reflexivity|]. rewrite app_nil_r.
    split; [reflexivity|]. split; [lia|]. split; [auto|constructor].
  - cbn [executeTrades_loop]. unfold bind at 1, getOpenTrades at 1, gets at 1.
    destruct (Nat.leb_spec (maxConcurrentPositions sp) (length (openTrades w)))
      as [Hfull|Hroom].
    { exists w, []. split; [reflexivity|]. rewrite app_nil_r.
      split; [reflexivity|]. split; [lia|]. split; [auto|constructor]. }
    unfold bind at 1, getOpenTrades at 1, gets at 1.
    destruct (existsb _ (openTrades w)) eqn:Hsym.
    { destruct (IH (S i) w) as (w' & added & Hrun & H1 & H2 & H3 & H4).
      exists w', added. repeat (split; [assumption|]). now apply entryOf_more. }
    destruct (entryOrder sp (chain o) (specificChain o) tokens balances)
      as [order|] eqn:Hord.
    2:{ destruct (IH (S i) w) as (w' & added & Hrun & H1 & H2 & H3 & H4).
        exists w', added. repeat (split; [assumption|]). now apply entryOf_more. }
    cbv zeta. unfold bind at 1. rewrite attempt_run.
    set (e := ExecuteTrade _ _ _ _).
    set (r := entryRecord ex i o order _).
    destruct (accepts ex i order).
    + pose proof (TradeManagerFacts.addOpenTrade_openTrades (emit e w) r) as [Hr Hts].
      destruct (addOpenTrade r (emit e w)) as [res w1]. simpl in Hr, Hts. subst res.
      change (openTrades (emit e w)) with (openTrades w) in Hts.
      destruct (IH (S i) w1) as (w' & added & Hrun & H1 & H2 & H3 & H4).
      exists w', (r :: added). split; [exact Hrun|].
      split; [rewrite H1, Hts, <- app_assoc; reflexivity|].
      split; [rewrite Hts, length_app in H2; simpl in H2; lia|].
      split.
      * intros Hnd. apply H3. rewrite Hts, map_app. apply NoDup_app.
        split; [exact Hnd|]. split; [|apply NoDup_singleton].
        intros s Hs Hs'. apply list_elem_of_singleton in Hs'. subst s.
        exact (symbol_absent _ _ Hsym Hs).
      * constructor; [|now apply entryOf_more].
        split; [exact (entryOrder_amount _ _ _ _ _ _ Hord)|].
        repeat (split; [reflexivity|]).
        exists o. split; [now left|]. repeat split.
    + destruct (IH (S i) (emit e w)) as (w' & added & Hrun & H1 & H2 & H3 & H4).
      exists w', added. split; [exact Hrun|].
      repeat (split; [assumption|]). now apply entryOf_more.
Qed.

Lemma executeTrades_post (sp : StrategyParameters) (ex : Exchange)
  (tokens : list PortfolioToken) (balances : Balances)
  (opportunities : list AnalyzedToken) (w : World) :
  exists w' added,
    executeTrades sp ex tokens balances opportunities w = (Resolved tt, w') /\
    openTrades w' = openTrades w ++ added /\
    (length (openTrades w') <=
       Nat.max (length (openTrades w)) (maxConcurrentPositions sp))%nat /\
    (NoDup (map toTokenSymbol (openTrades w)) ->
     NoDup (map toTokenSymbol (openTrades w'))) /\
    Forall (entryOf opportunities) added.
Proof.
  unfold executeTrades.
  destruct ((length balances =? 0)%nat && Qeq_bool (svmUsdc tokens) 0).
  - exists w, []. split; [reflexivity|]. rewrite app_nil_r.
    split; [reflexivity|]. split; [lia|]. split; [auto|constructor].
  - apply executeTrades_loop_post.
Qed.

(** X18.  [executeTrades] always resolves (a rejected order is caught and
    the loop goes on), and it only appends to the store.  It never takes the
    number of open trades above [maxConcurrentPositions] (a store already
    above it is left as it is); if no two open trades were in the same
    symbol, that is still so afterwards; and every trade it records was
    bought with USDC for at least 10, at the price of one of the
    opportunities, and carries neither [token] nor [amount]. *)
Theorem executeTrades_spec (sp : StrategyParameters) (ex : Exchange)
  (tokens : list PortfolioToken) (balances : Balances)
  (opportunities : list AnalyzedToken) (w : World) :
  exists w' added,
    executeTrades sp ex tokens balances opportunities w = (Resolved tt, w') /\
    openTrades w' = openTrades w ++ added /\
    (length (openTrades w') <=
       Nat.max (length (openTrades w)) (maxConcurrentPositions sp))%nat /\
    (NoDup (map toTokenSymbol (openTrades w)) ->
     NoDup (map toTokenSymbol (openTrades w'))) /\
    Forall (entryOf opportunities) added.
Proof.
  unfold executeTrades.
  destruct ((length balances =? 0)%nat && Qeq_bool (svmUsdc tokens) 0).
  - exists w, []. split; [reflexivity|]. rewrite app_nil_r.
    split; [reflexivity|]. split; [lia|]. split; [auto|constructor].
  - apply executeTrades_loop_post.
Qed.

(** X19.  The bot's own entries are never closed by its monitor: the records
    [executeTrades] writes have no [token] property, and
    [monitorOpenPositions] passes over every trade whose [token] is not a
    tradable address.  On a store whose trades carry no [token], a monitoring
    pass after [executeTrades] resolves and changes nothing, whatever the
    prices and the exit thresholds are. *)
Theorem entries_never_closed (sp sp' : StrategyParameters) (ex : Exchange)
  (api : Recall) (tokens : list PortfolioToken) (balances : Balances)
  (opportunities : list AnalyzedToken) (w : World) :
  (forall t, In t (openTrades w) -> token t = None) ->
  let w1 := snd (executeTrades sp ex tokens balances opportunities w) in
  monitorOpenPositions sp' api w1 = (Resolved tt, w1).
Proof.
  intros Hw w1.
  destruct (executeTrades_post sp ex tokens balances opportunities w)
    as (w' & added & Hrun & Hts & _ & _ & Hadded).
  subst w1. rewrite Hrun. simpl snd.
  unfold monitorOpenPositions, bind, getOpenTrades, gets.
  apply MomentumBotFacts.for_of_monitor_idle.
  intros t Ht. rewrite Hts in Ht. apply in_app_or in Ht.
  assert (Htok : token t = None).
  { destruct Ht as [Ht|Ht]; [now apply Hw|].
    rewrite List.Forall_forall in Hadded. apply (Hadded t Ht). }
  unfold tradable. now rewrite Htok.
Qed.

Lemma entries_never_closed_witness :
  let w1 := snd (executeTrades initialParameters acceptsAll [] ethBalances
                   [dogeOpportunity] (mkWorld [] Absent [] [])) in
  map toTokenSymbol (openTrades w1) = ["DOGE"] /\
  monitorOpenPositions scenarioParameters (priceIs 1) w1 = (Resolved tt, w1).
Proof.
  split; [reflexivity|].
  apply (entries_never_closed initialParameters scenarioParameters acceptsAll
           (priceIs 1) [] ethBalances [dogeOpportunity] (mkWorld [] Absent [] [])).
  intros t [].
Defined.

End MomentumEntryFacts.

(** ** The meme-coin bot *)

Module MemecoinBotFacts.

Import Async JsNumber MemecoinManager MemecoinBot NumFacts.
Local Open Scope async_scope.

(** X20.  The exit rule of the meme-coin bot, for a position with a positive
    entry price: the position is sold when the price is at least 10.01 times
    the entry price (a gain above 900%) and when it is at most 0.499 times
    the entry price (a loss above 50%); it is kept when the price lies
    between 0.501 and 9.99 times the entry price. *)
Theorem memecoin_exit_rule (entryPrice currentPrice : Q) :
  (0 < entryPrice)%Q ->
  ((1001 # 100) * entryPrice <= currentPrice ->
   exitHit entryPrice currentPrice = true)%Q /\
  (currentPrice <= (499 # 1000) * entryPrice ->
   exitHit entryPrice currentPrice = true)%Q /\
  ((501 # 1000) * entryPrice <= currentPrice <= (999 # 100) * entryPrice ->
   exitHit entryPrice currentPrice = false)%Q.
Proof.
  intros He. unfold exitHit, div.
  destruct (Qeq_bool entryPrice 0) eqn:E; [apply Qeq_bool_iff in E; lra|].
  cbn [times100 ge_num le_num].
  unfold TAKE_PROFIT_PERCENT, STOP_LOSS_PERCENT.
  assert (Hd : ((currentPrice - entryPrice) / entryPrice * entryPrice
                == currentPrice - entryPrice)%Q) by (field; lra).
  set (x := ((currentPrice - entryPrice) / entryPrice)%Q) in *.
  split; [|split].
  - intros H. apply orb_true_iff. left. apply geb_iff. nra.
  - intros H. apply orb_true_iff. right. apply leb_iff. nra.
  - intros [H1 H2]. apply orb_false_iff. split.
    + destruct (Num.geb (x * 100) 900) eqn:G; [|reflexivity].
      apply geb_iff in G. nra.
    + destruct (Num.leb (x * 100) (-50)) eqn:L; [|reflexivity].
      apply leb_iff in L. nra.
Qed.

Lemma memecoin_exit_rule_witness :
  exitHit (4 # 10000) (41 # 10000) = true /\ exitHit (4 # 10000) (1 # 10000) = true /\
  exitHit (4 # 10000) (39 # 10000) = false.
Proof.
  pose proof (memecoin_exit_rule (4 # 10000)) as H.
  split; [|split].
  - apply (proj1 (H (41 # 10000)%Q eq_refl)). vm_compute. discriminate.
  - apply (proj1 (proj2 (H (1 # 10000)%Q eq_refl))). vm_compute. discriminate.
  - apply (proj2 (proj2 (H (39 # 10000)%Q eq_refl))). split; vm_compute; discriminate.
Defined.

Lemma removeOpenTrade_memory (w : World) (tradeId : string) :
  openTrades (snd (removeOpenTrade tradeId w)) =
  filter (fun t => id t <> tradeId) (openTrades w).
Proof.
  destruct w as [ts f fs]. unfold removeOpenTrade, saveOpenTrades, fs_writeFile,
    bind, modify, gets. simpl.
  destruct fs as [|[|] fs]; reflexivity.
Qed.

Lemma addOpenTrade_memory (w : World) (t : Trade) :
  openTrades (snd (addOpenTrade t w)) = openTrades w ++ [t].
Proof.
  destruct w as [ts f fs]. unfold addOpenTrade, saveOpenTrades, fs_writeFile,
    bind, modify, gets. simpl.
  destruct fs as [|[|] fs]; reflexivity.
Qed.

(** One iteration of the monitoring loop never rejects; it removes the
    trades with the id of [trade] when [trade] is sold and changes nothing in
    memory otherwise. *)
Lemma monitorBody_run (api : Recall) (trade : Trade) (w : World) :
  exists w',
    monitorBody api trade w = (Resolved tt, w') /\
    openTrades w' =
      if sold api trade then filter (fun t => id t <> id trade) (openTrades w)
      else openTrades w.
Proof.
  unfold monitorBody, sold, try_catch.
  destruct (getPrice api trade) as [cur|]; [|eexists; split; reflexivity].
  destruct (Qeq_bool cur 0); [eexists; split; reflexivity|].
  destruct (exitHit (price trade) cur); [|eexists; split; reflexivity].
  destruct (sell api trade); cbn [negb andb]; [|eexists; split; reflexivity].
  unfold bind at 1, ret at 1.
  pose proof (removeOpenTrade_memory w (id trade)) as Hm.
  destruct (removeOpenTrade (id trade) w) as [[[]|e] w']; simpl in Hm;
    eexists; (split; [reflexivity|exact Hm]).
Qed.

Lemma In_filter_other (ts : list Trade) (tradeId : string) (t : Trade) :
  In t (filter (fun t => id t <> tradeId) ts) <-> In t ts /\ id t <> tradeId.
Proof. rewrite <- !list_elem_of_In, list_elem_of_filter. tauto. Qed.

Lemma monitor_loop (api : Recall) :
  forall (snapshot : list Trade) (w : World),
  exists w',
    for_of snapshot (monitorBody api) w = (Resolved tt, w') /\
    (forall t, In t (openTrades w') <->
       In t (openTrades w) /\ ~ In (id t) (map id (List.filter (sold api) snapshot))) /\
    sublist (openTrades w') (openTrades w).
Proof.
  induction snapshot as [|x xs IH]; intros w.
  - exists w. split; [reflexivity|]. split; [simpl; tauto|reflexivity].
  - cbn [for_of]. unfold bind at 1.
    destruct (monitorBody_run api x w) as (w1 & Hrun & Hts). rewrite Hrun.
    destruct (IH w1) as (w' & Hloop & Hin & Hsub).
    exists w'. split; [exact Hloop|]. cbn [List.filter].
    destruct (sold api x).
    + split.
      * intros t. rewrite Hin, Hts, In_filter_other. cbn [map].
        simpl. intuition congruence.
      * etransitivity; [exact Hsub|]. rewrite Hts. apply sublist_filter.
    + rewrite Hts in Hin, Hsub. split; assumption.
Qed.

Lemma monitor_pass (api : Recall) (w : World) :
  exists w',
    monitorMemeCoinPositions api w = (Resolved tt, w') /\
    (forall t, In t (openTrades w') <->
       In t (openTrades w) /\
       ~ In (id t) (map id (List.filter (sold api) (openTrades w)))) /\
    sublist (openTrades w') (openTrades w).
Proof.
  unfold monitorMemeCoinPositions, bind at 1, getOpenTrades, gets.
  destruct (monitor_loop api (openTrades w) w) as (w' & Hrun & Hin & Hsub).
  destruct (Nat.eqb_spec (length (openTrades w)) 0) as [Hlen|_].
  - exists w. split; [reflexivity|]. split; [|reflexivity].
    intros t. apply nil_length_inv in Hlen. rewrite Hlen. simpl. tauto.
  - exists w'. split; [exact Hrun|]. split; assumption.
Qed.

(** X21.  A monitoring pass of the meme-coin bot never rejects: every
    failure (a rejected sale, a rejected file write) is caught per position.
    It only removes trades, and it removes exactly those carrying the id of
    a trade for which a non-zero price was obtained, an exit test was met and
    the sale was accepted; a position whose sale is rejected stays in the
    store. *)
Theorem monitorMemeCoinPositions_spec (api : Recall) (w : World) :
  exists w',
    monitorMemeCoinPositions api w = (Resolved tt, w') /\
    (forall t, In t (openTrades w') <->
       In t (openTrades w) /\
       ~ In (id t) (map id (List.filter (sold api) (openTrades w)))) /\
    sublist (openTrades w') (openTrades w).
Proof.
  unfold monitorMemeCoinPositions, bind at 1, getOpenTrades, gets.
  destruct (monitor_loop api (openTrades w) w) as (w' & Hrun & Hin & Hsub).
  destruct (Nat.eqb_spec (length (openTrades w)) 0) as [Hlen|_].
  - exists w. split; [reflexivity|]. split; [|reflexivity].
    intros t. apply nil_length_inv in Hlen. rewrite Hlen. simpl. tauto.
  - exists w'. split; [exact Hrun|]. split; assumption.
Qed.

(** *** The discovery loop *)

Lemma hasOpenTrade_false (tokenAddress : string) (w : World) :
  hasOpenTrade tokenAddress w = false ->
  toLowerCase tokenAddress ∉ heldAddresses w.
Proof.
  unfold hasOpenTrade, heldAddresses. intros H Hin.
  apply list_elem_of_In, in_map_iff in Hin. destruct Hin as (t & E & Ht).
  assert (existsb (fun trade => String.eqb (toLowerCase (toTokenAddress trade))
                                           (toLowerCase tokenAddress))
                  (openTrades w) = true).
  { apply existsb_exists. exists t. split; [exact Ht|]. now apply String.eqb_eq. }
  congruence.
Qed.

(** What one iteration of the discovery loop does to the store: nothing, or
    one trade appended for a token that was not held and is priced below
    [MAX_PRICE]. *)
Lemma buyBody_run (tradingEnabled : bool) (api : Recall) (pair : DexScreenerPair)
  (w : World) :
  exists w',
    buyBody tradingEnabled api pair w = (Resolved tt, w') /\
    (openTrades w' = openTrades w \/
     exists t,
       openTrades w' = openTrades w ++ [t] /\
       tradingEnabled = true /\
       hasOpenTrade (tokenAddress pair) w = false /\
       (priceUsd pair < MAX_PRICE)%Q /\
       toTokenAddress t = tokenAddress pair /\ price t = priceUsd pair).
Proof.
  unfold buyBody, bind at 1, gets at 1.
  destruct (hasOpenTrade (tokenAddress pair) w) eqn:Hheld;
    [eexists; split; [reflexivity|left; reflexivity]|].
  destruct (Num.geb (priceUsd pair) MAX_PRICE) eqn:Hprice;
    [eexists; split; [reflexivity|left; reflexivity]|].
  destruct tradingEnabled; [|eexists; split; [reflexivity|left; reflexivity]].
  unfold try_catch.
  destruct (buy api pair) as [tx|]; [|eexists; split; [reflexivity|left; reflexivity]].
  set (t := mkTrade _ _ _ _ _ _ _ _).
  pose proof (addOpenTrade_memory w t) as Hm.
  assert (Hlt : (priceUsd pair < MAX_PRICE)%Q).
  { apply Qnot_le_lt. intros Hle. apply geb_iff in Hle. congruence. }
  destruct (addOpenTrade t w) as [[[]|e] w']; simpl in Hm;
    (eexists; split; [reflexivity|]; right; exists t; repeat split; assumption).
Qed.

Lemma buy_loop (tradingEnabled : bool) (api : Recall) :
  forall (pairs : list DexScreenerPair) (w : World),
  exists w' added,
    for_of pairs (buyBody tradingEnabled api) w = (Resolved tt, w') /\
    openTrades w' = openTrades w ++ added /\
    (NoDup (heldAddresses w) -> NoDup (heldAddresses w')) /\
    (tradingEnabled = false -> added = []) /\
    Forall (fun t => exists pair, In pair pairs /\
                       toTokenAddress t = tokenAddress pair /\
                       price t = priceUsd pair /\ (priceUsd pair < MAX_PRICE)%Q)
           added.
Proof.
  induction pairs as [|p ps IH]; intros w.
  - exists w, []. split; [reflexivity|]. rewrite app_nil_r. repeat split; auto.
  - cbn [for_of]. unfold bind at 1.
    destruct (buyBody_run tradingEnabled api p w) as (w1 & Hrun & Hcase).
    rewrite Hrun.
    destruct (IH w1) as (w' & added & Hloop & Hts & Hnd & Hoff & Hall).
    assert (Hall' : Forall (fun t => exists pair, In pair (p :: ps) /\
                       toTokenAddress t = tokenAddress pair /\
                       price t = priceUsd pair /\ (priceUsd pair < MAX_PRICE)%Q)
                           added).
    { eapply Forall_impl; [exact Hall|]. intros t (q & Hq & H). exists q.
      split; [now right|exact H]. }
    destruct Hcase as [Hsame|(t & Hadd & Hen & Hheld & Hlt & Haddr & Hpr)].
    + exists w', added. split; [exact Hloop|]. split; [now rewrite Hts, Hsame|].
      split; [|split; assumption].
      intros H. apply Hnd. unfold heldAddresses. now rewrite Hsame.
    + exists w', (t :: added). split; [exact Hloop|].
      split; [rewrite Hts, Hadd, <- app_assoc; reflexivity|].
      split; [|split].
      * intros H. apply Hnd. unfold heldAddresses. rewrite Hadd, map_app.
        apply NoDup_app. split; [exact H|]. split; [|apply NoDup_singleton].
        intros a Ha Ha'. apply list_elem_of_singleton in Ha'. subst a.
        rewrite Haddr in Ha. exact (hasOpenTrade_false _ _ Hheld Ha).
      * intros ->. discriminate.
      * constructor; [|exact Hall'].
        exists p. split; [now left|]. repeat split; assumption.
Qed.

(** X22.  A cycle of the meme-coin bot never rejects.  Without a trending
    pair it returns at once: the store is untouched and the open positions
    are not monitored in that cycle.  Otherwise it never buys a token it
    already holds, addresses being compared without regard to case: if the
    held addresses were distinct they still are; every trade that is new in
    the store was bought for one of the pairs, at its price, which was below
    [MAX_PRICE]; and with trading disabled the store can only shrink. *)
Theorem runMemeCoinCycle_spec (tradingEnabled : bool) (api : Recall)
  (trendingPairs : list DexScreenerPair) (w : World) :
  exists w',
    runMemeCoinCycle tradingEnabled api trendingPairs w = (Resolved tt, w') /\
    (trendingPairs = [] -> w' = w) /\
    (NoDup (heldAddresses w) -> NoDup (heldAddresses w')) /\
    (tradingEnabled = false -> sublist (openTrades w') (openTrades w)) /\
    (forall t, In t (openTrades w') ->
       In t (openTrades w) \/
       exists pair, In pair trendingPairs /\
         toTokenAddress t = tokenAddress pair /\
         price t = priceUsd pair /\ (priceUsd pair < MAX_PRICE)%Q).
Proof.
  unfold runMemeCoinCycle.
  destruct trendingPairs as [|p ps].
  - exists w. split; [reflexivity|]. split; [reflexivity|].
    split; [auto|]. split; [reflexivity|]. auto.
  - change (length (p :: ps) =? 0)%nat with false. cbv iota.
    destruct (buy_loop tradingEnabled api (p :: ps) w)
      as (w1 & added & Hloop & Hts & Hnd & Hoff & Hall).
    unfold bind at 1, try_catch. rewrite Hloop.
    destruct (monitor_pass api w1) as (w' & Hmon & Hin & Hsub).
    exists w'. split; [exact Hmon|]. split; [discriminate|].
    split; [|split].
    + intros H. eapply sublist_NoDup; [exact (Hnd H)|].
      unfold heldAddresses. apply (fmap_sublist _), Hsub.
    + intros Hdis. rewrite (Hoff Hdis), app_nil_r in Hts.
      now rewrite <- Hts.
    + intros t Ht.
      assert (Ht1 : In t (openTrades w1)) by (now apply Hin).
      rewrite Hts in Ht1. apply in_app_or in Ht1 as [H|H]; [now left|right].
      rewrite List.Forall_forall in Hall. exact (Hall t H).
Qed.

Lemma mostLiquid_fold {A} (liquidityUsd : A -> Q) (others : list A) : forall first,
  let best := mostLiquid liquidityUsd first others in
  In best (first :: others) /\
  Forall (fun p => (liquidityUsd p <= liquidityUsd best)%Q) (first :: others).
Proof.
  induction others as [|x xs IH]; intros first best.
  - subst best. split; [now left|]. constructor; [apply Qle_refl|constructor].
  - subst best. unfold mostLiquid. cbn [fold_left].
    destruct (Num.ltb (liquidityUsd x) (liquidityUsd first)) eqn:E.
    + apply ltb_iff in E. destruct (IH first) as [Hin Hall].
      unfold mostLiquid in Hin, Hall.
      split; [destruct Hin as [H|H]; [now left|now right; right]|].
      inversion Hall as [|? ? H1 H2]; subst. cbv beta in H1.
      constructor; [exact H1|]. constructor; [cbv beta; lra|exact H2].
    + assert (Hle : (liquidityUsd first <= liquidityUsd x)%Q).
      { unfold Num.ltb in E. apply negb_false_iff in E. now apply Qle_bool_iff. }
      destruct (IH x) as [Hin Hall]. unfold mostLiquid in Hin, Hall.
      split; [now right|].
      inversion Hall as [|? ? H1 H2]; subst. cbv beta in H1.
      constructor; [cbv beta; lra|]. constructor; [exact H1|exact H2].
Qed.

(** X23.  The pair [getPairPrice] takes its price from is one of the pairs
    of the answer, and no pair of the answer has a larger liquidity. *)
Theorem mostLiquid_spec {A} (liquidityUsd : A -> Q) (first : A) (others : list A) :
  In (mostLiquid liquidityUsd first others) (first :: others) /\
  forall p, In p (first :: others) ->
    (liquidityUsd p <= liquidityUsd (mostLiquid liquidityUsd first others))%Q.
Proof.
  destruct (mostLiquid_fold liquidityUsd others first) as [Hin Hall].
  split; [exact Hin|]. now apply List.Forall_forall.
Qed.

End MemecoinBotFacts.

(** ** Confidence parsing of the rebalancing, intraday and combined bots *)

Module RebalanceConfidenceFacts.

Import JsNumber Confidence.

(** X24.  [getRebalanceConfidence] (and [getTradeConfidence] of the intraday
    and combined bots) looks for [<score>X<!--/score-->]: for an answer in
    which the text [<!--/score-->] does not occur it returns 0.  In
    particular the answer [<score>0.9</score>], in the format the prompt asks
    for, yields 0, while [<score>0.9<!--/score-->] yields 0.9. *)
Theorem rebalanceConfidence_needs_comment (response : string) :
  ~ occurs (chars "<!--/score-->") (chars response) ->
  rebalanceConfidence response = Finite 0.
Proof.
  intros Hno. unfold rebalanceConfidence, scoreComment.
  destruct (search (chars "<score>") (chars "<!--/score-->") (chars response))
    as [[[before capture] rest]|] eqn:E; [|reflexivity].
  exfalso. apply Hno.
  apply ConfidenceFacts.search_sound in E as (_ & _ & E).
  exists (before ++ chars "<score>" ++ capture), rest.
  rewrite E, <- !app_assoc. reflexivity.
Qed.

Lemma rebalanceConfidence_needs_comment_witness :
  rebalanceConfidence "<score>0.9</score>" = Finite 0 /\
  exists q, rebalanceConfidence "<score>0.9<!--/score-->" = Finite q /\ (q == 9 # 10)%Q.
Proof.
  split.
  - apply (rebalanceConfidence_needs_comment "<score>0.9</score>").
    intros (before & rest & H).
    do 19 (destruct before as [|? before]; [discriminate H|]).
    discriminate H.
  - eexists. split; [vm_compute; reflexivity|reflexivity].
Defined.

End RebalanceConfidenceFacts.

(** ** The trend/pullback bot *)

Module PullbackFacts.

Import Indicators MomentumBot PullbackBot.
Local Open Scope Q_scope.

Lemma trueRanges_nonneg (ohlcData : list (list Q)) :
  Forall (fun x => 0 <= x) (trueRanges ohlcData).
Proof.
  rewrite IndicatorBounds.trueRanges_bars. apply IndicatorBounds.trValues_nonneg.
Qed.

Lemma atr_fold_nonneg (period : Q) (rest : list Q) : forall first,
  1 <= period -> 0 <= first -> Forall (fun x => 0 <= x) rest ->
  0 <= fold_left (fun atr t => (atr * (period - 1) + t) / period) rest first.
Proof.
  induction rest as [|t rest IH]; intros first Hp Hf Hrest; [exact Hf|].
  inversion Hrest as [|? ? Ht Hrest']; subst. cbv beta in Ht.
  cbn [fold_left]. apply IH; [assumption| |assumption].
  apply IndicatorBounds.div_nonneg; [lra|nra].
Qed.

Lemma calculateATR_scalar_nonneg (ohlcData : list (list Q)) (period : nat) :
  (1 <= period)%nat -> 0 <= calculateATR_scalar ohlcData period.
Proof.
  intros Hp. pose proof (IndicatorBounds.ofNat_pos period Hp) as Hq.
  unfold calculateATR_scalar.
  destruct (length ohlcData <? period)%nat; [lra|].
  pose proof (trueRanges_nonneg ohlcData) as Htr.
  apply atr_fold_nonneg; [assumption| |apply Forall_drop, Htr].
  apply IndicatorBounds.div_nonneg; [lra|].
  apply IndicatorBounds.sum_nonneg, Forall_take, Htr.
Qed.

Lemma isOpportunity_iff (atr lastEma currentPrice : Q) :
  isOpportunity atr lastEma currentPrice = true <->
  lastEma < currentPrice /\ currentPrice <= lastEma + atr.
Proof.
  unfold isOpportunity, ATR_THRESHOLD. rewrite andb_true_iff.
  rewrite NumFacts.ltb_iff, NumFacts.leb_iff.
  split.
  - intros [Hlt Hnear]. split; [exact Hlt|].
    pose proof (Qle_Qabs (currentPrice - lastEma)). lra.
  - intros [Hlt Hle]. split; [exact Hlt|].
    rewrite Qabs_pos by lra. lra.
Qed.

(** X25.  [findPullbackOpportunities] flags a coin exactly when there are
    candles, at least 20 chart prices and a non-zero price, the 14-period ATR
    is positive, and the price lies strictly above the last 20-period EMA and
    at most one ATR above it.  A price equal to the EMA, or below it, is
    never flagged. *)
Theorem analyse_flags (ohlcData : list (list Q)) (prices : list Q) (currentPrice : Q) :
  let atr := calculateATR_scalar ohlcData 14 in
  let ema := calculateEMA prices 20 in
  let lastEma := at_ ema (length ema - 1) in
  analyse ohlcData prices currentPrice = Some true <->
  ohlcData <> [] /\ (20 <= length prices)%nat /\ ~ currentPrice == 0 /\
  0 < atr /\ lastEma < currentPrice /\ currentPrice <= lastEma + atr.
Proof.
  intros atr ema lastEma. unfold analyse, entryEmaPeriod.
  fold atr. fold ema. fold lastEma.
  pose proof (calculateATR_scalar_nonneg ohlcData 14 ltac:(lia)) as Hatr.
  fold atr in Hatr.
  destruct ohlcData as [|row ohlcData'] eqn:Eo.
  { simpl. split; [discriminate|]. intros (H & _). contradiction. }
  change (length (row :: ohlcData') =? 0)%nat with false. cbv iota.
  destruct (Qeq_bool atr 0) eqn:Ea.
  { apply Qeq_bool_iff in Ea. split; [discriminate|]. intros (_ & _ & _ & H & _). lra. }
  apply Qeq_bool_neq in Ea.
  destruct (Nat.ltb_spec (length prices) 20) as [Hshort|Hlong].
  { split; [discriminate|]. intros (_ & H & _). lia. }
  destruct (Qeq_bool currentPrice 0) eqn:Ec.
  { apply Qeq_bool_iff in Ec. split; [discriminate|]. intros (_ & _ & H & _). contradiction. }
  apply Qeq_bool_neq in Ec.
  split.
  - intros [= H]. apply isOpportunity_iff in H.
    repeat split; try tauto; try discriminate. lra.
  - intros (_ & _ & _ & _ & H1 & H2). f_equal. apply isOpportunity_iff. tauto.
Qed.

(** The last value of a simple moving average is the mean of the last
    [period] values. *)
Lemma calculateSMA_last (prices : list Q) (period : nat) :
  (1 <= period <= length prices)%nat ->
  at_ (calculateSMA prices period) (length (calculateSMA prices period) - 1) =
  Num.sum (skipn (length prices - period) prices) / Num.ofNat period.
Proof.
  intros [Hp Hlen]. unfold at_.
  rewrite IndicatorBounds.calculateSMA_length by assumption.
  destruct (Nat.ltb_spec (length prices) period); [lia|].
  replace (length prices - period + 1 - 1)%nat with (length prices - period)%nat by lia.
  rewrite IndicatorBounds.calculateSMA_nth by lia.
  rewrite firstn_all2 by (rewrite length_skipn; lia). reflexivity.
Qed.

(** The last 50 prices are the 30 before the last 20, then the last 20. *)
Lemma last50_split (prices : list Q) :
  (50 <= length prices)%nat ->
  skipn (length prices - 50) prices =
  firstn 30 (skipn (length prices - 50) prices) ++ skipn (length prices - 20) prices.
Proof.
  intros H.
  rewrite <- (firstn_skipn 30 (skipn (length prices - 50) prices)) at 1.
  f_equal. rewrite skipn_skipn. f_equal. lia.
Qed.

(** X26.  [getOverallMarketTrend] answers SIDEWAYS exactly when the chart is
    missing or has fewer than 50 prices.  With 50 prices or more it compares
    the mean of the last 20 prices with the mean of the last 50: when the
    last 20 prices are all at least 1% above a level that none of the 30
    prices before them exceeds, the market is in an UPTREND; when the 30
    prices before are all at least 1% above a level that none of the last 20
    exceeds, it is in a DOWNTREND. *)
Theorem getOverallMarketTrend_spec (chart : option (list Q)) :
  (getOverallMarketTrend chart = SIDEWAYS <->
   match chart with
   | None => True
   | Some prices => (length prices < 50)%nat
   end) /\
  forall prices level,
    chart = Some prices -> (50 <= length prices)%nat -> 0 < level ->
    let older := firstn 30 (skipn (length prices - 50) prices) in
    let recent := skipn (length prices - 20) prices in
    (Forall (fun p => p <= level) older ->
     Forall (fun p => (101 # 100) * level <= p) recent ->
     getOverallMarketTrend chart = UPTREND) /\
    (Forall (fun p => (101 # 100) * level <= p) older ->
     Forall (fun p => p <= level) recent ->
     getOverallMarketTrend chart = DOWNTREND).
Proof.
  split.
  - destruct chart as [prices|]; [|simpl; tauto].
    unfold getOverallMarketTrend, marketTrendSmaLong.
    destruct (Nat.ltb_spec (length prices) 50) as [H|H]; [tauto|].
    split; [|lia]. destruct (Num.ltb _ _); discriminate.
  - intros prices level -> Hlen Hlevel older recent.
    unfold getOverallMarketTrend, marketTrendSmaLong, marketTrendSmaShort.
    destruct (Nat.ltb_spec (length prices) 50); [lia|].
    rewrite !calculateSMA_last by lia.
    rewrite (last50_split prices Hlen). fold older. fold recent.
    assert (Ho : length older = 30%nat).
    { subst older. rewrite length_firstn, length_skipn. lia. }
    assert (Hr : length recent = 20%nat).
    { subst recent. rewrite length_skipn. lia. }
    change (Num.ofNat 50) with 50. change (Num.ofNat 20) with 20.
    assert (E1 : forall s, s / 50 == s * (1 # 50)) by (intros; field).
    assert (E2 : forall s, s / 20 == s * (1 # 20)) by (intros; field).
    split; intros H1 H2.
    + pose proof (IndicatorBounds.sum_upper _ _ H1) as U. pose proof (IndicatorBounds.sum_lower _ _ H2) as L.
      rewrite Ho in U. rewrite Hr in L.
      change (Num.ofNat 30) with 30 in U. change (Num.ofNat 20) with 20 in L.
      assert (Hlt : Num.ltb (Num.sum (older ++ recent) / 50)
                            (Num.sum recent / 20) = true).
      { apply NumFacts.ltb_iff. rewrite IndicatorBounds.sum_app, E1, E2. lra. }
      now rewrite Hlt.
    + pose proof (IndicatorBounds.sum_lower _ _ H1) as L. pose proof (IndicatorBounds.sum_upper _ _ H2) as U.
      rewrite Ho in L. rewrite Hr in U.
      change (Num.ofNat 30) with 30 in L. change (Num.ofNat 20) with 20 in U.
      assert (Hlt : Num.ltb (Num.sum (older ++ recent) / 50)
                            (Num.sum recent / 20) = false).
      { unfold Num.ltb. apply negb_false_iff, Qle_bool_iff.
        rewrite IndicatorBounds.sum_app, E1, E2. lra. }
      now rewrite Hlt.
Qed.

Lemma getOverallMarketTrend_spec_witness :
  getOverallMarketTrend (Some (repeat 100 30 ++ repeat 102 20)) = UPTREND /\
  getOverallMarketTrend (Some (repeat 102 30 ++ repeat 100 20)) = DOWNTREND.
Proof.
  split.
  - apply (proj2 (getOverallMarketTrend_spec (Some (repeat 100 30 ++ repeat 102 20)))
             (repeat 100 30 ++ repeat 102 20) 100 eq_refl).
    + simpl. lia.
    + reflexivity.
    + repeat constructor; vm_compute; discriminate.
    + repeat constructor; vm_compute; discriminate.
  - apply (proj2 (getOverallMarketTrend_spec (Some (repeat 102 30 ++ repeat 100 20)))
             (repeat 102 30 ++ repeat 100 20) 100 eq_refl).
    + simpl. lia.
    + reflexivity.
    + repeat constructor; vm_compute; discriminate.
    + repeat constructor; vm_compute; discriminate.
Defined.

Lemma firstCovering_sound (balances : Balances) (size : Q) :
  forall (preferred : list string) (c : string) (info : BalanceInfo),
    firstCovering balances preferred size = Some (c, info) ->
    In c preferred /\ get balances c = Some info /\ size <= bal_amount info.
Proof.
  induction preferred as [|x xs IH]; intros c info H; [discriminate|].
  cbn [firstCovering] in H.
  destruct (get balances x) as [i|] eqn:Eg.
  - destruct (Num.geb (bal_amount i) size) eqn:Ec.
    + injection H as <- <-. apply NumFacts.geb_iff in Ec.
      split; [now left|]. split; assumption.
    + destruct (IH c info H) as (H1 & H2 & H3). split; [now right|]. split; assumption.
  - destruct (IH c info H) as (H1 & H2 & H3). split; [now right|]. split; assumption.
Qed.

(** X27.  The pullback bot only draws an order on funds that cover it: when
    [executeTrades] settles on a source of funds for an order of [size], the
    SVM balance is at least [size] for an SVM token, and for an EVM token the
    chosen chain is one of the preferred chains, its USDC balance is at least
    [size], and the address used is the non-empty address of that balance. *)
Theorem funding_covers (chain : Chain) (specificChain : string) (balances : Balances)
  (svmUsdcBalance size : Q) (fromTokenAddress fromChain fromSpecificChain : string) :
  funding chain specificChain balances svmUsdcBalance size
    = Some (fromTokenAddress, fromChain, fromSpecificChain) ->
  match chain with
  | svm =>
      size <= svmUsdcBalance /\ fromTokenAddress = USDC_SVM_ADDRESS /\
      fromChain = "svm"%string /\ fromSpecificChain = "svm"%string
  | evm =>
      fromChain = "evm"%string /\ fromTokenAddress <> ""%string /\
      In fromSpecificChain
         [specificChain; "base"; "polygon"; "arbitrum"; "optimism"; "eth"]%string /\
      exists info, get balances fromSpecificChain = Some info /\
                   bal_address info = fromTokenAddress /\
                   size <= bal_amount info
  end.
Proof.
  unfold funding. destruct chain.
  - destruct (firstCovering _ _ _) as [[c info]|] eqn:E; [|discriminate].
    destruct (String.eqb_spec (bal_address info) ""); [discriminate|].
    intros [= <- <- <-].
    apply firstCovering_sound in E as (H1 & H2 & H3).
    split; [reflexivity|]. split; [assumption|]. split; [exact H1|].
    exists info. auto.
  - destruct (Num.geb svmUsdcBalance size) eqn:E; [|discriminate].
    intros [= <- <- <-]. apply NumFacts.geb_iff in E. auto.
Qed.

Lemma funding_covers_witness :
  funding evm "eth" ethBalances 0 1000 = Some (USDC_ADDRESS, "evm"%string, "eth"%string) /\
  exists info, get ethBalances "eth" = Some info /\ 1000 <= bal_amount info.
Proof.
  split; [reflexivity|].
  destruct (funding_covers evm "eth" ethBalances 0 1000 USDC_ADDRESS "evm" "eth" eq_refl)
    as (_ & _ & _ & info & H1 & _ & H2).
  exists info. auto.
Defined.

Lemma required_at_least (symbol : string) (required : Q) :
  tokenTakeProfitDollars !! symbol = Some required -> 2 # 100 <= required.
Proof.
  unfold tokenTakeProfitDollars. intros H.
  repeat (apply lookup_insert_Some in H as [[_ <-]|[_ H]];
          [vm_compute; discriminate|]).
  rewrite lookup_empty in H. discriminate.
Qed.

(** X28.  The pullback bot has no stop: its monitor closes a position only
    on a gain, of at least the take-profit amount of the token (0.02 or
    more).  A price at or below the entry price never closes a position,
    whatever the token. *)
Theorem takeProfitHit_only_above_entry (toTokenSymbol : string)
  (entryPrice currentPrice : Q) :
  currentPrice <= entryPrice ->
  takeProfitHit toTokenSymbol entryPrice currentPrice = false.
Proof.
  intros H. unfold takeProfitHit.
  destruct (tokenTakeProfitDollars !! toUpperCase toTokenSymbol) as [required|] eqn:E;
    [|reflexivity].
  apply required_at_least in E.
  destruct (Num.geb (currentPrice - entryPrice) required) eqn:Eg; [|reflexivity].
  apply NumFacts.geb_iff in Eg. lra.
Qed.

Lemma takeProfitHit_only_above_entry_witness :
  takeProfitHit "link" 10 5 = false /\ takeProfitHit "link" 10 11 = true.
Proof.
  split; [|reflexivity].
  apply (takeProfitHit_only_above_entry "link" 10 5). vm_compute. discriminate.
Defined.

End PullbackFacts.

(** ** Entries of the intraday bot *)

Module IntradayEntryFacts.

Import Async JsNumber Intraday IntradayEntries.
Local Open Scope async_scope.

Lemma addOpenTrade_trades (t : OpenTrade) (w : World) :
  closed w ->
  exists w',
    addOpenTrade t w = (Resolved tt, w') /\ closed w' /\
    length (openTrades w') = S (length (openTrades w)) /\
    trades w' = trades w ++ [t].
Proof.
  intros Hc. unfold addOpenTrade. rewrite IntradayFacts.bind_modify.
  set (r := fresh (dom (heap w))).
  assert (Hfresh : heap w !! r = None) by apply not_elem_of_dom, is_fresh.
  assert (Hold : forall y, y ∈ openTrades w -> <[r := t]> (heap w) !! y = heap w !! y).
  { intros y Hy. apply lookup_insert_ne. intros <-.
    destruct (Hc r Hy) as [? ?]. congruence. }
  destruct (IntradayFacts.save_keeps_store
              (set_openTrades (fun rs => rs ++ [r]) (set_heap (insert r t) w)))
    as (w' & Hrun & Hh & Ho & _).
  simpl in Hh, Ho.
  exists w'. split; [exact Hrun|]. split; [|split].
  - intros y Hy. rewrite Ho in Hy. rewrite Hh.
    apply elem_of_app in Hy as [Hy|Hy].
    + rewrite Hold by assumption. now apply Hc.
    + apply list_elem_of_singleton in Hy. subst y. rewrite lookup_insert_eq. eauto.
  - rewrite Ho, length_app. simpl. lia.
  - unfold trades. rewrite Hh, Ho, IntradayStoreFacts.objects_app.
    rewrite (IntradayStoreFacts.objects_cons _ r t []) by apply lookup_insert_eq.
    f_equal. apply IntradayStoreFacts.objects_ext. exact Hold.
Qed.

Lemma symbol_free (ts : list OpenTrade) (s : string) :
  existsb (fun trade => String.eqb (toTokenSymbol trade) s) ts = false ->
  s ∉ map toTokenSymbol ts.
Proof.
  intros H Hin. apply list_elem_of_In, in_map_iff in Hin.
  destruct Hin as (t & E & Ht).
  assert (existsb (fun trade => String.eqb (toTokenSymbol trade) s) ts = true).
  { apply existsb_exists. exists t. split; [exact Ht|]. now apply String.eqb_eq. }
  congruence.
Qed.

Lemma fixed_entryOf_more (o : MomentumBot.AnalyzedToken) (rest : list MomentumBot.AnalyzedToken)
  (added : list OpenTrade) :
  Forall (entryOf rest) added -> Forall (entryOf (o :: rest)) added.
Proof.
  intros H. eapply Forall_impl; [exact H|].
  intros t (H1 & H2 & H3 & o' & Ho & H4).
  repeat (split; [assumption|]). exists o'. split; [now right|exact H4].
Qed.

Lemma executeTrades_loop_run (sp : StrategyParameters) (ex : Exchange) :
  forall (opportunities : list MomentumBot.AnalyzedToken) (i : nat)
         (availableCapital : Q) (w : World),
  closed w ->
  exists w' remaining added,
    executeTrades_loop sp ex i opportunities availableCapital w
      = (Resolved remaining, w') /\
    closed w' /\
    trades w' = trades w ++ added /\
    length (openTrades w') = (length (openTrades w) + length added)%nat /\
    (remaining == availableCapital - 1000 * Num.ofNat (length added))%Q /\
    (added <> [] -> 0 <= remaining)%Q /\
    (length (openTrades w') <=
       Nat.max (length (openTrades w)) (maxConcurrentPositions sp))%nat /\
    (NoDup (map toTokenSymbol (trades w)) -> NoDup (map toTokenSymbol (trades w'))) /\
    Forall (entryOf opportunities) added.
Proof.
  induction opportunities as [|o rest IH]; intros i cap w Hc.
  - exists w, cap, []. split; [reflexivity|]. split; [exact Hc|].
    rewrite app_nil_r. split; [reflexivity|]. split; [simpl; lia|].
    split; [change (Num.ofNat (length [])) with 0%Q; lra|].
    split; [congruence|]. split; [lia|]. split; [auto|constructor].
  - cbn [executeTrades_loop]. unfold getOpenTrades.
    rewrite IntradayFacts.bind_gets.
    destruct (Nat.leb_spec (maxConcurrentPositions sp) (length (openTrades w)))
      as [Hfull|Hroom].
    { exists w, cap, []. split; [reflexivity|]. split; [exact Hc|].
      rewrite app_nil_r. split; [reflexivity|]. split; [simpl; lia|].
      split; [change (Num.ofNat (length [])) with 0%Q; lra|].
      split; [congruence|]. split; [lia|]. split; [auto|constructor]. }
    rewrite IntradayFacts.bind_gets. fold (trades w).
    destruct (existsb _ (trades w)) eqn:Hsym.
    { destruct (IH (S i) cap w Hc)
        as (w' & rem & added & Hrun & H1 & H2 & H3 & H4 & H5 & H6 & H7 & H8).
      exists w', rem, added. repeat (split; [assumption|]). now apply fixed_entryOf_more. }
    destruct (Num.ltb cap FIXED_POSITION_SIZE) eqn:Hcap.
    { destruct (IH (S i) cap w Hc)
        as (w' & rem & added & Hrun & H1 & H2 & H3 & H4 & H5 & H6 & H7 & H8).
      exists w', rem, added. repeat (split; [assumption|]). now apply fixed_entryOf_more. }
    assert (Hcap' : (1000 <= cap)%Q).
    { unfold Num.ltb in Hcap. apply negb_false_iff in Hcap.
      now apply Qle_bool_iff in Hcap. }
    unfold bind at 1, try_catch.
    destruct (accepts ex i).
    + unfold bind at 1, ret at 1.
      destruct (addOpenTrade_trades (entryRecord ex i o) w Hc)
        as (w1 & Hadd & Hc1 & Hlen1 & Htr1).
      unfold bind at 1. rewrite Hadd. unfold ret at 1.
      destruct (IH (S i) (cap - FIXED_POSITION_SIZE)%Q w1 Hc1)
        as (w' & rem & added & Hrun & H1 & H2 & H3 & H4 & H5 & H6 & H7 & H8).
      exists w', rem, (entryRecord ex i o :: added).
      split; [exact Hrun|]. split; [exact H1|].
      split; [rewrite H2, Htr1, <- app_assoc; reflexivity|].
      split; [rewrite H3, Hlen1; simpl; lia|].
      split.
      { rewrite H4. cbn [length]. rewrite IndicatorBounds.ofNat_S.
        unfold FIXED_POSITION_SIZE. lra. }
      split.
      { intros _. destruct added as [|a added'].
        - change (Num.ofNat (length [])) with 0%Q in H4.
          unfold FIXED_POSITION_SIZE in H4. lra.
        - apply H5. discriminate. }
      split; [rewrite Hlen1 in H6; lia|].
      split.
      { intros Hnd. apply H7. rewrite Htr1, map_app. apply NoDup_app.
        split; [exact Hnd|]. split; [|apply NoDup_singleton].
        intros s Hs Hs'. apply list_elem_of_singleton in Hs'. subst s.
        exact (symbol_free _ _ Hsym Hs). }
      constructor; [|now apply fixed_entryOf_more].
      repeat (split; [reflexivity|]). exists o. split; [now left|]. split; reflexivity.
    + unfold bind at 1, throw, ret at 1.
      destruct (IH (S i) cap w Hc)
        as (w' & rem & added & Hrun & H1 & H2 & H3 & H4 & H5 & H6 & H7 & H8).
      exists w', rem, added. repeat (split; [assumption|]). now apply fixed_entryOf_more.
Qed.

(** X29.  [executeTrades] of the intraday bot never spends more than the
    USDC of the portfolio: it always resolves, it only appends trades, each
    recorded with a size of 1000 and with its entry price as high-water mark,
    and the capital left is the USDC of the portfolio minus 1000 per trade
    recorded, which is not negative when a trade was recorded.  It never
    takes the number of open trades above [maxConcurrentPositions], and it
    opens no second trade in a symbol. *)
Theorem intraday_executeTrades_spec (sp : StrategyParameters) (ex : Exchange)
  (tokens : list MomentumBot.PortfolioToken)
  (opportunities : list MomentumBot.AnalyzedToken) (w : World) :
  closed w ->
  exists w' remaining added,
    executeTrades sp ex tokens opportunities w = (Resolved remaining, w') /\
    trades w' = trades w ++ added /\
    (remaining == usdcCapital tokens - 1000 * Num.ofNat (length added))%Q /\
    (added <> [] -> 0 <= remaining)%Q /\
    (length (openTrades w') <=
       Nat.max (length (openTrades w)) (maxConcurrentPositions sp))%nat /\
    (NoDup (map toTokenSymbol (trades w)) -> NoDup (map toTokenSymbol (trades w'))) /\
    Forall (entryOf opportunities) added.
Proof.
  intros Hc. unfold executeTrades. cbv zeta.
  destruct (Num.ltb (usdcCapital tokens) 1000).
  - exists w, (usdcCapital tokens), []. split; [reflexivity|].
    rewrite app_nil_r. split; [reflexivity|].
    split; [change (Num.ofNat (length [])) with 0%Q; lra|].
    split; [congruence|]. split; [lia|]. split; [auto|constructor].
  - destruct (executeTrades_loop_run sp ex opportunities 0 (usdcCapital tokens) w Hc)
      as (w' & rem & added & Hrun & H1 & H2 & H3 & H4 & H5 & H6 & H7 & H8).
    exists w', rem, added. repeat (split; [assumption|]). assumption.
Qed.

Lemma intraday_executeTrades_spec_witness :
  exists w' remaining added,
    executeTrades initialParameters acceptsAll usdc2500
      [MomentumBot.dogeOpportunity; MomentumBot.dogeOpportunity] loaded
      = (Resolved remaining, w') /\
    trades w' = trades loaded ++ added /\
    (remaining == usdcCapital usdc2500 - 1000 * Num.ofNat (length added))%Q.
Proof.
  destruct (intraday_executeTrades_spec initialParameters acceptsAll usdc2500
              [MomentumBot.dogeOpportunity; MomentumBot.dogeOpportunity] loaded)
    as (w' & remaining & added & H1 & H2 & H3 & _).
  - intros r Hr. apply list_elem_of_singleton in Hr. subst r. eexists. reflexivity.
  - exists w', remaining, added. auto.
Defined.

End IntradayEntryFacts.

(** ** The initial portfolio setup script *)

Module InitialSetupFacts.

Import Async JsNumber Intraday IntradayEntries InitialSetup.
Local Open Scope async_scope.





End InitialSetupFacts.

(* ----- end of the development ----- *)
